(** * wb-access-logs: traffic aggregation, geo enrichment and downsampling

    A shallow embedding of the scripts that aggregate nginx access logs per
    minute and per country ([traffic_geo]), enrich the bot summary with
    country counts ([bot_geo]), and of the [downsample] helper of the two
    chart modules ([ip-location], [bot-vs-browser]).

    Conventions.
    - A JavaScript [number] that holds data is a binary64 float (Rocq's
      primitive [float]); array lengths, indices and counters are exact
      non-negative integers ([nat]), with [Infinity] added where the code
      can produce it.
    - A JavaScript object used as a dictionary is a [gmap string _]; the
      insertion order of its keys is not tracked, and keys are assumed not
      to clash with members of [Object.prototype].
    - [obj[k] = (obj[k] || 0) + 1] is [bump k obj]. *)

From Stdlib Require Import ZArith List Floats Uint63 DecimalString Ascii String.
From stdpp Require Import gmap strings list fin_maps sorting.

Set Default Proof Using "Type".
Set Warnings "-inexact-float".

(* ===================================================================== *)
(** * Definitions *)
(* ===================================================================== *)

(** ** JavaScript numbers and built-ins *)

Module Js.

Definition number := float.

(** A counter or length read as a number (exact below 2^53). *)
Definition of_Z (z : Z) : number :=
  if (z <? 0)%Z then PrimFloat.opp (PrimFloat.of_uint63 (Uint63.of_Z (- z)))
  else PrimFloat.of_uint63 (Uint63.of_Z z).

Definition of_nat (n : nat) : number := of_Z (Z.of_nat n).

(** [Math.round]: the integer nearest to [x], a tie going toward
    +Infinity; NaN, the infinities and the zeros are returned as they
    are, and a result of zero keeps the sign of [x]. *)
Definition Math_round (x : number) : number :=
  match Prim2SF x with
  | S754_finite s m e =>
      if (0 <=? e)%Z then x
      else
        let num := if s then Z.neg m else Z.pos m in
        let n := ((2 * num + 2 ^ (- e)) / 2 ^ (- e + 1))%Z in
        if (n =? 0)%Z then (if s then PrimFloat.neg_zero else PrimFloat.zero)
        else of_Z n
  | _ => x
  end.

(** [arr[i]] read in an arithmetic context: a missing element is
    [undefined], and [s + undefined] is NaN. *)
Definition elem (row : list number) (i : nat) : number :=
  default PrimFloat.nan (row !! i).

(** [chunk.reduce((s, row) => s + f(row), 0)] *)
Definition reduce_sum {A} (f : A → number) (chunk : list A) : number :=
  fold_left (λ s row, PrimFloat.add s (f row)) chunk PrimFloat.zero.

(** A loop counter: a non-negative integer, or [Infinity]. *)
Inductive index :=
| Fin (n : nat)
| Infinity.

Definition index_add (i j : index) : index :=
  match i, j with
  | Fin a, Fin b => Fin (a + b)
  | _, _ => Infinity
  end.

(** [i < n] for an array length [n] *)
Definition index_lt (i : index) (n : nat) : bool :=
  match i with
  | Fin a => a <? n
  | Infinity => false
  end.

(** [Math.min(i, n)] for an array length [n] *)
Definition Math_min (i : index) (n : nat) : nat :=
  match i with
  | Fin a => a `min` n
  | Infinity => n
  end.

(** [Math.ceil(n / t)] for a length [n >= 1] and a count [t >= 0];
    division by zero gives [Infinity]. *)
Definition Math_ceil_div (n t : nat) : index :=
  match t with
  | 0 => Infinity
  | S _ => Fin ((n + t - 1) / t)
  end.

(** [data.slice(i, j)] for [0 <= i] and [0 <= j] *)
Definition slice {A} (data : list A) (i j : nat) : list A :=
  take (j - i) (drop i data).

(** [obj[k] = (obj[k] || 0) + 1] *)
Definition bump (k : string) (obj : gmap string nat) : gmap string nat :=
  <[k := default 0 (obj !! k) + 1]> obj.

(** A count that a number holds exactly: the integers up to 2^53 are
    numbers, and adding two of them is exact as long as the sum is within
    this range too. *)
Definition exact (n : nat) : Prop := (Z.of_nat n ≤ 2 ^ 53)%Z.

(** The names of the members that an object literal inherits from
    [Object.prototype]: [obj[key]] with one of these keys is the inherited
    member, a function or the prototype itself, unless the object has a
    property of its own under that key. *)
Definition Object_prototype : list string :=
  ["constructor"; "__defineGetter__"; "__defineSetter__"; "hasOwnProperty";
   "__lookupGetter__"; "__lookupSetter__"; "isPrototypeOf";
   "propertyIsEnumerable"; "toString"; "valueOf"; "__proto__";
   "toLocaleString"].

(** [Object.values(obj).reduce((a, b) => a + b, 0)] on counters *)
Definition sum_values (obj : gmap string nat) : nat :=
  sum_list (map_to_list obj).*2.

End Js.

(** ** The geo lookup capability and exceptions *)

Module Geo.

(** The object [geoip.lookup] resolves to; an attribute the database does
    not know is the empty string (falsy). *)
Record info := mk_info {
  country : string;
  region : string;
  city : string;
  timezone : string;
}.

(** How the promise returned by [geoip.lookup(ip)] settles: resolved with
    an object or with [null], or rejected. *)
Inductive outcome :=
| Resolved (geo : option info)
| Rejected (reason : string).

(** The lookup threw, or returned no result. *)
Definition failed (o : outcome) : Prop :=
  match o with
  | Resolved (Some _) => False
  | Resolved None => True
  | Rejected _ => True
  end.

End Geo.

Inductive exn :=
| LookupError (reason : string)
| TypeError (what : string).

(** A computation that returns or throws. *)
Inductive result (A : Type) :=
| Ok (a : A)
| Throw (e : exn).
Arguments Ok {A} a.
Arguments Throw {A} e.

Definition bind {A B} (m : result A) (k : A → result B) : result B :=
  match m with
  | Ok a => k a
  | Throw e => Throw e
  end.

Notation "x ←! m ; k" := (bind m (λ x, k))
  (at level 20, m at level 100, k at level 200, right associativity,
   format "x  ←!  m ;  '/' k").

(** [try { body } catch (e) { handler }] *)
Definition try_catch {A} (body : result A) (handler : exn → result A) : result A :=
  match body with
  | Ok a => Ok a
  | Throw e => handler e
  end.

(** [await promise]: the value of a resolved promise; a rejected one throws
    at the [await]. *)
Definition await (o : Geo.outcome) : result (option Geo.info) :=
  match o with
  | Geo.Resolved geo => Ok geo
  | Geo.Rejected reason => Throw (LookupError reason)
  end.

(** ** Country names and percentages, common to both scripts *)

Module Countries.

Definition COUNTRY_NAMES : list (string * string) :=
  [ ("AF", "Afghanistan"); ("AL", "Albania"); ("DZ", "Algeria");
    ("AS", "American Samoa"); ("AD", "Andorra"); ("AO", "Angola");
    ("AI", "Anguilla"); ("AQ", "Antarctica");
    ("AG", "Antigua and Barbuda"); ("AR", "Argentina"); ("AM", "Armenia");
    ("AW", "Aruba"); ("AU", "Australia"); ("AT", "Austria");
    ("AZ", "Azerbaijan"); ("BS", "Bahamas"); ("BH", "Bahrain");
    ("BD", "Bangladesh"); ("BB", "Barbados"); ("BY", "Belarus");
    ("BE", "Belgium"); ("BZ", "Belize"); ("BJ", "Benin");
    ("BM", "Bermuda"); ("BT", "Bhutan"); ("BO", "Bolivia");
    ("BA", "Bosnia and Herzegovina"); ("BW", "Botswana"); ("BR", "Brazil");
    ("BN", "Brunei"); ("BG", "Bulgaria"); ("BF", "Burkina Faso");
    ("BI", "Burundi"); ("KH", "Cambodia"); ("CM", "Cameroon");
    ("CA", "Canada"); ("CV", "Cape Verde"); ("KY", "Cayman Islands");
    ("CF", "Central African Republic"); ("TD", "Chad"); ("CL", "Chile");
    ("CN", "China"); ("CO", "Colombia"); ("KM", "Comoros");
    ("CG", "Congo"); ("CD", "Congo (DRC)"); ("CR", "Costa Rica");
    ("CI", "Ivory Coast"); ("HR", "Croatia"); ("CU", "Cuba");
    ("CY", "Cyprus"); ("CZ", "Czech Republic"); ("DK", "Denmark");
    ("DJ", "Djibouti"); ("DM", "Dominica"); ("DO", "Dominican Republic");
    ("EC", "Ecuador"); ("EG", "Egypt"); ("SV", "El Salvador");
    ("GQ", "Equatorial Guinea"); ("ER", "Eritrea"); ("EE", "Estonia");
    ("ET", "Ethiopia"); ("FJ", "Fiji"); ("FI", "Finland");
    ("FR", "France"); ("GA", "Gabon"); ("GM", "Gambia"); ("GE", "Georgia");
    ("DE", "Germany"); ("GH", "Ghana"); ("GR", "Greece");
    ("GD", "Grenada"); ("GU", "Guam"); ("GT", "Guatemala");
    ("GN", "Guinea"); ("GW", "Guinea-Bissau"); ("GY", "Guyana");
    ("HT", "Haiti"); ("HN", "Honduras"); ("HK", "Hong Kong");
    ("HU", "Hungary"); ("IS", "Iceland"); ("IN", "India");
    ("ID", "Indonesia"); ("IR", "Iran"); ("IQ", "Iraq"); ("IE", "Ireland");
    ("IL", "Israel"); ("IT", "Italy"); ("JM", "Jamaica"); ("JP", "Japan");
    ("JO", "Jordan"); ("KZ", "Kazakhstan"); ("KE", "Kenya");
    ("KI", "Kiribati"); ("KP", "North Korea"); ("KR", "South Korea");
    ("KW", "Kuwait"); ("KG", "Kyrgyzstan"); ("LA", "Laos");
    ("LV", "Latvia"); ("LB", "Lebanon"); ("LS", "Lesotho");
    ("LR", "Liberia"); ("LY", "Libya"); ("LI", "Liechtenstein");
    ("LT", "Lithuania"); ("LU", "Luxembourg"); ("MO", "Macau");
    ("MK", "North Macedonia"); ("MG", "Madagascar"); ("MW", "Malawi");
    ("MY", "Malaysia"); ("MV", "Maldives"); ("ML", "Mali");
    ("MT", "Malta"); ("MH", "Marshall Islands"); ("MR", "Mauritania");
    ("MU", "Mauritius"); ("MX", "Mexico"); ("FM", "Micronesia");
    ("MD", "Moldova"); ("MC", "Monaco"); ("MN", "Mongolia");
    ("ME", "Montenegro"); ("MA", "Morocco"); ("MZ", "Mozambique");
    ("MM", "Myanmar"); ("NA", "Namibia"); ("NR", "Nauru"); ("NP", "Nepal");
    ("NL", "Netherlands"); ("NZ", "New Zealand"); ("NI", "Nicaragua");
    ("NE", "Niger"); ("NG", "Nigeria"); ("NO", "Norway"); ("OM", "Oman");
    ("PK", "Pakistan"); ("PW", "Palau"); ("PS", "Palestine");
    ("PA", "Panama"); ("PG", "Papua New Guinea"); ("PY", "Paraguay");
    ("PE", "Peru"); ("PH", "Philippines"); ("PL", "Poland");
    ("PT", "Portugal"); ("PR", "Puerto Rico"); ("QA", "Qatar");
    ("RO", "Romania"); ("RU", "Russia"); ("RW", "Rwanda");
    ("KN", "Saint Kitts and Nevis"); ("LC", "Saint Lucia");
    ("VC", "Saint Vincent and the Grenadines"); ("WS", "Samoa");
    ("SM", "San Marino"); ("ST", "Sao Tome and Principe");
    ("SA", "Saudi Arabia"); ("SN", "Senegal"); ("RS", "Serbia");
    ("SC", "Seychelles"); ("SL", "Sierra Leone"); ("SG", "Singapore");
    ("SK", "Slovakia"); ("SI", "Slovenia"); ("SB", "Solomon Islands");
    ("SO", "Somalia"); ("ZA", "South Africa"); ("SS", "South Sudan");
    ("ES", "Spain"); ("LK", "Sri Lanka"); ("SD", "Sudan");
    ("SR", "Suriname"); ("SZ", "Eswatini"); ("SE", "Sweden");
    ("CH", "Switzerland"); ("SY", "Syria"); ("TW", "Taiwan");
    ("TJ", "Tajikistan"); ("TZ", "Tanzania"); ("TH", "Thailand");
    ("TL", "Timor-Leste"); ("TG", "Togo"); ("TO", "Tonga");
    ("TT", "Trinidad and Tobago"); ("TN", "Tunisia"); ("TR", "Turkey");
    ("TM", "Turkmenistan"); ("TV", "Tuvalu"); ("UG", "Uganda");
    ("UA", "Ukraine"); ("AE", "United Arab Emirates");
    ("GB", "United Kingdom"); ("US", "United States"); ("UY", "Uruguay");
    ("UZ", "Uzbekistan"); ("VU", "Vanuatu"); ("VA", "Vatican City");
    ("VE", "Venezuela"); ("VN", "Vietnam"); ("YE", "Yemen");
    ("ZM", "Zambia"); ("ZW", "Zimbabwe") ].

(** [COUNTRY_NAMES[code]] *)
Fixpoint lookup_name (table : list (string * string)) (code : string)
    : option string :=
  match table with
  | [] => None
  | (c, n) :: table' => if String.eqb c code then Some n else lookup_name table' code
  end.

(** [COUNTRY_NAMES[code] || code] for a code that is not the name of a
    member of [Object.prototype], as are the codes of the geo database and
    "Unknown", which are all the scripts pass; for any string see
    [getCountryName_value]. *)
Definition getCountryName (code : string) : string :=
  match lookup_name COUNTRY_NAMES code with
  | Some n => if String.eqb n "" then code else n
  | None => code
  end.

(** What [getCountryName] returns for any string: a string, or a member
    inherited from [Object.prototype]. *)
Inductive name_value :=
| Text (s : string)
| Inherited (member : string).

(** [COUNTRY_NAMES[code] || code] for any string: a code that is not
    listed and names a member of [Object.prototype] reads that member,
    which is truthy and is returned in place of the code. *)
Definition getCountryName_value (code : string) : name_value :=
  match lookup_name COUNTRY_NAMES code with
  | Some n => if String.eqb n "" then Text code else Text n
  | None =>
      if bool_decide (code ∈ Js.Object_prototype) then Inherited code
      else Text code
  end.

Record CountryInfo := mk_country {
  code : string;
  name : string;
  count : nat;
  percentage : Js.number;
}.

(** [Math.round((count / total) * 10000) / 100] *)
Definition percentage_of (count total : nat) : Js.number :=
  PrimFloat.div
    (Js.Math_round
       (PrimFloat.mul (PrimFloat.div (Js.of_nat count) (Js.of_nat total))
                      10000%float))
    100%float.

(** The loop [for (const [code, count] of Object.entries(counts))] that
    builds the objects with names and percentages. *)
Definition with_names (counts : gmap string nat) (total : nat)
    : gmap string CountryInfo :=
  map_imap (λ code count,
      Some {| code := code; name := getCountryName code; count := count;
              percentage := percentage_of count total |})
    counts.

(** The comparator [(a, b) => b[1].count - a[1].count]: descending
    counts. *)
Definition by_count_desc (a b : string * CountryInfo) : Prop :=
  count b.2 ≤ count a.2.

Global Instance by_count_desc_dec : RelDecision by_count_desc.
Proof. intros a b. unfold by_count_desc. apply _. Defined.

(** [Object.entries(obj).sort(cmp).reduce(...)]: the entries in sorted
    order (an object whose keys are listed by descending count). Entries
    with equal counts may come in another order than in the script, where
    they keep the insertion order of [obj]. *)
Definition sorted_by_count (obj : gmap string CountryInfo)
    : list (string * CountryInfo) :=
  merge_sort by_count_desc (map_to_list obj).

(** The sum of the [count] fields of the exposed entries *)
Definition total_count (entries : list (string * CountryInfo)) : nat :=
  sum_list ((λ e, count e.2) <$> entries).

End Countries.

(** ** Traffic per minute with countries ([traffic_geo]) *)

Module Traffic.

(** A line of the log as the handler sees it after
    [line.match(LOG_PATTERN)], [parseDateTime] and
    [formatMinuteKey(truncateToMinute(dt))]. *)
Inductive line :=
| NoMatch                       (* the pattern does not match *)
| NoDate                        (* [parseDateTime] returns null *)
| Request (ip minuteKey status : string) (size : option nat).
                                (* [size] is [None] for ['-'] *)

(** The counters of one minute. [bytes] is the sum of the sizes as the
    integer it is; the number that the script holds is that integer as
    long as it is within [Js.exact], and is rounded beyond. *)
Record MinuteBucket := mk_bucket {
  requests : nat;
  bytes : nat;
  countries : gmap string nat;
  status_codes : gmap string nat;
}.

(** [{ requests: 0, bytes: 0, countries: {}, status_codes: {} }] *)
Definition new_bucket : MinuteBucket :=
  {| requests := 0; bytes := 0; countries := ∅; status_codes := ∅ |}.

(** A call of the line handler suspended at [await geoip.lookup(ip)],
    with the variables its continuation uses. *)
Record suspended := mk_suspended {
  s_ip : string;
  s_minuteKey : string;
}.

(** The objects shared by all calls of the handler, the counters of
    [processLogFile] and [main], the handlers in flight, and the calls of
    [geoip.lookup] made so far (oldest first). *)
Record state := mk_state {
  minuteData : gmap string MinuteBucket;
  countryTotals : gmap string nat;
  statusTotals : gmap string nat;
  ipCache : gmap string string;
  lineCount : nat;
  parsedCount : nat;
  totalLines : nat;
  totalParsed : nat;
  awaiting : list suspended;
  lookups : list string;
}.

Definition init : state :=
  {| minuteData := ∅; countryTotals := ∅; statusTotals := ∅; ipCache := ∅;
     lineCount := 0; parsedCount := 0; totalLines := 0; totalParsed := 0;
     awaiting := []; lookups := [] |}.

(** The end of the handler:
    [minuteData[minuteKey].countries[country] = (... || 0) + 1;
     countryTotals[country] = (countryTotals[country] || 0) + 1]. *)
Definition count_country (st : state) (minuteKey country : string)
    : result state :=
  match minuteData st !! minuteKey with
  | None => Throw (TypeError "minuteData[minuteKey] is undefined")
  | Some b =>
      let b' := {| requests := requests b; bytes := bytes b;
                   countries := Js.bump country (countries b);
                   status_codes := status_codes b |} in
      Ok {| minuteData := <[minuteKey := b']> (minuteData st);
            countryTotals := Js.bump country (countryTotals st);
            statusTotals := statusTotals st;
            ipCache := ipCache st;
            lineCount := lineCount st;
            parsedCount := parsedCount st;
            totalLines := totalLines st;
            totalParsed := totalParsed st;
            awaiting := awaiting st;
            lookups := lookups st |}
  end.

(** The handler of ['line'] from its start to its first [await] (on a
    cache miss) or to its end (on a cache hit, or a line that is
    skipped). *)
Definition on_line (st : state) (l : line) : result state :=
  match l with
  | NoMatch | NoDate =>
      Ok {| minuteData := minuteData st;
            countryTotals := countryTotals st;
            statusTotals := statusTotals st;
            ipCache := ipCache st;
            lineCount := S (lineCount st);
            parsedCount := parsedCount st;
            totalLines := totalLines st;
            totalParsed := totalParsed st;
            awaiting := awaiting st;
            lookups := lookups st |}
  | Request ip minuteKey status size =>
      (* if (!minuteData[minuteKey]) minuteData[minuteKey] = {...} *)
      let b := default new_bucket (minuteData st !! minuteKey) in
      let b' := {| requests := S (requests b);
                   bytes := bytes b + default 0 size;
                   countries := countries b;
                   status_codes := Js.bump status (status_codes b) |} in
      let st1 := {| minuteData := <[minuteKey := b']> (minuteData st);
                    countryTotals := countryTotals st;
                    statusTotals := Js.bump status (statusTotals st);
                    ipCache := ipCache st;
                    lineCount := S (lineCount st);
                    parsedCount := S (parsedCount st);
                    totalLines := totalLines st;
                    totalParsed := totalParsed st;
                    awaiting := awaiting st;
                    lookups := lookups st |} in
      (* let country = ipCache[ip]; if (country === undefined) ... *)
      match ipCache st1 !! ip with
      | Some country => count_country st1 minuteKey country
      | None =>
          (* geoip.lookup(ip) is called and the handler suspends *)
          Ok {| minuteData := minuteData st1;
                countryTotals := countryTotals st1;
                statusTotals := statusTotals st1;
                ipCache := ipCache st1;
                lineCount := lineCount st1;
                parsedCount := parsedCount st1;
                totalLines := totalLines st1;
                totalParsed := totalParsed st1;
                awaiting := awaiting st1 ++ [mk_suspended ip minuteKey];
                lookups := lookups st1 ++ [ip] |}
      end
  end.

(** [try { const geo = await ...; country = geo ? geo.country : 'Unknown'; }
     catch (e) { country = 'Unknown'; }] *)
Definition resolve_country (o : Geo.outcome) : result string :=
  try_catch
    (geo ←! await o;
     Ok (match geo with
         | Some g => Geo.country g
         | None => "Unknown"
         end))
    (λ _, Ok "Unknown").

(** The rest of the handler, run when the lookup awaited by the [k]-th
    handler in flight settles. Nothing happens if there is no such
    handler. *)
Definition on_settle (st : state) (k : nat) (o : Geo.outcome) : result state :=
  match awaiting st !! k with
  | None => Ok st
  | Some h =>
      country ←! resolve_country o;
      (* ipCache[ip] = country *)
      let st1 := {| minuteData := minuteData st;
                    countryTotals := countryTotals st;
                    statusTotals := statusTotals st;
                    ipCache := <[s_ip h := country]> (ipCache st);
                    lineCount := lineCount st;
                    parsedCount := parsedCount st;
                    totalLines := totalLines st;
                    totalParsed := totalParsed st;
                    awaiting := delete k (awaiting st);
                    lookups := lookups st |} in
      count_country st1 (s_minuteKey h) country
  end.

(** ['close']: [processLogFile] resolves with its two counters, [main]
    adds them to its totals and goes on to the next file, whose handler
    starts from fresh counters. *)
Definition on_close (st : state) : state :=
  {| minuteData := minuteData st;
     countryTotals := countryTotals st;
     statusTotals := statusTotals st;
     ipCache := ipCache st;
     lineCount := 0;
     parsedCount := 0;
     totalLines := totalLines st + lineCount st;
     totalParsed := totalParsed st + parsedCount st;
     awaiting := awaiting st;
     lookups := lookups st |}.

(** What the event loop runs next. [readline] emits ['line'] for every
    line it has read without waiting for the promise the [async] handler
    returns, so a ['line'] may come while earlier handlers are still
    suspended at their [await]. *)
Inductive event :=
| Line (l : line)
| Settle (k : nat) (o : Geo.outcome)
| Close.

Definition step (st : state) (ev : event) : result state :=
  match ev with
  | Line l => on_line st l
  | Settle k o => on_settle st k o
  | Close => Ok (on_close st)
  end.

Fixpoint run (evs : list event) (st : state) : result state :=
  match evs with
  | [] => Ok st
  | ev :: evs' => st' ←! step st ev; run evs' st'
  end.

(** The schedule in which the lookup of each line settles before the
    next line is handled. *)
Definition serial (input : list (line * Geo.outcome)) : list event :=
  concat ((λ x, [Line x.1; Settle 0 x.2]) <$> input).

(** The schedule of lines that arrive in one chunk: every handler runs
    to its [await] before any lookup settles, and the lookups settle in
    the order of the calls. *)
Definition chunk (input : list (line * Geo.outcome)) : list event :=
  (Line <$> input.*1) ++ (Settle 0 <$> input.*2).

(** The handlers in flight whose record belongs to minute [minuteKey] *)
Definition in_flight (minuteKey : string) (st : state) : nat :=
  length (filter (λ h, s_minuteKey h = minuteKey) (awaiting st)).

(** *** Statistics of [main] *)

(** The order of [Array.prototype.sort] without comparator on strings:
    by code units, which for the ASCII minute keys are the characters
    compared here. *)
Definition string_le (a b : string) : Prop := String.leb a b = true.

Global Instance string_le_dec : RelDecision string_le.
Proof. intros a b. unfold string_le. apply _. Defined.

(** [Object.keys(minuteData).sort()] *)
Definition sortedMinutes (md : gmap string MinuteBucket) : list string :=
  merge_sort string_le (map_to_list md).*1.

(** [minuteData[minute].requests] for a key of [minuteData] (the default
    stands for a key that is missing, which [sortedMinutes] never
    holds). *)
Definition requests_at (md : gmap string MinuteBucket) (minute : string) : nat :=
  requests (default new_bucket (md !! minute)).

(** [sortedMinutes.map(m => minuteData[m].requests)] *)
Definition requestCounts (md : gmap string MinuteBucket) : list nat :=
  requests_at md <$> sortedMinutes md.

(** [requestCounts.reduce((a, b) => a + b, 0)] *)
Definition totalRequests (md : gmap string MinuteBucket) : nat :=
  fold_left Nat.add (requestCounts md) 0.

(** The loop that finds the peak minute, over any list of keys:
    [peakMinute] starts as [sortedMinutes[0]] ([None] for [undefined])
    and [peakRequests] as 0. *)
Definition peak_scan (md : gmap string MinuteBucket) (minutes : list string)
    : option string * nat :=
  fold_left
    (λ '(peakMinute, peakRequests) minute,
      if peakRequests <? requests_at md minute
      then (Some minute, requests_at md minute)
      else (peakMinute, peakRequests))
    minutes (head minutes, 0).

Definition peakMinute (md : gmap string MinuteBucket) : option string :=
  (peak_scan md (sortedMinutes md)).1.

Definition peakRequests (md : gmap string MinuteBucket) : nat :=
  (peak_scan md (sortedMinutes md)).2.

(** [countryTotalsWithNames] *)
Definition countryTotalsWithNames (st : state) : gmap string Countries.CountryInfo :=
  Countries.with_names (countryTotals st) (totalRequests (minuteData st)).

(** [sortedCountryTotals], the [country_totals] of the output *)
Definition sortedCountryTotals (st : state) : list (string * Countries.CountryInfo) :=
  Countries.sorted_by_count (countryTotalsWithNames st).

(** *** Invariants of the run *)

(** At every minute, the requests counted exceed the country counts by
    the number of handlers of that minute still waiting for their
    lookup. *)
Definition balanced (st : state) : Prop :=
  ∀ key,
    match minuteData st !! key with
    | Some b => requests b = Js.sum_values (countries b) + in_flight key st
    | None => in_flight key st = 0
    end.

(** Between two lines of the serial schedule: no handler is in flight,
    no IP was looked up twice, and every IP looked up is cached. *)
Definition settled (st : state) : Prop :=
  awaiting st = []
  ∧ NoDup (lookups st)
  ∧ ∀ ip, ip ∈ lookups st → is_Some (ipCache st !! ip).

End Traffic.

(** ** Geo enrichment of the bot summary ([bot_geo]) *)

Module BotGeo.

Record geo := mk_geo {
  countries : list (string * Countries.CountryInfo);
  top_cities : list (string * nat);
  timezones : gmap string nat;
}.

Record bot := mk_bot {
  count : nat;
  ips : list string;
  user_agents : list string;
  info_urls : list string;
  bot_geo : option geo;   (* [bot.geo], absent in the input *)
}.

(** The four counter objects of one bot *)
Record counts := mk_counts {
  countryCounts : gmap string nat;
  regionCounts : gmap string nat;
  cityCounts : gmap string nat;
  timezoneCounts : gmap string nat;
}.

Definition no_counts : counts :=
  {| countryCounts := ∅; regionCounts := ∅; cityCounts := ∅;
     timezoneCounts := ∅ |}.

(** The counters of [main] *)
Record progress := mk_progress {
  processedIPs : nat;
  failedLookups : nat;
}.

(** The capability: how the [n]-th call of [geoip.lookup], on [ip],
    settles. *)
Definition capability : Type := nat → string → Geo.outcome.

(** [countryCounts['Unknown'] = (... || 0) + 1; failedLookups++] *)
Definition count_unknown (c : counts) (p : progress) : counts * progress :=
  ({| countryCounts := Js.bump "Unknown" (countryCounts c);
      regionCounts := regionCounts c;
      cityCounts := cityCounts c;
      timezoneCounts := timezoneCounts c |},
   {| processedIPs := processedIPs p; failedLookups := S (failedLookups p) |}).

(** The branch [if (geo)] *)
Definition count_geo (c : counts) (g : Geo.info) : counts :=
  (* const country = geo.country || 'Unknown' *)
  let country := if String.eqb (Geo.country g) "" then "Unknown"
                 else Geo.country g in
  {| countryCounts := Js.bump country (countryCounts c);
     regionCounts :=
       if String.eqb (Geo.region g) "" then regionCounts c
       else Js.bump (country +:+ "-" +:+ Geo.region g) (regionCounts c);
     cityCounts :=
       if String.eqb (Geo.city g) "" then cityCounts c
       else Js.bump (Geo.city g +:+ ", " +:+ country) (cityCounts c);
     timezoneCounts :=
       if String.eqb (Geo.timezone g) "" then timezoneCounts c
       else Js.bump (Geo.timezone g) (timezoneCounts c) |}.

(** The body of [for (const ip of ips)]; the lookup is awaited before
    the next IP is taken. *)
Definition lookup_ip (geoip : capability) (acc : counts * progress) (ip : string)
    : result (counts * progress) :=
  let c := acc.1 in
  let p := {| processedIPs := S (processedIPs acc.2);
              failedLookups := failedLookups acc.2 |} in
  try_catch
    (geo ←! await (geoip (processedIPs p) ip);
     Ok (match geo with
         | Some g => (count_geo c g, p)
         | None => count_unknown c p
         end))
    (λ _, Ok (count_unknown c p)).

Fixpoint lookup_ips (geoip : capability) (acc : counts * progress) (ips : list string)
    : result (counts * progress) :=
  match ips with
  | [] => Ok acc
  | ip :: ips' => acc' ←! lookup_ip geoip acc ip; lookup_ips geoip acc' ips'
  end.

(** The comparator [(a, b) => b[1] - a[1]] *)
Definition by_hits_desc (a b : string * nat) : Prop := b.2 ≤ a.2.

Global Instance by_hits_desc_dec : RelDecision by_hits_desc.
Proof. intros a b. unfold by_hits_desc. apply _. Defined.

(** The body of [for (const botName of Object.keys(botSummary))] *)
Definition enrich_bot (geoip : capability) (p : progress) (b : bot)
    : result (bot * progress) :=
  acc ←! lookup_ips geoip (no_counts, p) (ips b);
  let c := acc.1 in
  let totalForBot := length (ips b) in
  let countryPercentages := Countries.with_names (countryCounts c) totalForBot in
  let sortedCountries := Countries.sorted_by_count countryPercentages in
  let sortedCities := take 10 (merge_sort by_hits_desc (map_to_list (cityCounts c))) in
  Ok ({| count := count b; ips := ips b; user_agents := user_agents b;
         info_urls := info_urls b;
         bot_geo := Some {| countries := sortedCountries;
                            top_cities := sortedCities;
                            timezones := timezoneCounts c |} |},
      acc.2).

(** The loop over the bots of [bot_summary], in the order of its keys *)
Fixpoint enrich_bots (geoip : capability) (p : progress)
    (botSummary : list (string * bot)) : result (list (string * bot) * progress) :=
  match botSummary with
  | [] => Ok ([], p)
  | (botName, b) :: rest =>
      r ←! enrich_bot geoip p b;
      rs ←! enrich_bots geoip r.2 rest;
      Ok ((botName, r.1) :: rs.1, rs.2)
  end.

Definition main (geoip : capability) (botSummary : list (string * bot))
    : result (list (string * bot) * progress) :=
  enrich_bots geoip {| processedIPs := 0; failedLookups := 0 |} botSummary.

(** What [main] leaves in one bot. *)
Definition enriched (b b' : bot) : Prop :=
  ips b' = ips b
  ∧ ∃ g, bot_geo b' = Some g
      ∧ Countries.total_count (countries g) = length (ips b')
      ∧ ∀ e, e ∈ countries g →
          Countries.percentage e.2
          = Countries.percentage_of (Countries.count e.2) (length (ips b')).

End BotGeo.

(** ** Downsampling *)

(** The loop of [downsample], shared by the two chart modules, which differ
    only in how a chunk of rows is averaged into one row.

    [for (let i = 0; i < data.length; i += ratio)]: [fuel] bounds the number
    of iterations; [data.length] iterations are enough, as the counter grows
    by at least one each time (see [downsample_loop_windows]). *)
Section DownsampleLoop.
Context {Row : Type} (average : list Row → Row).

Fixpoint downsample_loop (fuel : nat) (data : list Row) (ratio : Js.index)
    (i : Js.index) (result : list Row) : list Row :=
  match fuel with
  | 0 => result
  | S fuel' =>
      match i with
      | Js.Fin i0 =>
          if Js.index_lt i (length data) then
            let chunk :=
              Js.slice data i0 (Js.Math_min (Js.index_add i ratio) (length data)) in
            downsample_loop fuel' data ratio (Js.index_add i ratio)
              (result ++ [average chunk])
          else result
      | Js.Infinity => result
      end
  end.

Definition downsample_with (data : list Row) (targetPoints : nat) : list Row :=
  if decide (length data ≤ targetPoints) then data
  else
    let ratio := Js.Math_ceil_div (length data) targetPoints in
    downsample_loop (length data) data ratio (Js.Fin 0) [].

End DownsampleLoop.

(** [ip-location]: rows of any width, [offset, requests, ...countries, other]. *)
Module IpLocation.

(** The inner loop over [col]: the number of columns is that of the first
    row of the chunk. The loop of [downsample] only passes non-empty
    chunks (see [windows_nonempty]); on an empty chunk [chunk[0].length]
    would raise, and no column is produced here. *)
Definition avgEntry (chunk : list (list Js.number)) : list Js.number :=
  match chunk with
  | [] => []
  | row0 :: _ =>
      (λ col,
        Js.Math_round
          (PrimFloat.div (Js.reduce_sum (λ row, Js.elem row col) chunk)
                         (Js.of_nat (length chunk))))
      <$> seq 0 (length row0)
  end.

Definition downsample (data : list (list Js.number)) (targetPoints : nat)
    : list (list Js.number) :=
  downsample_with avgEntry data targetPoints.

End IpLocation.

(** [bot-vs-browser]: rows are triples [offset, bot, browser]. *)
Module BotVsBrowser.

Definition row : Type := Js.number * Js.number * Js.number.

Definition avgRow (chunk : list row) : row :=
  let avgOffset :=
    Js.Math_round (PrimFloat.div (Js.reduce_sum (λ d, d.1.1) chunk)
                                 (Js.of_nat (length chunk))) in
  let avgBot :=
    Js.Math_round (PrimFloat.div (Js.reduce_sum (λ d, d.1.2) chunk)
                                 (Js.of_nat (length chunk))) in
  let avgBrowser :=
    Js.Math_round (PrimFloat.div (Js.reduce_sum (λ d, d.2) chunk)
                                 (Js.of_nat (length chunk))) in
  (avgOffset, avgBot, avgBrowser).

Definition downsample (data : list row) (targetPoints : nat) : list row :=
  downsample_with avgRow data targetPoints.

End BotVsBrowser.

(** *** The downsampling contract, as the specification words it *)
Module DownsampleSpec.

(** [ceil(len / targetCount)] *)
Definition windowSize (len targetCount : nat) : Js.index :=
  Js.Math_ceil_div len targetCount.

(** Consecutive, non-overlapping windows of [w] rows each; the final
    window may be shorter. *)
Fixpoint windows_upto {A} (fuel w : nat) (rows : list A) : list (list A) :=
  match fuel with
  | 0 => []
  | S fuel' =>
      match rows with
      | [] => []
      | _ :: _ => take w rows :: windows_upto fuel' w (drop w rows)
      end
  end.

Definition windows {A} (w : Js.index) (rows : list A) : list (list A) :=
  match w with
  | Js.Fin w0 => windows_upto (length rows) w0 rows
  | Js.Infinity => match rows with [] => [] | _ :: _ => [rows] end
  end.

(** [mean(xs)] with the sum taken from left to right *)
Definition mean (xs : list Js.number) : Js.number :=
  PrimFloat.div (fold_left PrimFloat.add xs PrimFloat.zero)
                (Js.of_nat (length xs)).

(** [window[*][c]] *)
Definition column (c : nat) (window : list (list Js.number)) : list Js.number :=
  (λ row, Js.elem row c) <$> window.

(** One output row: column [c] is [round(mean(window[*][c]))]. *)
Definition window_row (width : nat) (window : list (list Js.number))
    : list Js.number :=
  (λ c, Js.Math_round (mean (column c window))) <$> seq 0 width.

(** The output row of a window of triples *)
Definition window_triple (window : list (Js.number * Js.number * Js.number))
    : Js.number * Js.number * Js.number :=
  (Js.Math_round (mean ((λ d, d.1.1) <$> window)),
   Js.Math_round (mean ((λ d, d.1.2) <$> window)),
   Js.Math_round (mean ((λ d, d.2) <$> window))).

(** All windows but the last hold exactly [w] rows, and the last one
    between 1 and [w]. *)
Definition window_sizes {A} (w : Js.index) (ws : list (list A)) : Prop :=
  ∀ k win, ws !! k = Some win →
    win ≠ [] ∧
    match w with
    | Js.Fin w0 => length win ≤ w0 ∧ (S k < length ws → length win = w0)
    | Js.Infinity => True
    end.

(** [ceil(a / b)] on natural numbers, [b > 0] *)
Definition ceil_div (a b : nat) : nat := (a + b - 1) / b.

End DownsampleSpec.

(** The series of the windowed-mean law: [[0,10],[1,20],[2,30],[3,40]]. *)
Definition series_2col : list (list Js.number) :=
  [[0; 10]; [1; 20]; [2; 30]; [3; 40]]%float.

Definition series_3col : list BotVsBrowser.row :=
  [(0, 10, 7); (1, 20, 8); (2, 30, 9); (3, 40, 10); (4, 50, 11)]%float.

(** ** Tallies over a run of the traffic script *)

Module Tally.

(** ['line'] events, and those among them that carry a parsed record *)
Definition is_line (ev : Traffic.event) : bool :=
  match ev with
  | Traffic.Line _ => true
  | _ => false
  end.

Definition is_record (ev : Traffic.event) : bool :=
  match ev with
  | Traffic.Line (Traffic.Request _ _ _ _) => true
  | _ => false
  end.

Definition lines_read (evs : list Traffic.event) : nat :=
  length (List.filter is_line evs).

Definition records_read (evs : list Traffic.event) : nat :=
  length (List.filter is_record evs).

(** The IPs of the parsed records among the events *)
Definition record_ips (evs : list Traffic.event) : list string :=
  omap (λ ev, match ev with
              | Traffic.Line (Traffic.Request ip _ _ _) => Some ip
              | _ => None
              end) evs.

(** The minute keys of the parsed records among the events *)
Definition record_minutes (evs : list Traffic.event) : list string :=
  omap (λ ev, match ev with
              | Traffic.Line (Traffic.Request _ minuteKey _ _) => Some minuteKey
              | _ => None
              end) evs.

(** The parsed records of minute [minuteKey] among the events *)
Definition records_at (minuteKey : string) (evs : list Traffic.event) : nat :=
  length (List.filter
            (λ ev, match ev with
                   | Traffic.Line (Traffic.Request _ k _ _) =>
                       bool_decide (k = minuteKey)
                   | _ => false
                   end) evs).

(** The sizes of the parsed records of minute [minuteKey], a record
    without size (['-']) adding nothing *)
Definition sizes_at (minuteKey : string) (evs : list Traffic.event) : list nat :=
  omap (λ ev, match ev with
              | Traffic.Line (Traffic.Request _ k _ size) =>
                  if decide (k = minuteKey) then Some (default 0 size) else None
              | _ => None
              end) evs.

(** [minuteData[minute].bytes], 0 for a minute without bucket *)
Definition bytes_at (md : gmap string Traffic.MinuteBucket) (minute : string)
    : nat :=
  Traffic.bytes (default Traffic.new_bucket (md !! minute)).

(** [obj[k] || 0] *)
Definition count_at (k : string) (obj : gmap string nat) : nat :=
  default 0 (obj !! k).

(** The sum of a quantity of the buckets over all minutes *)
Definition over_minutes (f : Traffic.MinuteBucket → nat)
    (md : gmap string Traffic.MinuteBucket) : nat :=
  sum_list (f <$> (map_to_list md).*2).

(** The status counters: in every bucket they sum to its requests, and
    the run-wide ones sum to the requests of all buckets. *)
Definition status_balanced (st : Traffic.state) : Prop :=
  Js.sum_values (Traffic.statusTotals st)
  = over_minutes Traffic.requests (Traffic.minuteData st)
  ∧ ∀ key b, Traffic.minuteData st !! key = Some b →
      Js.sum_values (Traffic.status_codes b) = Traffic.requests b.

(** The country counters run-wide sum to the requests whose handler has
    finished. *)
Definition countries_balanced (st : Traffic.state) : Prop :=
  Js.sum_values (Traffic.countryTotals st) + length (Traffic.awaiting st)
  = over_minutes Traffic.requests (Traffic.minuteData st).

(** The run-wide counter of a country or of a status code is the sum of
    the counters of that code over the minutes. *)
Definition totals_consistent (st : Traffic.state) : Prop :=
  ∀ c,
    count_at c (Traffic.countryTotals st)
    = over_minutes (λ b, count_at c (Traffic.countries b)) (Traffic.minuteData st)
    ∧ count_at c (Traffic.statusTotals st)
      = over_minutes (λ b, count_at c (Traffic.status_codes b))
          (Traffic.minuteData st).

(** The cache and the calls of the lookup: every handler in flight and
    every cached IP stem from a call, and every IP a call was made for is
    cached or still awaited. *)
Definition cache_accounted (st : Traffic.state) : Prop :=
  (∀ h, h ∈ Traffic.awaiting st → Traffic.s_ip h ∈ Traffic.lookups st)
  ∧ (∀ ip, is_Some (Traffic.ipCache st !! ip) → ip ∈ Traffic.lookups st)
  ∧ (∀ ip, ip ∈ Traffic.lookups st →
       is_Some (Traffic.ipCache st !! ip)
       ∨ ∃ h, h ∈ Traffic.awaiting st ∧ Traffic.s_ip h = ip).

(** Every bucket holds at least one request. *)
Definition buckets_used (st : Traffic.state) : Prop :=
  ∀ key b, Traffic.minuteData st !! key = Some b → 1 ≤ Traffic.requests b.

(** The IPs of [ips] that are not in [seen], each once, in the order of
    their first occurrence, after those of [seen]. *)
Definition first_seen_from (seen ips : list string) : list string :=
  fold_left (λ seen ip, if decide (ip ∈ seen) then seen else seen ++ [ip])
    ips seen.

Definition first_seen (ips : list string) : list string :=
  first_seen_from [] ips.

End Tally.

(** ** The summary written by the traffic script *)

Module Summary.

(** [Math.max(...xs)] on counts; [None] stands for the [-Infinity] of an
    empty list. *)
Definition Math_max (xs : list nat) : option nat :=
  match xs with
  | [] => None
  | x :: xs' => Some (fold_left Nat.max xs' x)
  end.

(** [Math.min(...xs)] on counts; [None] stands for the [Infinity] of an
    empty list. *)
Definition Math_min (xs : list nat) : option nat :=
  match xs with
  | [] => None
  | x :: xs' => Some (fold_left Nat.min xs' x)
  end.

(** [{ code, name, count }] *)
Record NamedCount := mk_named {
  code : string;
  name : string;
  count : nat;
}.

(** One element of [time_series] *)
Record point := mk_point {
  timestamp : string;
  requests : nat;
  bytes : nat;
  countries : gmap string NamedCount;
  status_codes : gmap string nat;
}.

(** [sortedMinutes.map(minute => ...)] *)
Definition timeSeries (md : gmap string Traffic.MinuteBucket) : list point :=
  (λ minute,
    let data := default Traffic.new_bucket (md !! minute) in
    {| timestamp := minute;
       requests := Traffic.requests data;
       bytes := Traffic.bytes data;
       countries :=
         map_imap (λ c n, Some {| code := c;
                                  name := Countries.getCountryName c;
                                  count := n |})
           (Traffic.countries data);
       status_codes := Traffic.status_codes data |})
  <$> Traffic.sortedMinutes md.

(** The [metadata] of the output, without the directory and the date of
    the run. *)
Record metadata := mk_metadata {
  total_lines : nat;
  parsed_lines : nat;
  total_minutes : nat;
  unique_ips : nat;
  start_time : option string;
  end_time : option string;
}.

Record statistics := mk_statistics {
  total_requests : nat;
  avg_requests_per_minute : Js.number;
  max_requests_per_minute : option nat;
  min_requests_per_minute : option nat;
  peak_minute : option string;
  peak_requests : nat;
  status_code_totals : gmap string nat;
  country_totals : list (string * Countries.CountryInfo);
}.

Record exportData := mk_export {
  export_metadata : metadata;
  export_statistics : statistics;
  time_series : list point;
}.

(** The export data that [main] builds from [const sortedMinutes = ...]
    on, when it gets as far as building it; [None] when there is no
    minute. How [main] ends, with the error its spread calls can throw,
    is [finish] below. *)
Definition summarize (st : Traffic.state) : option exportData :=
  let md := Traffic.minuteData st in
  let sortedMinutes := Traffic.sortedMinutes md in
  if decide (length sortedMinutes = 0) then None
  else
    let requestCounts := Traffic.requestCounts md in
    let totalRequests := Traffic.totalRequests md in
    let avgRpm :=
      PrimFloat.div (Js.of_nat totalRequests) (Js.of_nat (length requestCounts)) in
    Some
      {| export_metadata :=
           {| total_lines := Traffic.totalLines st;
              parsed_lines := Traffic.totalParsed st;
              total_minutes := length sortedMinutes;
              unique_ips := size (Traffic.ipCache st);
              start_time := sortedMinutes !! 0;
              end_time := sortedMinutes !! (length sortedMinutes - 1) |};
         export_statistics :=
           {| total_requests := totalRequests;
              avg_requests_per_minute :=
                PrimFloat.div
                  (Js.Math_round (PrimFloat.mul avgRpm 100%float)) 100%float;
              max_requests_per_minute := Math_max requestCounts;
              min_requests_per_minute := Math_min requestCounts;
              peak_minute := Traffic.peakMinute md;
              peak_requests := Traffic.peakRequests md;
              status_code_totals := Traffic.statusTotals st;
              country_totals := Traffic.sortedCountryTotals st |};
         time_series := timeSeries md |}.

(** How [main] ends once the files are read *)
Inductive ending :=
| NoData                   (* "No data found!", [process.exit(1)] *)
| RangeError               (* thrown by a spread call, caught by
                              [main().catch]: [process.exit(1)] *)
| Written (e : exportData) (* the data handed to [JSON.stringify] *).

(** [main] from [const sortedMinutes = ...] to the write.
    [Math.max(...requestCounts)] passes every count as an argument of one
    call, and the engine throws a RangeError when these are more than it
    accepts; [max_arguments] is that limit, which depends on the engine and
    its stack size. [Math.min(...requestCounts)] passes the same number of
    arguments. *)
Definition finish (max_arguments : nat) (st : Traffic.state) : ending :=
  let md := Traffic.minuteData st in
  let sortedMinutes := Traffic.sortedMinutes md in
  if decide (length sortedMinutes = 0) then NoData
  else if decide (max_arguments < length (Traffic.requestCounts md))
  then RangeError
  else
    match summarize st with
    | Some e => Written e
    | None => NoData
    end.

End Summary.

(** ** Totals of the bot enrichment *)

Module BotTotals.

(** The first loop of [main]: [totalIPs += botSummary[botName].ips.length] *)
Definition totalIPs (botSummary : list (string * BotGeo.bot)) : nat :=
  fold_left (λ total x, total + length (BotGeo.ips x.2)) botSummary 0.

(** The IPs of all bots in the order [main] looks them up *)
Definition all_ips (botSummary : list (string * BotGeo.bot)) : list string :=
  concat ((λ x, BotGeo.ips x.2) <$> botSummary).

Global Instance failed_dec (o : Geo.outcome) : Decision (Geo.failed o).
Proof. destruct o as [[g|]|reason]; cbn; apply _. Defined.

(** Among the calls numbered from [first] on, one for each of [ips], those
    that throw or return no result *)
Definition failed_calls (geoip : BotGeo.capability) (first : nat)
    (ips : list string) : nat :=
  length (filter (λ x, Geo.failed (geoip x.1 x.2))
            (zip (seq first (length ips)) ips)).

(** The country an IP is counted under, in the words of the
    specification: the resolved country, or "Unknown" when the lookup
    result is null, lacks a country, or throws. *)
Definition counted_country (o : Geo.outcome) : string :=
  match o with
  | Geo.Resolved (Some g) =>
      if String.eqb (Geo.country g) "" then "Unknown" else Geo.country g
  | Geo.Resolved None => "Unknown"
  | Geo.Rejected _ => "Unknown"
  end.

(** Among the calls numbered from [first] on, one for each of [ips], the
    number of those whose IP is counted under [country] *)
Definition counted_under (geoip : BotGeo.capability) (first : nat)
    (ips : list string) (country : string) : nat :=
  length (filter (λ x, counted_country (geoip x.1 x.2) = country)
            (zip (seq first (length ips)) ips)).

(** The counters of one bot after [looked_up] of its IPs, [failed] of them
    without a result: every IP is counted under one country, under at most
    one region, city and timezone, and the failures under "Unknown". *)
Definition tallied (c : BotGeo.counts) (looked_up failed : nat) : Prop :=
  Js.sum_values (BotGeo.countryCounts c) = looked_up
  ∧ Js.sum_values (BotGeo.regionCounts c) ≤ looked_up
  ∧ Js.sum_values (BotGeo.cityCounts c) ≤ looked_up
  ∧ Js.sum_values (BotGeo.timezoneCounts c) ≤ looked_up
  ∧ failed ≤ Tally.count_at "Unknown" (BotGeo.countryCounts c).

End BotTotals.

(** ** Minute keys *)

Module MinuteKey.

(** What the getters of a [Date] return that [formatMinuteKey] calls *)
Record Date := mk_date {
  getFullYear : nat;
  getMonth : nat;
  getDate : nat;
  getHours : nat;
  getMinutes : nat;
}.

(** [n.toString()] on a non-negative integer *)
Definition toString (n : nat) : string :=
  NilEmpty.string_of_uint (Nat.to_uint n).

(** [s.padStart(targetLength, fill)] with a fill of one character *)
Definition padStart (targetLength : nat) (fill : ascii) (s : string) : string :=
  string_of_list_ascii (replicate (targetLength - String.length s) fill) +:+ s.

(** [const pad = n => n.toString().padStart(2, '0')] *)
Definition pad (n : nat) : string := padStart 2 "0"%char (toString n).

Definition formatMinuteKey (date : Date) : string :=
  toString (getFullYear date) +:+ "-" +:+ pad (getMonth date + 1) +:+ "-"
  +:+ pad (getDate date) +:+ "T" +:+ pad (getHours date) +:+ ":"
  +:+ pad (getMinutes date) +:+ ":00".

(** The ranges of the getters, for a year of four digits *)
Definition valid (d : Date) : Prop :=
  1000 ≤ getFullYear d < 10 * 1000
  ∧ getMonth d ≤ 11
  ∧ 1 ≤ getDate d ≤ 31
  ∧ getHours d ≤ 23
  ∧ getMinutes d ≤ 59.

(** The first comparison that is not [Eq] *)
Definition lex (c1 c2 : comparison) : comparison :=
  match c1 with
  | Eq => c2
  | Lt => Lt
  | Gt => Gt
  end.

(** The order of the minutes in time *)
Definition chronological (d1 d2 : Date) : comparison :=
  lex (Nat.compare (getFullYear d1) (getFullYear d2))
    (lex (Nat.compare (getMonth d1) (getMonth d2))
      (lex (Nat.compare (getDate d1) (getDate d2))
        (lex (Nat.compare (getHours d1) (getHours d2))
             (Nat.compare (getMinutes d1) (getMinutes d2))))).

(** The decimal digit [d] as a character, and numbers written with two
    and with four digits *)
Definition digit (d : nat) : ascii := ascii_of_nat (48 + d).

Definition two (n : nat) : string :=
  String (digit (n / 10)) (String (digit (n mod 10)) "").

Definition four (n : nat) : string :=
  String (digit (n / 1000))
    (String (digit (n / 100 mod 10))
      (String (digit (n / 10 mod 10)) (String (digit (n mod 10)) ""))).

End MinuteKey.

(** ** The series of the two charts *)

Module BotVsBrowserChart.

(** What [renderBotVsBrowser] hands to the chart: the timestamps passed to
    [new Date] for the labels, and the two series. *)
Record series := mk_series {
  labels : list Js.number;
  botData : list Js.number;
  browserData : list Js.number;
}.

(** [(data.m.start + d[0] * 60) * 1000] *)
Definition timestamp (start offset : Js.number) : Js.number :=
  PrimFloat.mul (PrimFloat.add start (PrimFloat.mul offset 60%float)) 1000%float.

Definition chart_series (start : Js.number) (d : list BotVsBrowser.row) : series :=
  let sampledData := BotVsBrowser.downsample d 500 in
  {| labels := (λ d, timestamp start d.1.1) <$> sampledData;
     botData := (λ d, d.1.2) <$> sampledData;
     browserData := (λ d, d.2) <$> sampledData |}.

End BotVsBrowserChart.

Module IpChart.

Definition COUNTRY_COLORS : list string :=
  ["rgba(59, 130, 246, 0.8)";
   "rgba(239, 68, 68, 0.8)";
   "rgba(34, 197, 94, 0.8)";
   "rgba(168, 85, 247, 0.8)";
   "rgba(249, 115, 22, 0.8)";
   "rgba(236, 72, 153, 0.8)";
   "rgba(20, 184, 166, 0.8)";
   "rgba(234, 179, 8, 0.8)";
   "rgba(99, 102, 241, 0.8)";
   "rgba(6, 182, 212, 0.8)";
   "rgba(156, 163, 175, 0.6)"].

(** The fields of [TrafficSlimData] that the chart reads *)
Record TrafficSlimData := mk_data {
  start : Js.number;                  (* [m.start] *)
  countries : gmap string string;
  top : list string;
  d : list (list Js.number);
}.

(** A dataset of the chart; a point is [None] where the row has no such
    column ([undefined]). *)
Record dataset := mk_dataset {
  label : string;
  data : list (option Js.number);
  borderColor : string;
  backgroundColor : string;
}.

Record chart := mk_chart {
  labels : list Js.number;
  datasets : list dataset;
}.

(** [s.replace(pat, rep)] with a string as pattern: the first occurrence
    of [pat] is replaced. *)
Definition replace (s pat rep : string) : string :=
  match String.index 0 pat s with
  | Some n =>
      substring 0 n s +:+ rep
      +:+ substring (n + String.length pat)
            (String.length s - (n + String.length pat)) s
  | None => s
  end.

(** [data.countries[code] || code] *)
Definition country_label (countries : gmap string string) (code : string)
    : string :=
  match countries !! code with
  | Some n => if String.eqb n "" then code else n
  | None => code
  end.

(** The callback of [data.top.map((code, i) => ...)]. From index 11 on
    [COUNTRY_COLORS[i]] is [undefined], and the call of [replace] on it
    throws. *)
Definition country_dataset (countries : gmap string string)
    (sampledData : list (list Js.number)) (i : nat) (code : string)
    : result dataset :=
  match COUNTRY_COLORS !! i with
  | None => Throw (TypeError "COUNTRY_COLORS[i] is undefined")
  | Some color =>
      Ok {| label := country_label countries code;
            data := (λ d, d !! (2 + i)) <$> sampledData;
            borderColor := color;
            backgroundColor := replace color "0.8" "0.1" |}
  end.

(** [data.top.map(...)] from index [i] on; the first callback that throws
    ends it. *)
Fixpoint country_datasets (countries : gmap string string)
    (sampledData : list (list Js.number)) (i : nat) (codes : list string)
    : result (list dataset) :=
  match codes with
  | [] => Ok []
  | code :: codes' =>
      ds ←! country_dataset countries sampledData i code;
      rest ←! country_datasets countries sampledData (S i) codes';
      Ok (ds :: rest)
  end.

(** The dataset pushed last: [d[d.length - 1]] of every row. *)
Definition other_dataset (sampledData : list (list Js.number)) : result dataset :=
  match COUNTRY_COLORS !! 10 with
  | None => Throw (TypeError "COUNTRY_COLORS[10] is undefined")
  | Some color =>
      Ok {| label := "Other";
            data := (λ d, last d) <$> sampledData;
            borderColor := color;
            backgroundColor := replace color "0.6" "0.1" |}
  end.

(** The part of [renderIpLocation] between the parsed response and
    [new Chart]: the labels (the timestamps passed to [new Date]) and the
    datasets. *)
Definition chart_data (data : TrafficSlimData) : result chart :=
  let sampledData := IpLocation.downsample (d data) 500 in
  let labels :=
    (λ d, BotVsBrowserChart.timestamp (start data) (Js.elem d 0))
    <$> sampledData in
  datasets ←! country_datasets (countries data) sampledData 0 (top data);
  other ←! other_dataset sampledData;
  Ok {| labels := labels; datasets := datasets ++ [other] |}.

End IpChart.

(** ** The table of bots (Vue component) *)

Module BotTable.

Inductive sort_key :=
| ByName
| ByCount.

Global Instance sort_key_eq_dec : EqDecision sort_key.
Proof. solve_decision. Defined.

Record BotRow := mk_row {
  name : string;
  count : nat;
  ipCount : nat;
  userAgentCount : nat;
  infoUrls : list string;
  topCountries : list Countries.CountryInfo;
}.

(** The comparator [(a, b) => b.count - a.count] *)
Definition by_count_desc (a b : Countries.CountryInfo) : Prop :=
  Countries.count b ≤ Countries.count a.

Global Instance by_count_desc_dec : RelDecision by_count_desc.
Proof. intros a b. unfold by_count_desc. apply _. Defined.

(** [Object.values(bot.geo?.countries || {})]: a bot without [geo] has
    no countries. *)
Definition countries_of (bot : BotGeo.bot) : list Countries.CountryInfo :=
  match BotGeo.bot_geo bot with
  | Some g => (BotGeo.countries g).*2
  | None => []
  end.

(** The callback of [Object.entries(data.value.bot_summary).map] *)
Definition row (entry : string * BotGeo.bot) : BotRow :=
  let countries := countries_of entry.2 in
  {| name := entry.1;
     count := BotGeo.count entry.2;
     ipCount := length (BotGeo.ips entry.2);
     userAgentCount := length (BotGeo.user_agents entry.2);
     infoUrls := BotGeo.info_urls entry.2;
     topCountries := take 5 (merge_sort by_count_desc countries) |}.

(** [rows]: no row before the data is loaded; [bot_summary] is given by
    its entries, in the order of the object. *)
Definition rows (data : option (list (string * BotGeo.bot))) : list BotRow :=
  match data with
  | None => []
  | Some bot_summary => row <$> bot_summary
  end.

(** The refs [searchQuery], [sortKey] and [sortAsc] *)
Record view := mk_view {
  searchQuery : string;
  sortKey : sort_key;
  sortAsc : bool;
}.

Definition initial : view :=
  {| searchQuery := ""; sortKey := ByCount; sortAsc := false |}.

Definition toggleSort (key : sort_key) (v : view) : view :=
  if decide (sortKey v = key)
  then {| searchQuery := searchQuery v; sortKey := sortKey v;
          sortAsc := negb (sortAsc v) |}
  else {| searchQuery := searchQuery v; sortKey := key;
          sortAsc := bool_decide (key = ByName) |}.

(** [filteredRows] over the string operations of the host:
    [s.toLowerCase()], [s.includes(q)] and [a.localeCompare(b)]. *)
Section FilteredRows.
Context (toLowerCase : string → string) (includes : string → string → bool)
  (localeCompare : string → string → Z).

(** The comparator of the sort does not put [a] after [b]: its result
    is not positive. *)
Definition row_le (v : view) (a b : BotRow) : Prop :=
  match sortKey v, sortAsc v with
  | ByName, true => (localeCompare (name a) (name b) ≤ 0)%Z
  | ByName, false => (localeCompare (name b) (name a) ≤ 0)%Z
  | ByCount, true => count a ≤ count b
  | ByCount, false => count b ≤ count a
  end.

Global Instance row_le_dec (v : view) : RelDecision (row_le v).
Proof.
  intros a b. unfold row_le. destruct (sortKey v), (sortAsc v); apply _.
Defined.

(** [row.name.toLowerCase().includes(query)] *)
Definition matches (query : string) (r : BotRow) : bool :=
  includes (toLowerCase (name r)) query.

Definition filteredRows (v : view) (rows : list BotRow) : list BotRow :=
  let result :=
    if String.eqb (searchQuery v) "" then rows
    else
      let query := toLowerCase (searchQuery v) in
      List.filter (matches query) rows in
  merge_sort (row_le v) result.

End FilteredRows.

(** [[0-9A-Fa-f]] *)
Definition is_hex (c : ascii) : bool :=
  let n := nat_of_ascii c in
  (48 <=? n) && (n <=? 57) || (65 <=? n) && (n <=? 70)
  || (97 <=? n) && (n <=? 102).

(** The characters an escape sequence is made of *)
Definition escape_char (c : ascii) : bool :=
  Ascii.eqb c "\" || Ascii.eqb c "x" || is_hex c.

(** [url.replace(/\\x[0-9A-Fa-f]{2}/g, '')]: the text is scanned from
    the left; where a backslash, an [x] and two hexadecimal digits stand,
    the four characters are dropped and the scan goes on after them;
    elsewhere one character is kept. *)
Fixpoint cleanUrl (url : string) : string :=
  match url with
  | EmptyString => EmptyString
  | String c tl =>
      match tl with
      | String x (String h1 (String h2 rest)) =>
          if Ascii.eqb c "\" && Ascii.eqb x "x" && is_hex h1 && is_hex h2
          then cleanUrl rest
          else String c (cleanUrl tl)
      | _ => String c (cleanUrl tl)
      end
  end.

End BotTable.

(** ** Sample inputs *)

Module Sample.

Definition us : Geo.info :=
  Geo.mk_info "US" "CA" "San Jose" "America/Los_Angeles".
Definition br : Geo.info :=
  Geo.mk_info "BR" "SP" "Sao Paulo" "America/Sao_Paulo".

Definition minute0 : string := "2025-01-01T00:00:00".
Definition minute1 : string := "2025-01-01T00:01:00".

(** Two requests from 1.2.3.4 and one from 5.6.7.8 *)
Definition first_hit : Traffic.line :=
  Traffic.Request "1.2.3.4" minute0 "200" (Some 512).
Definition second_hit : Traffic.line :=
  Traffic.Request "1.2.3.4" minute0 "304" None.
Definition other_hit : Traffic.line :=
  Traffic.Request "5.6.7.8" minute1 "404" (Some 162).

(** The state the handler leaves when both lookups of 1.2.3.4 fail and
    the run is over. *)
Definition after_failures : Traffic.state :=
  match Traffic.run
          (Traffic.serial [(first_hit, Geo.Rejected "ENOENT");
                           (second_hit, Geo.Resolved None)])
          Traffic.init with
  | Ok st => st
  | Throw _ => Traffic.init
  end.

(** The state after the first handler has reached its [await]. *)
Definition one_in_flight : Traffic.state :=
  match Traffic.run [Traffic.Line first_hit] Traffic.init with
  | Ok st => st
  | Throw _ => Traffic.init
  end.

(** The state after the two first handlers have reached their [await]. *)
Definition two_in_flight : Traffic.state :=
  match Traffic.run [Traffic.Line first_hit; Traffic.Line other_hit]
          Traffic.init with
  | Ok st => st
  | Throw _ => Traffic.init
  end.

(** The buckets of the tie-break law: counts [{"T0":5,"T1":9,"T2":9}]. *)
Definition bucket_of (n : nat) : Traffic.MinuteBucket :=
  {| Traffic.requests := n; Traffic.bytes := 0;
     Traffic.countries := ∅; Traffic.status_codes := ∅ |}.

Definition tied_minutes : gmap string Traffic.MinuteBucket :=
  <["T2" := bucket_of 9]> (<["T0" := bucket_of 5]> (<["T1" := bucket_of 9]> ∅)).

(** Three requests in one minute, from IPs that resolve to the countries
    A, B and C: counts [{A:1,B:1,C:1}], total 3. *)
Definition in_country (c : string) : Geo.outcome :=
  Geo.Resolved (Some (Geo.mk_info c "" "" "")).

Definition three_countries : Traffic.state :=
  match Traffic.run
          (Traffic.serial
             [(Traffic.Request "10.0.0.1" minute0 "200" (Some 10), in_country "A");
              (Traffic.Request "10.0.0.2" minute0 "200" (Some 10), in_country "B");
              (Traffic.Request "10.0.0.3" minute0 "200" None, in_country "C")])
          Traffic.init with
  | Ok st => st
  | Throw _ => Traffic.init
  end.

Definition entry_B : string * Countries.CountryInfo :=
  ("B", {| Countries.code := "B"; Countries.name := "B"; Countries.count := 1;
           Countries.percentage := 33.33%float |}).

(** A capability that knows 1.2.3.4 and 5.6.7.8, has no entry for
    10.0.0.1 and fails on anything else. *)
Definition geoip : BotGeo.capability :=
  λ _ ip,
    if String.eqb ip "1.2.3.4" then Geo.Resolved (Some us)
    else if String.eqb ip "5.6.7.8" then Geo.Resolved (Some br)
    else if String.eqb ip "10.0.0.1" then Geo.Resolved None
    else Geo.Rejected "lookup failed".

Definition a_bot : BotGeo.bot :=
  {| BotGeo.count := 12;
     BotGeo.ips := ["1.2.3.4"; "5.6.7.8"; "10.0.0.1"; "bogus"; "1.2.3.4"];
     BotGeo.user_agents := ["Mozilla/5.0 (compatible; SampleBot/1.0)"];
     BotGeo.info_urls := [];
     BotGeo.bot_geo := None |}.

(** A slim traffic file with two top countries and two minutes *)
Definition slim_data : IpChart.TrafficSlimData :=
  {| IpChart.start := 1700000000%float;
     IpChart.countries := {["BR" := "Brazil"]};
     IpChart.top := ["BR"; "VN"];
     IpChart.d := [[0; 10; 6; 3; 1]; [1; 20; 12; 5; 3]]%float |}.

End Sample.

(* ===================================================================== *)
(** * Properties *)
(* ===================================================================== *)

(** ** Rounding *)

(** [Math.round] on the values the properties below meet: ties go up, also
    below zero, and the sign of a zero result is kept. *)
Example Math_round_values :
  (Js.Math_round 0.5 = 1
   ∧ Js.Math_round 2.5 = 3
   ∧ Js.Math_round (-2.5) = -2
   ∧ Js.Math_round (-0.25) = -0
   ∧ Js.Math_round 0.25 = 0
   ∧ Js.Math_round 15 = 15
   ∧ Js.Math_round (1 / 3 * 10000) = 3333
   ∧ Js.Math_round PrimFloat.nan = PrimFloat.nan
   ∧ Js.Math_round PrimFloat.infinity = PrimFloat.infinity)%float.
Proof. repeat split; vm_compute; reflexivity. Qed.

(** ** Downsampling *)

Section DownsampleFacts.
Context {Row : Type} (average : list Row → Row).
Import DownsampleSpec.

Lemma windows_upto_fuel (fuel fuel' w : nat) (rows : list Row) :
  0 < w → length rows ≤ fuel → length rows ≤ fuel' →
  windows_upto fuel w rows = windows_upto fuel' w rows.
Proof.
  intros Hw. revert fuel' rows.
  induction fuel as [|fuel IH]; intros fuel' rows Hlen Hlen'.
  - destruct rows; simpl in *; [by destruct fuel' | lia].
  - destruct rows as [|r rows]; [by destruct fuel'|].
    destruct fuel' as [|fuel']; [simpl in Hlen'; lia|].
    cbn [windows_upto]. f_equal.
    apply IH; rewrite length_drop; cbn [length] in *; lia.
Qed.

(** The loop appends the averages of the windows of what is left of
    [data] from index [i] on. *)
Lemma downsample_loop_windows (fuel w i : nat) (data result : list Row) :
  0 < w → length data - i ≤ fuel →
  downsample_loop average fuel data (Js.Fin w) (Js.Fin i) result
  = result ++ (average <$> windows (Js.Fin w) (drop i data)).
Proof.
  intros Hw. revert i result.
  induction fuel as [|fuel IH]; intros i result Hfuel.
  - rewrite drop_ge by lia. by rewrite app_nil_r.
  - cbn [downsample_loop Js.index_lt Js.index_add Js.Math_min].
    destruct (i <? length data) eqn:Hi.
    + apply Nat.ltb_lt in Hi.
      rewrite IH by lia.
      rewrite <- app_assoc. f_equal.
      unfold windows.
      destruct (drop i data) as [|r rest] eqn:Hdrop.
      { apply (f_equal length) in Hdrop. rewrite length_drop in Hdrop.
        simpl in Hdrop. lia. }
      rewrite <- Hdrop.
      assert (Hlen : length (drop i data) = S (length rest)).
      { by rewrite Hdrop. }
      rewrite Hlen. cbn [windows_upto]. rewrite Hdrop at 1.
      rewrite fmap_cons. cbn [app]. f_equal.
      * f_equal. unfold Js.slice.
        rewrite length_drop in Hlen.
        destruct (decide (i + w ≤ length data)).
        -- rewrite Nat.min_l by lia. f_equal. lia.
        -- rewrite Nat.min_r by lia.
           rewrite !take_ge; [done | rewrite length_drop; lia
                             | rewrite length_drop; lia].
      * f_equal. rewrite drop_drop.
        apply windows_upto_fuel; [done | done |].
        rewrite !length_drop in *. lia.
    + apply Nat.ltb_ge in Hi. rewrite drop_ge by lia.
      by rewrite app_nil_r.
Qed.

Lemma downsample_loop_infinity (fuel : nat) (data : list Row) :
  data ≠ [] →
  downsample_loop average (S fuel) data Js.Infinity (Js.Fin 0) []
  = [average data].
Proof.
  intros Hne. cbn [downsample_loop Js.index_lt Js.index_add Js.Math_min].
  destruct data as [|r data]; [done|].
  replace (0 <? length (r :: data)) with true
    by (symmetry; apply Nat.ltb_lt; simpl; lia).
  unfold Js.slice. rewrite drop_0, Nat.sub_0_r, firstn_all.
  by destruct fuel.
Qed.

Lemma Math_ceil_div_pos (n t : nat) :
  t < n → match Js.Math_ceil_div n t with
          | Js.Fin w => 0 < w
          | Js.Infinity => True
          end.
Proof.
  intros Hlt. unfold Js.Math_ceil_div. destruct t as [|t]; [done|].
  apply Nat.div_str_pos. lia.
Qed.

(** Above the target, [downsample_with] averages the windows. *)
Lemma downsample_with_windows (data : list Row) (targetPoints : nat) :
  targetPoints < length data →
  downsample_with average data targetPoints
  = average <$> windows (windowSize (length data) targetPoints) data.
Proof.
  intros Hlt. unfold downsample_with, windowSize.
  rewrite decide_False by lia.
  pose proof (Math_ceil_div_pos _ _ Hlt) as Hpos.
  destruct (Js.Math_ceil_div (length data) targetPoints) as [w|].
  - rewrite downsample_loop_windows by lia.
    by rewrite drop_0.
  - destruct data as [|r data]; [simpl in Hlt; lia|].
    cbn [length]. by rewrite downsample_loop_infinity.
Qed.

End DownsampleFacts.

Section WindowFacts.
Context {A : Type}.
Import DownsampleSpec.
Implicit Types rows : list A.

Lemma windows_upto_concat (fuel w : nat) rows :
  0 < w → length rows ≤ fuel → concat (windows_upto fuel w rows) = rows.
Proof.
  intros Hw. revert rows.
  induction fuel as [|fuel IH]; intros rows Hlen.
  - destruct rows; simpl in *; [done | lia].
  - destruct rows as [|r rows]; [done|].
    cbn [windows_upto concat]. rewrite IH.
    + apply take_drop.
    + rewrite length_drop. cbn [length] in *. lia.
Qed.

Lemma windows_upto_length (fuel w : nat) rows :
  0 < w → length rows ≤ fuel →
  length (windows_upto fuel w rows) = ceil_div (length rows) w.
Proof.
  intros Hw. unfold ceil_div. revert rows.
  induction fuel as [|fuel IH]; intros rows Hlen.
  - destruct rows; simpl in *; [|lia].
    symmetry. apply Nat.div_small. lia.
  - destruct rows as [|r rows].
    { simpl. symmetry. apply Nat.div_small. lia. }
    cbn [windows_upto]. cbn [length] in *.
    rewrite IH by (rewrite length_drop; cbn [length]; lia).
    rewrite length_drop. cbn [length].
    destruct (decide (S (length rows) ≤ w)) as [Hle|Hgt].
    + replace (S (length rows) - w) with 0 by lia.
      rewrite Nat.div_small by lia.
      apply (Nat.div_unique _ _ 1 (S (length rows) - 1)); lia.
    + replace (S (length rows) + w - 1)
        with ((S (length rows) - w + w - 1) + 1 * w) by lia.
      rewrite Nat.div_add by lia. lia.
Qed.

Lemma windows_upto_sizes (fuel w : nat) rows :
  0 < w → length rows ≤ fuel →
  window_sizes (Js.Fin w) (windows_upto fuel w rows).
Proof.
  intros Hw. revert rows.
  induction fuel as [|fuel IH]; intros rows Hlen k win Hk.
  - done.
  - destruct rows as [|r rows]; [done|].
    cbn [windows_upto] in Hk |- *.
    destruct k as [|k].
    + injection Hk as <-. split; [|split].
      * destruct w; [lia | done].
      * rewrite length_take. lia.
      * intros Hmore. cbn [length] in Hmore.
        rewrite length_take.
        destruct (decide (w ≤ length (r :: rows))) as [|Hshort]; [lia|].
        rewrite drop_ge in Hmore by lia.
        destruct fuel; simpl in Hmore; lia.
    + cbn [lookup list_lookup] in Hk.
      assert (Hdrop : length (drop w (r :: rows)) ≤ fuel).
      { rewrite length_drop. cbn [length] in *. lia. }
      destruct (IH _ Hdrop k win Hk) as (Hne & Hle & Hfull).
      split; [done|]. split; [done|].
      intros Hmore. apply Hfull. cbn [length] in Hmore. lia.
Qed.

Lemma windows_concat (w : Js.index) rows :
  match w with Js.Fin w0 => 0 < w0 | Js.Infinity => True end →
  concat (windows w rows) = rows.
Proof.
  destruct w as [w0|]; intros Hw; unfold windows.
  - by apply windows_upto_concat.
  - destruct rows; [done|]. cbn [concat]. by rewrite app_nil_r.
Qed.

Lemma windows_sizes (w : Js.index) rows :
  match w with Js.Fin w0 => 0 < w0 | Js.Infinity => True end →
  window_sizes w (windows w rows).
Proof.
  destruct w as [w0|]; intros Hw; unfold windows.
  - by apply windows_upto_sizes.
  - intros k win Hk. destruct rows as [|r rows]; [done|].
    destruct k; [|done]. injection Hk as <-. done.
Qed.

Lemma windows_nonempty (w : Js.index) rows win :
  match w with Js.Fin w0 => 0 < w0 | Js.Infinity => True end →
  win ∈ windows w rows → win ≠ [].
Proof.
  intros Hw [k Hk]%list_elem_of_lookup.
  by destruct (windows_sizes w rows Hw k win Hk).
Qed.

Lemma windows_subset (w : Js.index) rows win x :
  match w with Js.Fin w0 => 0 < w0 | Js.Infinity => True end →
  win ∈ windows w rows → x ∈ win → x ∈ rows.
Proof.
  intros Hw Hwin Hx. rewrite <- (windows_concat w rows Hw).
  apply list_elem_of_In, in_concat. exists win.
  split; by apply list_elem_of_In.
Qed.

(** [ceil(n / ceil(n / t)) <= t] *)
Lemma ceil_div_ceil_div_le (n t : nat) :
  0 < t → ceil_div n (ceil_div n t) ≤ t.
Proof.
  intros Ht. unfold ceil_div.
  destruct (decide (n = 0)) as [->|Hn].
  { rewrite (Nat.div_small (0 + t - 1)) by lia. simpl. lia. }
  set (w := (n + t - 1) / t).
  assert (Hw : n ≤ t * w).
  { pose proof (Nat.div_mod (n + t - 1) t ltac:(lia)) as Hdm.
    pose proof (Nat.mod_upper_bound (n + t - 1) t ltac:(lia)).
    fold w in Hdm. lia. }
  assert (0 < w) by (destruct w; lia).
  apply Nat.lt_succ_r. apply Nat.Div0.div_lt_upper_bound. nia.
Qed.

End WindowFacts.

Section RowFacts.
Import DownsampleSpec.

Lemma reduce_sum_mean {A} (f : A → Js.number) (chunk : list A) :
  PrimFloat.div (Js.reduce_sum f chunk) (Js.of_nat (length chunk))
  = mean (f <$> chunk).
Proof.
  unfold mean, Js.reduce_sum. rewrite length_fmap. f_equal.
  generalize PrimFloat.zero.
  induction chunk as [|x chunk IH]; intros acc; [done|].
  cbn [fold_left fmap list_fmap]. apply IH.
Qed.

(** On a non-empty chunk whose first row has [width] columns, the inner
    loop of [ip-location] yields the rounded column means. *)
Lemma avgEntry_window_row (width : nat) (chunk : list (list Js.number)) :
  chunk ≠ [] → Forall (λ row, length row = width) chunk →
  IpLocation.avgEntry chunk = window_row width chunk.
Proof.
  intros Hne Hwidth. destruct chunk as [|row0 chunk]; [done|].
  apply Forall_cons in Hwidth as [Hrow0 _].
  unfold IpLocation.avgEntry, window_row, column. rewrite Hrow0.
  apply list_fmap_ext. intros _ col _.
  by rewrite reduce_sum_mean.
Qed.

Lemma avgRow_window_triple (chunk : list BotVsBrowser.row) :
  BotVsBrowser.avgRow chunk = window_triple chunk.
Proof.
  unfold BotVsBrowser.avgRow, window_triple.
  by rewrite !reduce_sum_mean.
Qed.

Lemma windowSize_pos (len targetCount : nat) :
  targetCount < len →
  match windowSize len targetCount with
  | Js.Fin w0 => 0 < w0
  | Js.Infinity => True
  end.
Proof. apply Math_ceil_div_pos. Qed.

End RowFacts.

(** C2. Above the target, [downsample] cuts the rows into consecutive
    windows of [ceil(len / targetCount)] rows (the windows concatenate to
    the input, each holds at least one row, all but the last hold the full
    window size) and emits for each window one row whose every column,
    column 0 included, is the rounded mean of that column over the window.
    This holds for the generic version on rows of one width and for the
    three-column version; on [[0,10],[1,20],[2,30],[3,40]] with target 2
    the result is [[1,15],[3,35]]. *)
Theorem downsample_windowed_mean :
  (∀ (data : list (list Js.number)) (targetCount width : nat),
      targetCount < length data →
      Forall (λ row, length row = width) data →
      let w := DownsampleSpec.windowSize (length data) targetCount in
      let ws := DownsampleSpec.windows w data in
      concat ws = data
      ∧ DownsampleSpec.window_sizes w ws
      ∧ IpLocation.downsample data targetCount
        = DownsampleSpec.window_row width <$> ws)
  ∧ (∀ (data : list BotVsBrowser.row) (targetCount : nat),
      targetCount < length data →
      let w := DownsampleSpec.windowSize (length data) targetCount in
      let ws := DownsampleSpec.windows w data in
      concat ws = data
      ∧ DownsampleSpec.window_sizes w ws
      ∧ BotVsBrowser.downsample data targetCount
        = DownsampleSpec.window_triple <$> ws)
  ∧ IpLocation.downsample series_2col 2 = [[1; 15]; [3; 35]]%float.
Proof.
  split; [|split].
  - intros data targetCount width Hlt Hwidth w ws.
    pose proof (windowSize_pos _ _ Hlt) as Hpos. fold w in Hpos.
    split; [by apply windows_concat|].
    split; [by apply windows_sizes|].
    unfold IpLocation.downsample.
    rewrite downsample_with_windows by done. fold w ws.
    apply list_fmap_ext. intros _ win Hwin%list_elem_of_lookup_2.
    apply avgEntry_window_row.
    + by eapply windows_nonempty.
    + apply Forall_forall. intros row Hrow.
      rewrite Forall_forall in Hwidth. apply Hwidth.
      by eapply windows_subset.
  - intros data targetCount Hlt w ws.
    pose proof (windowSize_pos _ _ Hlt) as Hpos. fold w in Hpos.
    split; [by apply windows_concat|].
    split; [by apply windows_sizes|].
    unfold BotVsBrowser.downsample.
    rewrite downsample_with_windows by done. fold w ws.
    apply list_fmap_ext. intros _ win _. apply avgRow_window_triple.
  - vm_compute. reflexivity.
Qed.

Lemma downsample_windowed_mean_witness :
  (2 < length series_2col ∧ Forall (λ row, length row = 2) series_2col)
  ∧ (2 < length series_3col)
  ∧ IpLocation.downsample series_2col 2
    = DownsampleSpec.window_row 2
      <$> DownsampleSpec.windows (Js.Fin 2) series_2col
  ∧ BotVsBrowser.downsample series_3col 2
    = DownsampleSpec.window_triple
      <$> DownsampleSpec.windows (Js.Fin 3) series_3col.
Proof.
  assert (H2 : 2 < length series_2col) by (vm_compute; lia).
  assert (Hw : Forall (λ row, length row = 2) series_2col)
    by (repeat constructor).
  assert (H3 : 2 < length series_3col) by (vm_compute; lia).
  split; [done|]. split; [done|]. split.
  - exact (proj2 (proj2 (proj1 downsample_windowed_mean series_2col 2 2 H2 Hw))).
  - exact (proj2 (proj2
      (proj1 (proj2 downsample_windowed_mean) series_3col 2 H3))).
Defined.

(** C3. At or below the target, [downsample] returns the very rows it was
    given; the model is a pure function of its arguments, as the code never
    writes to [data] or to one of its rows. *)
Theorem downsample_identity :
  (∀ (data : list (list Js.number)) (targetCount : nat),
      length data ≤ targetCount →
      IpLocation.downsample data targetCount = data)
  ∧ (∀ (data : list BotVsBrowser.row) (targetCount : nat),
      length data ≤ targetCount →
      BotVsBrowser.downsample data targetCount = data).
Proof.
  split; intros data targetCount Hle;
    unfold IpLocation.downsample, BotVsBrowser.downsample, downsample_with;
    by rewrite decide_True.
Qed.

Lemma downsample_identity_witness :
  (length series_2col ≤ 4 ∧ IpLocation.downsample series_2col 4 = series_2col)
  ∧ (length series_3col ≤ 500
     ∧ BotVsBrowser.downsample series_3col 500 = series_3col).
Proof.
  assert (H2 : length series_2col ≤ 4) by (vm_compute; lia).
  assert (H3 : length series_3col ≤ 500) by (vm_compute; lia).
  split; (split; [done|]).
  - exact (proj1 downsample_identity series_2col 4 H2).
  - exact (proj2 downsample_identity series_3col 500 H3).
Defined.

(** C4. For a positive target below the number of rows, the output of
    [downsample] has exactly [ceil(len / windowSize)] rows, where
    [windowSize = ceil(len / targetCount)], and that is at most
    [targetCount]; this holds whatever the rows are (any row type and any
    way of averaging a chunk, so any width), in particular for the two
    chart modules. *)
Theorem downsample_length_bound :
  (∀ (Row : Type) (average : list Row → Row) (data : list Row)
     (targetCount : nat),
      data ≠ [] → 0 < targetCount → targetCount < length data →
      let windowSize := DownsampleSpec.ceil_div (length data) targetCount in
      length (downsample_with average data targetCount)
      = DownsampleSpec.ceil_div (length data) windowSize
      ∧ length (downsample_with average data targetCount) ≤ targetCount)
  ∧ (∀ (data : list (list Js.number)) (targetCount : nat),
      data ≠ [] → 0 < targetCount → targetCount < length data →
      let windowSize := DownsampleSpec.ceil_div (length data) targetCount in
      length (IpLocation.downsample data targetCount)
      = DownsampleSpec.ceil_div (length data) windowSize
      ∧ length (IpLocation.downsample data targetCount) ≤ targetCount)
  ∧ (∀ (data : list BotVsBrowser.row) (targetCount : nat),
      data ≠ [] → 0 < targetCount → targetCount < length data →
      let windowSize := DownsampleSpec.ceil_div (length data) targetCount in
      length (BotVsBrowser.downsample data targetCount)
      = DownsampleSpec.ceil_div (length data) windowSize
      ∧ length (BotVsBrowser.downsample data targetCount) ≤ targetCount).
Proof.
  assert (Hgen : ∀ (Row : Type) (average : list Row → Row) (data : list Row)
     (targetCount : nat),
      data ≠ [] → 0 < targetCount → targetCount < length data →
      let windowSize := DownsampleSpec.ceil_div (length data) targetCount in
      length (downsample_with average data targetCount)
      = DownsampleSpec.ceil_div (length data) windowSize
      ∧ length (downsample_with average data targetCount) ≤ targetCount).
  { intros Row average data targetCount _ Hpos Hlt windowSize.
    rewrite downsample_with_windows by done.
    rewrite length_fmap.
    unfold DownsampleSpec.windowSize, Js.Math_ceil_div.
    destruct targetCount as [|t]; [lia|].
    cbn [DownsampleSpec.windows].
    assert (Hw : 0 < windowSize).
    { unfold windowSize, DownsampleSpec.ceil_div. apply Nat.div_str_pos. lia. }
    fold (DownsampleSpec.ceil_div (length data) (S t)). fold windowSize.
    rewrite windows_upto_length by done.
    split; [done|]. by apply ceil_div_ceil_div_le. }
  split; [exact Hgen|]. split; intros data targetCount; apply Hgen.
Qed.

Lemma downsample_length_bound_witness :
  (series_3col ≠ [] ∧ 0 < 2 ∧ 2 < length series_3col)
  ∧ length (BotVsBrowser.downsample series_3col 2)
    = DownsampleSpec.ceil_div (length series_3col)
        (DownsampleSpec.ceil_div (length series_3col) 2)
  ∧ length (BotVsBrowser.downsample series_3col 2) ≤ 2.
Proof.
  assert (Hne : series_3col ≠ []) by done.
  assert (Hpos : 0 < 2) by lia.
  assert (Hlt : 2 < length series_3col) by (vm_compute; lia).
  split; [done|].
  exact (proj2 (proj2 downsample_length_bound) series_3col 2 Hne Hpos Hlt).
Defined.

(** ** Counters *)

Section CounterFacts.

Lemma sum_list_Permutation (l1 l2 : list nat) :
  l1 ≡ₚ l2 → sum_list l1 = sum_list l2.
Proof. induction 1; simpl; lia. Qed.

Lemma sum_values_empty : Js.sum_values ∅ = 0.
Proof. unfold Js.sum_values. by rewrite map_to_list_empty. Qed.

Lemma sum_values_insert_fresh (k : string) (v : nat) (obj : gmap string nat) :
  obj !! k = None → Js.sum_values (<[k := v]> obj) = v + Js.sum_values obj.
Proof.
  intros Hk. unfold Js.sum_values.
  rewrite (sum_list_Permutation _ (((k, v) :: map_to_list obj).*2)).
  - done.
  - apply fmap_Permutation. by apply map_to_list_insert.
Qed.

Lemma sum_values_insert (k : string) (v v' : nat) (obj : gmap string nat) :
  obj !! k = Some v →
  Js.sum_values (<[k := v']> obj) + v = v' + Js.sum_values obj.
Proof.
  intros Hk.
  rewrite <- (insert_delete_eq obj k v') .
  rewrite <- (insert_id obj k v Hk) at 2.
  rewrite <- (insert_delete_eq obj k v).
  rewrite !sum_values_insert_fresh by apply lookup_delete_eq. lia.
Qed.

(** Every increment adds one to the sum of the counters. *)
Lemma sum_values_bump (k : string) (obj : gmap string nat) :
  Js.sum_values (Js.bump k obj) = S (Js.sum_values obj).
Proof.
  unfold Js.bump. destruct (obj !! k) as [v|] eqn:Hk; simpl.
  - pose proof (sum_values_insert k v (v + 1) obj Hk). lia.
  - by rewrite sum_values_insert_fresh.
Qed.

Lemma bump_lookup (k : string) (obj : gmap string nat) :
  Js.bump k obj !! k = Some (default 0 (obj !! k) + 1).
Proof. unfold Js.bump. apply lookup_insert_eq. Qed.

Lemma bump_lookup_ne (k k' : string) (obj : gmap string nat) :
  k ≠ k' → Js.bump k obj !! k' = obj !! k'.
Proof. intros Hne. unfold Js.bump. by apply lookup_insert_ne. Qed.

End CounterFacts.

(** ** Traffic aggregation *)

Section TrafficFacts.
Import Traffic.

Lemma balanced_init : balanced init.
Proof. intros key. unfold init, in_flight. simpl. by rewrite lookup_empty. Qed.

Lemma in_flight_snoc (key : string) (l : list suspended) (h : suspended) :
  length (filter (λ h, s_minuteKey h = key) (l ++ [h]))
  = length (filter (λ h, s_minuteKey h = key) l)
    + (if decide (s_minuteKey h = key) then 1 else 0).
Proof.
  rewrite filter_app, length_app. f_equal.
  rewrite filter_cons, filter_nil. by case_decide.
Qed.

Lemma in_flight_delete (key : string) (l : list suspended) (k : nat)
    (h : suspended) :
  l !! k = Some h →
  length (filter (λ h, s_minuteKey h = key) l)
  = length (filter (λ h, s_minuteKey h = key) (delete k l))
    + (if decide (s_minuteKey h = key) then 1 else 0).
Proof.
  intros Hk. rewrite delete_take_drop.
  rewrite <- (take_drop_middle l k h Hk) at 1.
  rewrite !filter_app, !length_app, filter_cons.
  case_decide; simpl; lia.
Qed.

Lemma count_country_ok (st : state) (key country : string) (b : MinuteBucket) :
  minuteData st !! key = Some b →
  ∃ st', count_country st key country = Ok st'
    ∧ minuteData st'
      = <[key := {| requests := requests b; bytes := bytes b;
                    countries := Js.bump country (countries b);
                    status_codes := status_codes b |}]> (minuteData st)
    ∧ countryTotals st' = Js.bump country (countryTotals st)
    ∧ ipCache st' = ipCache st
    ∧ awaiting st' = awaiting st
    ∧ lookups st' = lookups st.
Proof.
  intros Hb. unfold count_country. rewrite Hb. eexists. by repeat split.
Qed.

(** A step from a balanced state never throws and leaves the state
    balanced. *)
Lemma step_balanced (st : state) (ev : event) :
  balanced st → ∃ st', step st ev = Ok st' ∧ balanced st'.
Proof.
  intros Hbal. destruct ev as [l|k o|]; cbn [step].
  - destruct l as [| |ip key status size]; cbn [on_line].
    1,2: eexists; split; [done|]; exact Hbal.
    set (b := default new_bucket (minuteData st !! key)).
    assert (Hb : requests b = Js.sum_values (countries b) + in_flight key st).
    { specialize (Hbal key). unfold b.
      destruct (minuteData st !! key); simpl; [done|].
      rewrite sum_values_empty. lia. }
    cbn [ipCache minuteData].
    destruct (ipCache st !! ip) as [country|] eqn:Hcache.
    + match goal with |- ∃ _, count_country ?s _ _ = _ ∧ _ =>
        destruct (count_country_ok s key country _ (lookup_insert_eq _ _ _))
          as (st' & Hst' & Hmd & _ & _ & Haw & _)
      end.
      exists st'. split; [done|]. intros key'. specialize (Hbal key').
      unfold in_flight in *. rewrite Hmd, Haw. cbn [minuteData awaiting].
      rewrite insert_insert_eq.
      destruct (decide (key = key')) as [<-|Hne].
      * rewrite lookup_insert_eq. cbn [requests countries].
        rewrite sum_values_bump. lia.
      * by rewrite lookup_insert_ne.
    + eexists. split; [done|]. intros key'. specialize (Hbal key').
      unfold in_flight in *. cbn [minuteData awaiting].
      rewrite in_flight_snoc. cbn [s_minuteKey].
      destruct (decide (key = key')) as [<-|Hne].
      * rewrite lookup_insert_eq. cbn [requests countries]. lia.
      * rewrite lookup_insert_ne by done.
        destruct (minuteData st !! key'); lia.
  - unfold on_settle.
    destruct (awaiting st !! k) as [h|] eqn:Hk;
      [|eexists; split; [done | exact Hbal]].
    assert (Hres : ∃ country, resolve_country o = Ok country).
    { unfold resolve_country. destruct o as [[g|]|reason]; simpl; eauto. }
    destruct Hres as [country ->]. cbn [bind].
    pose proof (Hbal (s_minuteKey h)) as Hh.
    pose proof (in_flight_delete (s_minuteKey h) _ _ _ Hk) as Hdel.
    rewrite decide_True in Hdel by done.
    destruct (minuteData st !! s_minuteKey h) as [b|] eqn:Hb;
      [|unfold in_flight in Hh; lia].
    match goal with |- ∃ _, count_country ?s _ _ = _ ∧ _ =>
      destruct (count_country_ok s (s_minuteKey h) country b Hb)
        as (st' & Hst' & Hmd & _ & _ & Haw & _)
    end.
    exists st'. split; [done|]. intros key'. specialize (Hbal key').
    unfold in_flight in *. rewrite Hmd, Haw. cbn [minuteData awaiting].
    pose proof (in_flight_delete key' _ _ _ Hk) as Hdel'.
    destruct (decide (s_minuteKey h = key')) as [<-|Hne].
    + rewrite lookup_insert_eq. cbn [requests countries].
      rewrite sum_values_bump. rewrite Hb in Hbal. lia.
    + rewrite lookup_insert_ne by done.
      destruct (minuteData st !! key'); lia.
  - eexists. split; [done|]. exact Hbal.
Qed.

Lemma run_balanced (evs : list event) (st : state) :
  balanced st → ∃ st', run evs st = Ok st' ∧ balanced st'.
Proof.
  revert st. induction evs as [|ev evs IH]; intros st Hbal; cbn [run].
  - by exists st.
  - destruct (step_balanced st ev Hbal) as (st1 & -> & Hbal1).
    cbn [bind]. by apply IH.
Qed.

Lemma run_app (evs1 evs2 : list event) (st : state) :
  run (evs1 ++ evs2) st = (st' ←! run evs1 st; run evs2 st').
Proof.
  revert st. induction evs1 as [|ev evs1 IH]; intros st; [done|].
  cbn [run app]. destruct (step st ev); cbn [bind]; [apply IH | done].
Qed.

End TrafficFacts.

(** C1. Whatever the order in which lines arrive and lookups settle, in
    every state the run reaches, the requests of a minute bucket are the sum
    of its country counts plus the number of handlers of that minute whose
    lookup has not settled yet; so once every line is fully aggregated (no
    handler is in flight) the country counts of every bucket sum to its
    request count. *)
Theorem bucket_sum_invariant (evs : list Traffic.event) (st : Traffic.state)
    (key : string) (b : Traffic.MinuteBucket) :
  Traffic.run evs Traffic.init = Ok st →
  Traffic.minuteData st !! key = Some b →
  Traffic.requests b
  = Js.sum_values (Traffic.countries b) + Traffic.in_flight key st
  ∧ (Traffic.awaiting st = [] →
     Js.sum_values (Traffic.countries b) = Traffic.requests b).
Proof.
  intros Hrun Hb.
  destruct (run_balanced evs _ balanced_init) as (st' & Hrun' & Hbal).
  rewrite Hrun in Hrun'. injection Hrun' as <-.
  specialize (Hbal key). rewrite Hb in Hbal.
  split; [done|].
  intros Hdone. unfold Traffic.in_flight in Hbal. rewrite Hdone in Hbal.
  simpl in Hbal. lia.
Qed.

Lemma bucket_sum_invariant_witness :
  ∃ b,
    Traffic.run
      (Traffic.serial [(Sample.first_hit, Geo.Rejected "ENOENT");
                       (Sample.second_hit, Geo.Resolved None)])
      Traffic.init = Ok Sample.after_failures
    ∧ Traffic.minuteData Sample.after_failures !! Sample.minute0 = Some b
    ∧ Traffic.awaiting Sample.after_failures = []
    ∧ Js.sum_values (Traffic.countries b) = Traffic.requests b.
Proof.
  assert (Hrun : Traffic.run
            (Traffic.serial [(Sample.first_hit, Geo.Rejected "ENOENT");
                             (Sample.second_hit, Geo.Resolved None)])
            Traffic.init = Ok Sample.after_failures) by (vm_compute; reflexivity).
  destruct (Traffic.minuteData Sample.after_failures !! Sample.minute0)
    as [b|] eqn:Hb; [|vm_compute in Hb; discriminate].
  exists b. split; [exact Hrun|]. split; [reflexivity|].
  split; [reflexivity|].
  exact (proj2 (bucket_sum_invariant _ _ _ _ Hrun Hb) eq_refl).
Defined.

(** ** The cache and the order of the handlers *)

Section CacheFacts.
Import Traffic.

(** A request whose IP is cached is counted at once: the lookup is not
    called and no handler is left in flight. *)
Lemma on_line_cache_hit (st : state) (ip key status country : string)
    (size : option nat) :
  ipCache st !! ip = Some country →
  ∃ st', on_line st (Request ip key status size) = Ok st'
    ∧ lookups st' = lookups st
    ∧ awaiting st' = awaiting st
    ∧ ipCache st' = ipCache st
    ∧ countryTotals st' = Js.bump country (countryTotals st).
Proof.
  intros Hhit. cbn [on_line ipCache]. rewrite Hhit.
  match goal with |- context [count_country ?s key country] =>
    destruct (count_country_ok s key country _ (lookup_insert_eq _ _ _))
      as (st' & -> & _ & Hct & Hc & Haw & Hl)
  end.
  exists st'. by repeat split.
Qed.

Lemma serial_step_settled (st : state) (l : line) (o : Geo.outcome) :
  settled st →
  ∃ st', run [Line l; Settle 0 o] st = Ok st' ∧ settled st'.
Proof.
  intros (Haw & Hnd & Hcached). cbn [run step].
  destruct l as [| |ip key status size]; cbn [on_line bind].
  1,2: unfold on_settle; cbn [awaiting]; rewrite Haw; cbn [lookup list_lookup bind];
       eexists; (split; [done|]); by repeat split.
  cbn [ipCache].
  destruct (ipCache st !! ip) as [country|] eqn:Hcache.
  - match goal with |- context [count_country ?s key country] =>
      destruct (count_country_ok s key country _ (lookup_insert_eq _ _ _))
        as (st1 & -> & _ & _ & Hc1 & Haw1 & Hl1)
    end.
    cbn [bind]. unfold on_settle. rewrite Haw1. cbn [awaiting].
    rewrite Haw. cbn [lookup list_lookup bind].
    exists st1. split; [done|]. unfold settled.
    rewrite Haw1, Hl1, Hc1. cbn [awaiting lookups ipCache]. done.
  - cbn [bind]. unfold on_settle. cbn [awaiting]. rewrite Haw.
    cbn [app lookup list_lookup].
    assert (Hres : ∃ country, resolve_country o = Ok country).
    { unfold resolve_country. destruct o as [[g|]|reason]; simpl; eauto. }
    destruct Hres as [country ->]. cbn [bind s_ip s_minuteKey].
    match goal with |- context [count_country ?s key country] =>
      destruct (count_country_ok s key country _ (lookup_insert_eq _ _ _))
        as (st1 & -> & _ & _ & Hc1 & Haw1 & Hl1)
    end.
    exists st1. split; [done|]. unfold settled.
    rewrite Haw1, Hl1, Hc1. cbn [awaiting lookups ipCache delete list_delete].
    split; [done|]. split.
    + apply NoDup_app. split; [done|]. split; [|apply NoDup_singleton].
      intros ip' Hin ->%list_elem_of_singleton.
      destruct (Hcached _ Hin) as [? Hsome]. congruence.
    + intros ip' [Hin| ->%list_elem_of_singleton]%elem_of_app.
      * destruct (decide (ip = ip')) as [<-|Hne].
        -- rewrite lookup_insert_eq. eauto.
        -- rewrite lookup_insert_ne by done. by apply Hcached.
      * rewrite lookup_insert_eq. eauto.
Qed.

(** When every lookup settles before the next line is handled, no IP is
    looked up twice. *)
Lemma serial_lookups_once (input : list (line * Geo.outcome)) :
  ∃ st, run (serial input) init = Ok st ∧ NoDup (lookups st).
Proof.
  assert (Hgen : ∀ st, settled st →
            ∃ st', run (serial input) st = Ok st' ∧ settled st').
  { induction input as [|[l o] input IH]; intros st Hst.
    - by exists st.
    - unfold serial. cbn [fmap list_fmap concat fst snd].
      fold (serial input). rewrite run_app.
      destruct (serial_step_settled st l o Hst) as (st1 & -> & Hst1).
      cbn [bind]. by apply IH. }
  destruct (Hgen init) as (st & Hrun & _ & Hnd & _).
  - unfold settled, init. cbn. split; [done|]. split; [constructor|].
    intros ip Hin. by apply elem_of_nil in Hin.
  - by exists st.
Qed.

End CacheFacts.

(** C5. The handler checks the cache before it calls the lookup, and on
    a hit does not call it; but the result is stored only after the
    [await], and ['line'] events do not wait for it. Two lines of one
    chunk that carry the same uncached IP both miss the cache: the lookup
    is called twice for 1.2.3.4, and the second result replaces the first
    in the cache. *)
Theorem lookup_repeated_for_one_ip :
  ∃ st3 st4,
    Traffic.run
      [Traffic.Line Sample.first_hit; Traffic.Line Sample.second_hit;
       Traffic.Settle 0 (Geo.Resolved (Some Sample.us))]
      Traffic.init = Ok st3
    ∧ Traffic.ipCache st3 !! "1.2.3.4" = Some "US"
    ∧ Traffic.run
        (Traffic.chunk [(Sample.first_hit, Geo.Resolved (Some Sample.us));
                        (Sample.second_hit, Geo.Resolved (Some Sample.br))])
        Traffic.init = Ok st4
    ∧ Traffic.lookups st4 = ["1.2.3.4"; "1.2.3.4"]
    ∧ Traffic.ipCache st4 !! "1.2.3.4" = Some "BR"
    ∧ Traffic.awaiting st4 = [].
Proof.
  eexists. eexists.
  split; [vm_compute; reflexivity|].
  split; [vm_compute; reflexivity|].
  split; [vm_compute; reflexivity|].
  split; [vm_compute; reflexivity|].
  split; vm_compute; reflexivity.
Qed.

(** C9. The handler of the second line starts while the handler of the
    first is suspended at its [await]: after two ['line'] events both
    requests are counted, no country is, and two handlers are in flight. *)
Theorem second_line_starts_before_first_completes :
  Traffic.run [Traffic.Line Sample.first_hit; Traffic.Line Sample.other_hit]
    Traffic.init = Ok Sample.two_in_flight
  ∧ Traffic.awaiting Sample.two_in_flight
    = [Traffic.mk_suspended "1.2.3.4" Sample.minute0;
       Traffic.mk_suspended "5.6.7.8" Sample.minute1]
  ∧ Traffic.parsedCount Sample.two_in_flight = 2
  ∧ Traffic.countryTotals Sample.two_in_flight = ∅
  ∧ Traffic.requests_at (Traffic.minuteData Sample.two_in_flight) Sample.minute0 = 1
  ∧ Traffic.requests_at (Traffic.minuteData Sample.two_in_flight) Sample.minute1 = 1.
Proof.
  split; [vm_compute; reflexivity|].
  split; [vm_compute; reflexivity|].
  split; [vm_compute; reflexivity|].
  split; [vm_compute; reflexivity|].
  split; vm_compute; reflexivity.
Qed.

(** ** Names, percentages and sorted entries *)

Section CountryFacts.
Import Countries.

Lemma with_names_lookup (counts : gmap string nat) (total : nat) (c : string) :
  with_names counts total !! c
  = (λ n, {| code := c; name := getCountryName c; count := n;
             percentage := percentage_of n total |}) <$> counts !! c.
Proof.
  unfold with_names. rewrite map_lookup_imap.
  by destruct (counts !! c).
Qed.

(** The entries with names carry the counts of the counters. *)
Lemma with_names_total (counts : gmap string nat) (total : nat) :
  total_count (map_to_list (with_names counts total)) = Js.sum_values counts.
Proof.
  unfold with_names.
  induction counts as [|c n counts Hc _ IH] using map_first_key_ind.
  - rewrite map_imap_empty, map_to_list_empty. by rewrite sum_values_empty.
  - erewrite map_imap_insert_Some by reflexivity.
    rewrite sum_values_insert_fresh by done.
    unfold total_count in *.
    erewrite sum_list_Permutation.
    2: { apply fmap_Permutation, map_to_list_insert.
         rewrite map_lookup_imap, Hc. done. }
    rewrite fmap_cons. cbn [sum_list sum_list_with snd count]. by rewrite IH.
Qed.

Lemma sorted_by_count_Permutation (obj : gmap string CountryInfo) :
  sorted_by_count obj ≡ₚ map_to_list obj.
Proof. apply merge_sort_Permutation. Qed.

(** Sorting keeps the entries: the exposed counts sum to the counters. *)
Lemma sorted_with_names_total (counts : gmap string nat) (total : nat) :
  total_count (sorted_by_count (with_names counts total))
  = Js.sum_values counts.
Proof.
  rewrite <- (with_names_total counts total). unfold total_count.
  apply sum_list_Permutation, fmap_Permutation, sorted_by_count_Permutation.
Qed.

(** Every exposed entry is the entry computed for its own counter. *)
Lemma sorted_with_names_entry (counts : gmap string nat) (total : nat)
    (e : string * CountryInfo) :
  e ∈ sorted_by_count (with_names counts total) ↔
  ∃ n, counts !! e.1 = Some n
       ∧ e.2 = {| code := e.1; name := getCountryName e.1; count := n;
                  percentage := percentage_of n total |}.
Proof.
  rewrite sorted_by_count_Permutation, elem_of_map_to_list'.
  rewrite with_names_lookup.
  destruct (counts !! e.1) as [n|]; simpl; split.
  - intros [= <-]. eauto.
  - intros (n' & [= <-] & ->). done.
  - done.
  - intros (? & ? & _). done.
Qed.

End CountryFacts.

(** ** Bot geo enrichment *)

Section BotFacts.
Import BotGeo.

Lemma count_geo_sum (c : counts) (g : Geo.info) :
  Js.sum_values (countryCounts (count_geo c g))
  = S (Js.sum_values (countryCounts c)).
Proof. unfold count_geo. cbn [countryCounts]. apply sum_values_bump. Qed.

(** One IP: the lookup is called once, nothing is thrown, and exactly
    one country counter grows by one. *)
Lemma lookup_ip_ok (geoip : capability) (acc : counts * progress) (ip : string) :
  ∃ acc', lookup_ip geoip acc ip = Ok acc'
    ∧ Js.sum_values (countryCounts acc'.1)
      = S (Js.sum_values (countryCounts acc.1))
    ∧ processedIPs acc'.2 = S (processedIPs acc.2).
Proof.
  unfold lookup_ip. cbn [processedIPs].
  destruct (geoip (S (processedIPs acc.2)) ip) as [[g|]|reason];
    cbn [await bind try_catch]; eexists; (split; [done|]);
    cbn [fst snd count_unknown countryCounts processedIPs];
    (split; [|done]).
  - apply count_geo_sum.
  - apply sum_values_bump.
  - apply sum_values_bump.
Qed.

Lemma lookup_ips_ok (geoip : capability) (ips : list string)
    (acc : counts * progress) :
  ∃ acc', lookup_ips geoip acc ips = Ok acc'
    ∧ Js.sum_values (countryCounts acc'.1)
      = Js.sum_values (countryCounts acc.1) + length ips
    ∧ processedIPs acc'.2 = processedIPs acc.2 + length ips.
Proof.
  revert acc. induction ips as [|ip ips IH]; intros acc; cbn [lookup_ips].
  - exists acc. cbn [length]. by rewrite !Nat.add_0_r.
  - destruct (lookup_ip_ok geoip acc ip) as (acc1 & -> & Hsum1 & Hp1).
    cbn [bind]. destruct (IH acc1) as (acc' & -> & Hsum & Hp).
    exists acc'. cbn [length]. split; [done|]. lia.
Qed.

Lemma enrich_bot_ok (geoip : capability) (p : progress) (b : bot) :
  ∃ b' p', enrich_bot geoip p b = Ok (b', p') ∧ enriched b b'.
Proof.
  unfold enrich_bot.
  destruct (lookup_ips_ok geoip (ips b) (no_counts, p))
    as (acc & -> & Hsum & _).
  cbn [bind]. eexists _, _. split; [done|].
  split; [done|]. eexists. split; [done|]. cbn [countries ips].
  split.
  - rewrite sorted_with_names_total, Hsum. cbn [fst no_counts countryCounts].
    by rewrite sum_values_empty.
  - intros e (n & _ & ->)%sorted_with_names_entry. done.
Qed.

Lemma enrich_bots_ok (geoip : capability) (botSummary : list (string * bot))
    (p : progress) :
  ∃ out p', enrich_bots geoip p botSummary = Ok (out, p')
    ∧ Forall2 (λ x y, x.1 = y.1 ∧ enriched x.2 y.2) botSummary out.
Proof.
  revert p. induction botSummary as [|[botName b] rest IH]; intros p;
    cbn [enrich_bots].
  - eexists _, _. split; [done|]. constructor.
  - destruct (enrich_bot_ok geoip p b) as (b' & p1 & -> & Hb).
    cbn [bind snd fst].
    destruct (IH p1) as (out & p' & -> & Hout).
    cbn [bind snd fst]. eexists _, _. split; [done|].
    constructor; [done | done].
Qed.

Lemma main_returns (geoip : capability)
    (botSummary : list (string * bot)) :
  ∃ r, main geoip botSummary = Ok r.
Proof.
  unfold main.
  destruct (enrich_bots_ok geoip botSummary
              {| processedIPs := 0; failedLookups := 0 |})
    as (out & p & Hmain & _).
  eauto.
Qed.

(** One IP: the counter that grows is the one of the country the IP is
    counted under. *)
Lemma lookup_ip_country (geoip : capability) (acc acc' : counts * progress)
    (ip : string) :
  lookup_ip geoip acc ip = Ok acc' →
  countryCounts acc'.1
  = Js.bump (BotTotals.counted_country (geoip (S (processedIPs acc.2)) ip))
      (countryCounts acc.1).
Proof.
  unfold lookup_ip. cbn [processedIPs].
  destruct (geoip (S (processedIPs acc.2)) ip) as [[g|]|reason];
    cbn [await bind try_catch]; by intros [= <-].
Qed.

Lemma counted_under_cons (geoip : capability) (first : nat) (ip : string)
    (rest : list string) (c : string) :
  BotTotals.counted_under geoip first (ip :: rest) c
  = (if decide (BotTotals.counted_country (geoip first ip) = c) then 1 else 0)
    + BotTotals.counted_under geoip (S first) rest c.
Proof.
  unfold BotTotals.counted_under. cbn [length seq zip zip_with].
  rewrite filter_cons. cbn [fst snd]. by case_decide.
Qed.

Lemma lookup_ips_country (geoip : capability) (ips : list string)
    (acc acc' : counts * progress) (c : string) :
  lookup_ips geoip acc ips = Ok acc' →
  default 0 (countryCounts acc'.1 !! c)
  = default 0 (countryCounts acc.1 !! c)
    + BotTotals.counted_under geoip (S (processedIPs acc.2)) ips c.
Proof.
  revert acc. induction ips as [|ip ips IH]; intros acc; cbn [lookup_ips].
  - intros [= <-]. unfold BotTotals.counted_under. cbn. lia.
  - destruct (lookup_ip_ok geoip acc ip) as (acc1 & Hacc1 & _ & Hp1).
    rewrite Hacc1. cbn [bind]. intros Hrest.
    rewrite (IH _ Hrest), Hp1, counted_under_cons.
    rewrite (lookup_ip_country _ _ _ _ Hacc1).
    case_decide as Hc.
    + rewrite <- Hc, bump_lookup. simpl. lia.
    + rewrite bump_lookup_ne by done. lia.
Qed.

(** One bot: every exposed entry holds the number of the bot's IPs counted
    under its code, and every country an IP is counted under is exposed. *)
Lemma enrich_bot_country (geoip : capability) (p p' : progress) (b b' : bot) :
  enrich_bot geoip p b = Ok (b', p') →
  processedIPs p' = processedIPs p + length (ips b)
  ∧ ∃ g, bot_geo b' = Some g
      ∧ (∀ e, e ∈ countries g →
           Countries.code e.2 = e.1
           ∧ Countries.count e.2
             = BotTotals.counted_under geoip (S (processedIPs p)) (ips b) e.1)
      ∧ (∀ c, 0 < BotTotals.counted_under geoip (S (processedIPs p)) (ips b) c →
           ∃ e, e ∈ countries g ∧ e.1 = c).
Proof.
  unfold enrich_bot.
  destruct (lookup_ips geoip (no_counts, p) (ips b)) as [acc|] eqn:Hacc;
    cbn [bind]; [|done].
  intros [= <- <-].
  destruct (lookup_ips_ok geoip (ips b) (no_counts, p)) as (acc1 & Hok & _ & Hp).
  rewrite Hacc in Hok. injection Hok as <-. cbn [fst snd] in Hp.
  split; [exact Hp|].
  assert (Hkey : ∀ c, default 0 (countryCounts acc.1 !! c)
                      = BotTotals.counted_under geoip (S (processedIPs p)) (ips b) c).
  { intros c. rewrite (lookup_ips_country _ _ _ _ c Hacc).
    cbn [fst snd no_counts countryCounts]. by rewrite lookup_empty. }
  eexists. split; [done|]. cbn [countries]. split.
  - intros e (n & Hn & ->)%sorted_with_names_entry.
    cbn [Countries.code Countries.count]. split; [done|].
    rewrite <- Hkey, Hn. done.
  - intros c Hpos. rewrite <- Hkey in Hpos.
    destruct (countryCounts acc.1 !! c) as [n|] eqn:Hn; [|cbn in Hpos; lia].
    exists (c, {| Countries.code := c;
                  Countries.name := Countries.getCountryName c;
                  Countries.count := n;
                  Countries.percentage :=
                    Countries.percentage_of n (length (ips b)) |}).
    split; [|done].
    apply sorted_with_names_entry. exists n. by split.
Qed.

(** All bots: the same for the bot at every position of the summary, its
    calls being numbered after those of the bots before it. *)
Lemma enrich_bots_country (geoip : capability)
    (botSummary out : list (string * bot)) (p p' : progress) :
  enrich_bots geoip p botSummary = Ok (out, p') →
  ∀ pre x post, botSummary = pre ++ x :: post →
    ∃ y g, out !! length pre = Some y
      ∧ bot_geo y.2 = Some g
      ∧ (∀ e, e ∈ countries g →
           Countries.code e.2 = e.1
           ∧ Countries.count e.2
             = BotTotals.counted_under geoip
                 (S (processedIPs p + length (BotTotals.all_ips pre)))
                 (ips x.2) e.1)
      ∧ (∀ c, 0 < BotTotals.counted_under geoip
                     (S (processedIPs p + length (BotTotals.all_ips pre)))
                     (ips x.2) c →
           ∃ e, e ∈ countries g ∧ e.1 = c).
Proof.
  revert out p. induction botSummary as [|[botName b] rest IH];
    intros out p Hrun pre x post Hsplit.
  - by destruct pre.
  - cbn [enrich_bots] in Hrun.
    destruct (enrich_bot geoip p b) as [[b1 p1]|] eqn:Hb;
      cbn [bind fst snd] in Hrun; [|done].
    destruct (enrich_bots geoip p1 rest) as [[out1 p2]|] eqn:Hrest;
      cbn [bind fst snd] in Hrun; [|done].
    injection Hrun as <- <-.
    destruct (enrich_bot_country _ _ _ _ _ Hb) as (Hp1 & g & Hg & Hentries & Hall).
    destruct pre as [|a pre].
    + cbn [app] in Hsplit. injection Hsplit as <- <-.
      exists (botName, b1), g. cbn [length lookup list_lookup fst snd].
      unfold BotTotals.all_ips. cbn [fmap list_fmap concat length].
      rewrite Nat.add_0_r. done.
    + cbn [app] in Hsplit. injection Hsplit as <- ->.
      destruct (IH _ _ Hrest pre x post eq_refl)
        as (y & g' & Hy & Hg' & Hentries' & Hall').
      exists y, g'. cbn [length]. split; [exact Hy|]. split; [exact Hg'|].
      assert (Hfirst : processedIPs p1 + length (BotTotals.all_ips pre)
                       = processedIPs p
                         + length (BotTotals.all_ips ((botName, b) :: pre))).
      { unfold BotTotals.all_ips. cbn [fmap list_fmap concat snd].
        rewrite length_app, Hp1. lia. }
      rewrite <- Hfirst. done.
Qed.

End BotFacts.

(** C10. In the enrichment pass, which never throws, every bot keeps its
    IP list, and every IP of the list adds one to exactly one country
    counter of the bot: that of the resolved country, or of "Unknown" when
    the lookup returns null, returns no country, or throws. So every entry
    of [geo.countries] holds the number of the bot's IPs counted under its
    code, every country an IP is counted under has an entry, and the
    counts sum to the length of the IP list, which is also the total each
    of the bot's percentages is computed from. The calls of the lookup are
    numbered from 1 in the order of the bots and of their IPs. *)
Theorem bot_country_counts_sum_to_ips (geoip : BotGeo.capability)
    (botSummary : list (string * BotGeo.bot)) :
  ∃ out p,
    BotGeo.main geoip botSummary = Ok (out, p)
    ∧ Forall2
        (λ x y,
          x.1 = y.1
          ∧ BotGeo.ips y.2 = BotGeo.ips x.2
          ∧ ∃ g, BotGeo.bot_geo y.2 = Some g
              ∧ Countries.total_count (BotGeo.countries g)
                = length (BotGeo.ips y.2)
              ∧ ∀ e, e ∈ BotGeo.countries g →
                  Countries.percentage e.2
                  = Countries.percentage_of (Countries.count e.2)
                      (length (BotGeo.ips y.2)))
        botSummary out
    ∧ ∀ pre x post, botSummary = pre ++ x :: post →
        ∃ y g,
          out !! length pre = Some y
          ∧ BotGeo.bot_geo y.2 = Some g
          ∧ (∀ e, e ∈ BotGeo.countries g →
               Countries.code e.2 = e.1
               ∧ Countries.count e.2
                 = BotTotals.counted_under geoip
                     (S (length (BotTotals.all_ips pre))) (BotGeo.ips x.2) e.1)
          ∧ (∀ c, 0 < BotTotals.counted_under geoip
                         (S (length (BotTotals.all_ips pre))) (BotGeo.ips x.2) c →
               ∃ e, e ∈ BotGeo.countries g ∧ e.1 = c).
Proof.
  unfold BotGeo.main.
  destruct (enrich_bots_ok geoip botSummary
              {| BotGeo.processedIPs := 0; BotGeo.failedLookups := 0 |})
    as (out & p & Hmain & Hall).
  exists out, p. split; [done|]. split; [exact Hall|].
  intros pre x post Hsplit.
  exact (enrich_bots_country _ _ _ _ _ Hmain pre x post Hsplit).
Qed.

(** The sample bot: five IPs, of which two resolve to US, one to BR, one
    has no entry and one makes the lookup fail. *)
Example sample_bot_countries :
  ∃ out p g,
    BotGeo.main Sample.geoip [("SampleBot", Sample.a_bot)]
    = Ok ([("SampleBot", out)], p)
    ∧ BotGeo.bot_geo out = Some g
    ∧ (λ e, (e.1, Countries.name e.2, Countries.count e.2, Countries.percentage e.2))
        <$> BotGeo.countries g
      = [("US", "United States", 2, 40%float);
         ("Unknown", "Unknown", 2, 40%float);
         ("BR", "Brazil", 1, 20%float)]
    ∧ BotGeo.top_cities g = [("San Jose, US", 2); ("Sao Paulo, BR", 1)]
    ∧ BotGeo.processedIPs p = 5
    ∧ BotGeo.failedLookups p = 2.
Proof.
  eexists _, _, _.
  split; [vm_compute; reflexivity|].
  split; [reflexivity|].
  split; [vm_compute; reflexivity|].
  split; [vm_compute; reflexivity|].
  split; vm_compute; reflexivity.
Qed.

(** C6. A lookup that throws or returns no result is absorbed. In the
    traffic script the handler that awaited it stores and counts "Unknown"
    for its IP (in the cache, in the bucket of its minute and in the
    totals), nothing is thrown and the lookup is not called again, neither
    by that handler nor by a later line that carries the IP; no sequence
    of events makes the run throw. In the bot script the IP is
    counted under "Unknown" and as a failed lookup, the call counter grows
    by exactly one, and the whole pass returns. *)
Theorem geo_failure_absorbed :
  (∀ (evs : list Traffic.event) (st : Traffic.state) (k : nat)
     (h : Traffic.suspended) (o : Geo.outcome),
      Traffic.run evs Traffic.init = Ok st →
      Traffic.awaiting st !! k = Some h →
      Geo.failed o →
      ∃ b st',
        Traffic.minuteData st !! Traffic.s_minuteKey h = Some b
        ∧ Traffic.on_settle st k o = Ok st'
        ∧ Traffic.ipCache st' = <[Traffic.s_ip h := "Unknown"]> (Traffic.ipCache st)
        ∧ Traffic.minuteData st'
          = <[Traffic.s_minuteKey h :=
                {| Traffic.requests := Traffic.requests b;
                   Traffic.bytes := Traffic.bytes b;
                   Traffic.countries := Js.bump "Unknown" (Traffic.countries b);
                   Traffic.status_codes := Traffic.status_codes b |}]>
              (Traffic.minuteData st)
        ∧ Traffic.countryTotals st' = Js.bump "Unknown" (Traffic.countryTotals st)
        ∧ Traffic.lookups st' = Traffic.lookups st
        ∧ Traffic.awaiting st' = delete k (Traffic.awaiting st)
        ∧ ∀ (key status : string) (size : option nat),
            ∃ st'',
              Traffic.on_line st' (Traffic.Request (Traffic.s_ip h) key status size)
              = Ok st''
              ∧ Traffic.lookups st'' = Traffic.lookups st
              ∧ Traffic.awaiting st'' = Traffic.awaiting st')
  ∧ (∀ evs : list Traffic.event, ∃ st, Traffic.run evs Traffic.init = Ok st)
  ∧ (∀ (geoip : BotGeo.capability) (c : BotGeo.counts) (p : BotGeo.progress)
       (ip : string),
      Geo.failed (geoip (S (BotGeo.processedIPs p)) ip) →
      ∃ c' p',
        BotGeo.lookup_ip geoip (c, p) ip = Ok (c', p')
        ∧ BotGeo.countryCounts c' = Js.bump "Unknown" (BotGeo.countryCounts c)
        ∧ BotGeo.failedLookups p' = S (BotGeo.failedLookups p)
        ∧ BotGeo.processedIPs p' = S (BotGeo.processedIPs p))
  ∧ (∀ (geoip : BotGeo.capability) (botSummary : list (string * BotGeo.bot)),
      ∃ r, BotGeo.main geoip botSummary = Ok r).
Proof.
  split; [|split; [|split]].
  - intros evs st k h o Hrun Hk Hfail.
    destruct (run_balanced evs _ balanced_init) as (st0 & Hrun0 & Hbal).
    rewrite Hrun in Hrun0. injection Hrun0 as <-.
    pose proof (Hbal (Traffic.s_minuteKey h)) as Hh.
    pose proof (in_flight_delete (Traffic.s_minuteKey h) _ _ _ Hk) as Hdel.
    rewrite decide_True in Hdel by done.
    destruct (Traffic.minuteData st !! Traffic.s_minuteKey h) as [b|] eqn:Hb;
      [|unfold Traffic.in_flight in Hh; lia].
    exists b. unfold Traffic.on_settle. rewrite Hk.
    assert (Hres : Traffic.resolve_country o = Ok "Unknown").
    { destruct o as [[g|]|reason]; [done | done | done]. }
    rewrite Hres. cbn [bind].
    match goal with |- context [Traffic.count_country ?s _ _] =>
      destruct (count_country_ok s (Traffic.s_minuteKey h) "Unknown" b Hb)
        as (st' & Hst' & Hmd & Hct & Hc & Haw & Hl)
    end.
    exists st'. repeat split; try done.
    intros key status size.
    destruct (on_line_cache_hit st' (Traffic.s_ip h) key status "Unknown" size)
      as (st'' & Hst'' & Hl'' & Haw'' & _).
    { rewrite Hc. apply lookup_insert_eq. }
    exists st''. rewrite Hl'', Hl. by repeat split.
  - intros evs.
    destruct (run_balanced evs _ balanced_init) as (st & Hrun & _). eauto.
  - intros geoip c p ip Hfail. unfold BotGeo.lookup_ip.
    cbn [fst snd BotGeo.processedIPs].
    destruct (geoip (S (BotGeo.processedIPs p)) ip) as [[g|]|reason];
      [done | |]; cbn [await bind try_catch BotGeo.count_unknown];
      eexists _, _; by repeat split.
  - intros geoip botSummary.
    destruct (main_returns geoip botSummary) as [r Hr]. eauto.
Qed.

Lemma geo_failure_absorbed_witness :
  Traffic.run [Traffic.Line Sample.first_hit] Traffic.init
  = Ok Sample.one_in_flight
  ∧ Traffic.awaiting Sample.one_in_flight !! 0
    = Some (Traffic.mk_suspended "1.2.3.4" Sample.minute0)
  ∧ Geo.failed (Geo.Rejected "ENOENT")
  ∧ ∃ st',
      Traffic.on_settle Sample.one_in_flight 0 (Geo.Rejected "ENOENT") = Ok st'
      ∧ Traffic.ipCache st' !! "1.2.3.4" = Some "Unknown"
      ∧ Traffic.countryTotals st' !! "Unknown" = Some 1
      ∧ Traffic.lookups st' = ["1.2.3.4"].
Proof.
  assert (Hrun : Traffic.run [Traffic.Line Sample.first_hit] Traffic.init
                 = Ok Sample.one_in_flight) by (vm_compute; reflexivity).
  assert (Hk : Traffic.awaiting Sample.one_in_flight !! 0
               = Some (Traffic.mk_suspended "1.2.3.4" Sample.minute0))
    by (vm_compute; reflexivity).
  assert (Hfail : Geo.failed (Geo.Rejected "ENOENT")) by exact I.
  split; [exact Hrun|]. split; [exact Hk|]. split; [exact Hfail|].
  destruct (proj1 geo_failure_absorbed _ _ _ _ _ Hrun Hk Hfail)
    as (b & st' & _ & Hst' & Hc & _ & Hct & Hl & _ & _).
  exists st'. split; [exact Hst'|].
  rewrite Hc, Hct, Hl. cbn [Traffic.s_ip].
  split; [apply lookup_insert_eq|]. split; [|vm_compute; reflexivity].
  rewrite bump_lookup. vm_compute. reflexivity.
Defined.

(** ** The peak minute *)

Section PeakFacts.
Import Traffic.

Lemma ascii_compare_refl (a : Ascii.ascii) : Ascii.compare a a = Eq.
Proof. unfold Ascii.compare. apply N.compare_refl. Qed.

Lemma ascii_compare_lt_trans (a b c : Ascii.ascii) :
  Ascii.compare a b = Lt → Ascii.compare b c = Lt → Ascii.compare a c = Lt.
Proof.
  unfold Ascii.compare. rewrite !N.compare_lt_iff. apply N.lt_trans.
Qed.

Lemma string_compare_le_trans (s1 s2 s3 : string) :
  String.compare s1 s2 ≠ Gt → String.compare s2 s3 ≠ Gt →
  String.compare s1 s3 ≠ Gt.
Proof.
  revert s2 s3. induction s1 as [|c1 s1 IH]; intros [|c2 s2] [|c3 s3];
    cbn [String.compare]; try done.
  destruct (Ascii.compare c1 c2) eqn:H12; [| |done];
    (destruct (Ascii.compare c2 c3) eqn:H23; [| |done]).
  - apply Ascii.compare_eq_iff in H12 as ->.
    rewrite H23. apply IH.
  - apply Ascii.compare_eq_iff in H12 as ->. by rewrite H23.
  - apply Ascii.compare_eq_iff in H23 as <-. by rewrite H12.
  - by rewrite (ascii_compare_lt_trans _ _ _ H12 H23).
Qed.

Lemma string_le_alt (a b : string) : string_le a b ↔ String.compare a b ≠ Gt.
Proof.
  unfold string_le, String.leb. by destruct (String.compare a b).
Qed.

Global Instance string_le_trans : Transitive string_le.
Proof.
  intros a b c. rewrite !string_le_alt. apply string_compare_le_trans.
Qed.

Global Instance string_le_total : Total string_le.
Proof. intros a b. apply String.leb_total. Qed.

Lemma string_le_refl (a : string) : string_le a a.
Proof. by destruct (string_le_total a a). Qed.

Lemma sortedMinutes_Permutation (md : gmap string MinuteBucket) :
  sortedMinutes md ≡ₚ (map_to_list md).*1.
Proof. apply merge_sort_Permutation. Qed.

Lemma elem_of_sortedMinutes (md : gmap string MinuteBucket) (k : string) :
  k ∈ sortedMinutes md ↔ is_Some (md !! k).
Proof.
  rewrite sortedMinutes_Permutation, list_elem_of_fmap. split.
  - intros ([k' b] & -> & Hin%elem_of_map_to_list). eauto.
  - intros [b Hb]. exists (k, b). split; [done|]. by apply elem_of_map_to_list.
Qed.

Lemma sortedMinutes_sorted (md : gmap string MinuteBucket) :
  StronglySorted string_le (sortedMinutes md).
Proof. apply StronglySorted_merge_sort; apply _. Qed.

(** The loop from any start: either nothing exceeds the start value, or the
    result is the first element that exceeds everything before it and is
    not exceeded after it. *)
Lemma peak_fold (md : gmap string MinuteBucket) (minutes : list string)
    (pm : option string) (pr : nat) :
  let r :=
    fold_left
      (λ '(peakMinute, peakRequests) minute,
        if peakRequests <? requests_at md minute
        then (Some minute, requests_at md minute)
        else (peakMinute, peakRequests))
      minutes (pm, pr) in
  (r = (pm, pr) ∧ Forall (λ m, requests_at md m ≤ pr) minutes)
  ∨ (∃ l1 p l2,
        minutes = l1 ++ p :: l2
        ∧ r = (Some p, requests_at md p)
        ∧ pr < requests_at md p
        ∧ Forall (λ m, requests_at md m < requests_at md p) l1
        ∧ Forall (λ m, requests_at md m ≤ requests_at md p) l2).
Proof.
  revert pm pr. induction minutes as [|m rest IH]; intros pm pr; cbn zeta.
  - left. by split.
  - cbn [fold_left]. destruct (pr <? requests_at md m) eqn:Hlt.
    + apply Nat.ltb_lt in Hlt.
      destruct (IH (Some m) (requests_at md m))
        as [[-> Hall]|(l1 & p & l2 & -> & -> & Hp & Hl1 & Hl2)].
      * right. exists [], m, rest. by repeat split.
      * right. exists (m :: l1), p, l2. repeat split; try done; [lia|].
        by constructor.
    + apply Nat.ltb_ge in Hlt.
      destruct (IH pm pr)
        as [[-> Hall]|(l1 & p & l2 & -> & -> & Hp & Hl1 & Hl2)].
      * left. split; [done|]. by constructor.
      * right. exists (m :: l1), p, l2. repeat split; try done.
        constructor; [lia | done].
Qed.

(** Over a non-empty list of keys the loop returns the first key whose
    count is the maximum. *)
Lemma peak_scan_first_max (md : gmap string MinuteBucket) (minutes : list string) :
  minutes ≠ [] →
  ∃ l1 p l2,
    minutes = l1 ++ p :: l2
    ∧ peak_scan md minutes = (Some p, requests_at md p)
    ∧ Forall (λ m, requests_at md m < requests_at md p) l1
    ∧ Forall (λ m, requests_at md m ≤ requests_at md p) l2.
Proof.
  intros Hne. unfold peak_scan.
  destruct (peak_fold md minutes (head minutes) 0)
    as [[-> Hall]|(l1 & p & l2 & Heq & -> & _ & Hl1 & Hl2)].
  - destruct minutes as [|m rest]; [done|].
    apply Forall_cons in Hall as [Hm Hrest].
    exists [], m, rest. cbn [head app].
    assert (Hz : requests_at md m = 0) by lia. rewrite Hz.
    repeat split; [constructor | done].
  - exists l1, p, l2. by repeat split.
Qed.

End PeakFacts.

(** C7. Scanning the buckets in ascending key order, the peak minute is a
    key whose request count is the maximum, and among the keys with that
    count it is the least one, that is the chronologically first; the loop
    itself returns, over any non-empty list of keys, the first key of the
    list that reaches the maximum. For counts T0:5, T1:9, T2:9 the peak is
    T1. *)
Theorem peak_minute_first_max :
  (∀ (md : gmap string Traffic.MinuteBucket) (minutes : list string),
      minutes ≠ [] →
      ∃ l1 p l2,
        minutes = l1 ++ p :: l2
        ∧ Traffic.peak_scan md minutes = (Some p, Traffic.requests_at md p)
        ∧ Forall (λ m, Traffic.requests_at md m < Traffic.requests_at md p) l1
        ∧ Forall (λ m, Traffic.requests_at md m ≤ Traffic.requests_at md p) l2)
  ∧ (∀ md : gmap string Traffic.MinuteBucket,
      md ≠ ∅ →
      ∃ p b,
        Traffic.peakMinute md = Some p
        ∧ md !! p = Some b
        ∧ Traffic.peakRequests md = Traffic.requests b
        ∧ ∀ k b', md !! k = Some b' →
            Traffic.requests b' ≤ Traffic.requests b
            ∧ (Traffic.requests b' = Traffic.requests b → Traffic.string_le p k))
  ∧ Traffic.sortedMinutes Sample.tied_minutes = ["T0"; "T1"; "T2"]
  ∧ Traffic.peakMinute Sample.tied_minutes = Some "T1"
  ∧ Traffic.peakRequests Sample.tied_minutes = 9.
Proof.
  split; [exact peak_scan_first_max|]. split.
  - intros md Hne.
    assert (Hmin : Traffic.sortedMinutes md ≠ []).
    { intros Hnil. apply Hne, map_to_list_empty_iff.
      pose proof (sortedMinutes_Permutation md) as Hperm.
      rewrite Hnil in Hperm. apply Permutation_nil in Hperm.
      by apply fmap_nil_inv in Hperm. }
    destruct (peak_scan_first_max md _ Hmin)
      as (l1 & p & l2 & Heq & Hscan & Hl1 & Hl2).
    assert (Hp : is_Some (md !! p)).
    { apply elem_of_sortedMinutes. rewrite Heq. set_solver. }
    destruct Hp as [b Hb]. exists p, b.
    unfold Traffic.peakMinute, Traffic.peakRequests. rewrite Hscan.
    assert (Hreq : ∀ k b', md !! k = Some b' →
                     Traffic.requests_at md k = Traffic.requests b').
    { intros k b' Hk. unfold Traffic.requests_at. by rewrite Hk. }
    split; [done|]. split; [done|]. split; [by apply Hreq|].
    intros k b' Hk.
    assert (Hin : k ∈ Traffic.sortedMinutes md)
      by (apply elem_of_sortedMinutes; eauto).
    rewrite Heq in Hin. rewrite Forall_forall in Hl1, Hl2.
    rewrite <- (Hreq _ _ Hk), <- (Hreq _ _ Hb).
    apply elem_of_app in Hin as [Hin|Hin].
    + specialize (Hl1 _ Hin). split; lia.
    + apply elem_of_cons in Hin as [->|Hin].
      * split; [done|]. intros _. apply string_le_refl.
      * split; [by apply Hl2|]. intros _.
        pose proof (sortedMinutes_sorted md) as Hsorted.
        rewrite Heq in Hsorted.
        apply StronglySorted_app_1_r, StronglySorted_inv in Hsorted as [_ Hall].
        rewrite Forall_forall in Hall. by apply Hall.
  - split; [vm_compute; reflexivity|]. split; vm_compute; reflexivity.
Qed.

Lemma peak_minute_first_max_witness :
  Sample.tied_minutes ≠ ∅
  ∧ ∃ b,
      Traffic.peakMinute Sample.tied_minutes = Some "T1"
      ∧ Sample.tied_minutes !! "T1" = Some b
      ∧ Traffic.peakRequests Sample.tied_minutes = Traffic.requests b.
Proof.
  assert (Hne : Sample.tied_minutes ≠ ∅).
  { unfold Sample.tied_minutes. apply insert_non_empty. }
  split; [exact Hne|].
  destruct (proj1 (proj2 peak_minute_first_max) Sample.tied_minutes Hne)
    as (p & b & Hp & Hb & Hreq & _).
  assert (HT1 : Traffic.peakMinute Sample.tied_minutes = Some "T1")
    by (vm_compute; reflexivity).
  rewrite HT1 in Hp. injection Hp as <-.
  exists b. by repeat split.
Defined.

(** C8. Every exposed country entry carries
    [Math.round(count / total * 10000) / 100] for its own count and the
    total fixed when the summary is made (the total number of requests in
    the traffic script, the number of IPs of the bot in the bot script);
    every counted country is exposed, each with its own rounding and no
    correction afterwards. For counts A:1, B:1, C:1 and total 3 the three
    percentages are 33.33 and their sum is 99.99, not 100. *)
Theorem percentage_rounding :
  (∀ (st : Traffic.state) (e : string * Countries.CountryInfo),
      e ∈ Traffic.sortedCountryTotals st →
      ∃ n,
        Traffic.countryTotals st !! e.1 = Some n
        ∧ Countries.count e.2 = n
        ∧ Countries.percentage e.2
          = (Js.Math_round
               (Js.of_nat n
                / Js.of_nat (Traffic.totalRequests (Traffic.minuteData st))
                * 10000) / 100)%float)
  ∧ (∀ (st : Traffic.state) (c : string) (n : nat),
      Traffic.countryTotals st !! c = Some n →
      ∃ e, e ∈ Traffic.sortedCountryTotals st
           ∧ e.1 = c ∧ Countries.count e.2 = n)
  ∧ (∀ (geoip : BotGeo.capability) (p p' : BotGeo.progress) (b b' : BotGeo.bot),
      BotGeo.enrich_bot geoip p b = Ok (b', p') →
      ∃ g, BotGeo.bot_geo b' = Some g
        ∧ ∀ e, e ∈ BotGeo.countries g →
            Countries.percentage e.2
            = (Js.Math_round
                 (Js.of_nat (Countries.count e.2)
                  / Js.of_nat (length (BotGeo.ips b)) * 10000) / 100)%float)
  ∧ Traffic.countryTotals Sample.three_countries
    = <["A" := 1]> (<["B" := 1]> (<["C" := 1]> ∅))
  ∧ Traffic.totalRequests (Traffic.minuteData Sample.three_countries) = 3
  ∧ (λ e, Countries.percentage e.2)
      <$> Traffic.sortedCountryTotals Sample.three_countries
    = [33.33; 33.33; 33.33]%float
  ∧ fold_left PrimFloat.add [33.33; 33.33; 33.33]%float 0%float = 99.99%float
  ∧ PrimFloat.eqb 99.99 100 = false.
Proof.
  split; [|split; [|split]].
  - intros st e (n & Hn & ->)%sorted_with_names_entry.
    exists n. by repeat split.
  - intros st c n Hn.
    exists (c, {| Countries.code := c; Countries.name := Countries.getCountryName c;
                  Countries.count := n;
                  Countries.percentage :=
                    Countries.percentage_of n
                      (Traffic.totalRequests (Traffic.minuteData st)) |}).
    split; [|done].
    apply sorted_with_names_entry. exists n. by split.
  - intros geoip p p' b b' Hb.
    destruct (enrich_bot_ok geoip p b) as (b1 & p1 & Hb1 & Hips & g & Hg & _ & Hpct).
    rewrite Hb in Hb1. injection Hb1 as <- <-.
    exists g. split; [done|]. intros e He. rewrite <- Hips. by apply Hpct.
  - split; [vm_compute; reflexivity|].
    split; [vm_compute; reflexivity|].
    split; [vm_compute; reflexivity|].
    split; vm_compute; reflexivity.
Qed.

Lemma percentage_rounding_witness :
  Sample.entry_B ∈ Traffic.sortedCountryTotals Sample.three_countries
  ∧ ∃ n,
      Traffic.countryTotals Sample.three_countries !! "B" = Some n
      ∧ Countries.count Sample.entry_B.2 = n
      ∧ Countries.percentage Sample.entry_B.2
        = (Js.Math_round
             (Js.of_nat n
              / Js.of_nat
                  (Traffic.totalRequests (Traffic.minuteData Sample.three_countries))
              * 10000) / 100)%float.
Proof.
  assert (He : Sample.entry_B ∈ Traffic.sortedCountryTotals Sample.three_countries).
  { replace (Traffic.sortedCountryTotals Sample.three_countries)
      with (Sample.entry_B :: tail (Traffic.sortedCountryTotals Sample.three_countries))
      by (vm_compute; reflexivity).
    apply list_elem_of_here. }
  split; [exact He|].
  exact (proj1 percentage_rounding Sample.three_countries Sample.entry_B He).
Defined.

(* ===================================================================== *)
(** * Further properties of the scripts *)
(* ===================================================================== *)

(** ** Tallies of the traffic run *)

(** The cases of a step that returns: the new state, field by field. *)
Ltac step_cases Hstep :=
  match type of Hstep with
  | Traffic.step ?st ?ev = Ok _ =>
      destruct ev as [[| |ip key status size]|k o|];
      cbn [Traffic.step Traffic.on_line] in Hstep;
      [ injection Hstep as <-
      | injection Hstep as <-
      | cbn [Traffic.ipCache] in Hstep;
        destruct (Traffic.ipCache st !! ip) as [country|] eqn:Hcache;
        [ unfold Traffic.count_country in Hstep;
          cbn [Traffic.minuteData] in Hstep;
          rewrite lookup_insert_eq in Hstep; injection Hstep as <-
        | injection Hstep as <- ]
      | unfold Traffic.on_settle in Hstep;
        destruct (Traffic.awaiting st !! k) as [h|] eqn:Hk;
        [ destruct (Traffic.resolve_country o) as [country|] eqn:Hres;
          cbn [bind] in Hstep;
          [ unfold Traffic.count_country in Hstep;
            cbn [Traffic.minuteData] in Hstep;
            destruct (Traffic.minuteData st !! Traffic.s_minuteKey h)
              as [b|] eqn:Hb;
            [ injection Hstep as <- | discriminate ]
          | discriminate ]
        | injection Hstep as <- ]
      | injection Hstep as <- ]
  end;
  cbn [Traffic.minuteData Traffic.countryTotals Traffic.statusTotals
       Traffic.ipCache Traffic.lineCount Traffic.parsedCount Traffic.totalLines
       Traffic.totalParsed Traffic.awaiting Traffic.lookups Traffic.on_close].

Section TallyFacts.
Import Traffic Tally.

(** A property of the states that holds at the start and is kept by every
    step holds after every run. *)
Lemma run_invariant (P : state → Prop) :
  (∀ st ev st', P st → step st ev = Ok st' → P st') →
  ∀ evs st st', P st → run evs st = Ok st' → P st'.
Proof.
  intros Hstep evs. induction evs as [|ev evs IH]; intros st st' HP Hrun.
  - cbn [run] in Hrun. by injection Hrun as <-.
  - cbn [run] in Hrun. destruct (step st ev) as [st1|] eqn:H1; [|done].
    cbn [bind] in Hrun. eapply IH; [|done]. by eapply Hstep.
Qed.

Lemma sum_list_fold_left (l : list nat) (a : nat) :
  fold_left Nat.add l a = a + sum_list l.
Proof.
  revert a. induction l as [|x l IH]; intros a; simpl.
  - lia.
  - rewrite IH. lia.
Qed.

Lemma over_minutes_empty (f : MinuteBucket → nat) : over_minutes f ∅ = 0.
Proof. unfold over_minutes. by rewrite map_to_list_empty. Qed.

Lemma over_minutes_insert_fresh (f : MinuteBucket → nat) (key : string)
    (b : MinuteBucket) (md : gmap string MinuteBucket) :
  md !! key = None → over_minutes f (<[key := b]> md) = f b + over_minutes f md.
Proof.
  intros Hk. unfold over_minutes.
  rewrite (sum_list_Permutation _ (f <$> ((key, b) :: map_to_list md).*2)).
  - done.
  - apply fmap_Permutation, fmap_Permutation. by apply map_to_list_insert.
Qed.

Lemma over_minutes_insert (f : MinuteBucket → nat) (key : string)
    (b b' : MinuteBucket) (md : gmap string MinuteBucket) :
  md !! key = Some b →
  over_minutes f (<[key := b']> md) + f b = f b' + over_minutes f md.
Proof.
  intros Hk.
  rewrite <- (insert_delete_eq md key b').
  rewrite <- (insert_id md key b Hk) at 2.
  rewrite <- (insert_delete_eq md key b).
  rewrite !over_minutes_insert_fresh by apply lookup_delete_eq. lia.
Qed.

(** Writing a bucket back, whether it was there or was just created. *)
Lemma over_minutes_update (f : MinuteBucket → nat) (key : string)
    (b' : MinuteBucket) (md : gmap string MinuteBucket) :
  f new_bucket = 0 →
  over_minutes f (<[key := b']> md) + f (default new_bucket (md !! key))
  = f b' + over_minutes f md.
Proof.
  intros Hnew. destruct (md !! key) as [b|] eqn:Hk; cbn [default].
  - by apply over_minutes_insert.
  - rewrite over_minutes_insert_fresh by done. lia.
Qed.

Lemma requests_at_sortedMinutes (md : gmap string MinuteBucket) :
  sum_list (requests_at md <$> (map_to_list md).*1) = over_minutes requests md.
Proof.
  unfold over_minutes.
  assert (Hall : ∀ l : list (string * MinuteBucket),
            (∀ x, x ∈ l → md !! x.1 = Some x.2) →
            sum_list (requests_at md <$> l.*1) = sum_list (requests <$> l.*2)).
  { induction l as [|[k b] l IH]; intros Hl; [done|].
    cbn [fmap list_fmap sum_list sum_list_with fst snd].
    rewrite IH by (intros x Hx; apply Hl; by right).
    unfold id, requests_at.
    pose proof (Hl (k, b) ltac:(left)) as Hkb. cbn [fst snd] in Hkb.
    by rewrite Hkb. }
  apply Hall. intros [k b] Hx. by apply elem_of_map_to_list.
Qed.

(** [totalRequests] is the sum of the request counts of all buckets. *)
Lemma totalRequests_over_minutes (md : gmap string MinuteBucket) :
  totalRequests md = over_minutes requests md.
Proof.
  unfold totalRequests, requestCounts. rewrite sum_list_fold_left.
  rewrite <- requests_at_sortedMinutes. cbn [Nat.add].
  apply sum_list_Permutation, fmap_Permutation, sortedMinutes_Permutation.
Qed.

Lemma count_if_cons {A} (p : A → bool) (x : A) (l : list A) :
  length (List.filter p (x :: l)) = (if p x then 1 else 0) + length (List.filter p l).
Proof. cbn [List.filter]. by destruct (p x). Qed.

(** One step: the line counters, the record counters and the requests of
    the buckets each grow by one exactly when the event calls for it. *)
Lemma step_tally (st st' : state) (ev : event) :
  step st ev = Ok st' →
  totalLines st' + lineCount st'
  = totalLines st + lineCount st + (if is_line ev then 1 else 0)
  ∧ totalParsed st' + parsedCount st'
    = totalParsed st + parsedCount st + (if is_record ev then 1 else 0)
  ∧ over_minutes requests (minuteData st')
    = over_minutes requests (minuteData st) + (if is_record ev then 1 else 0).
Proof.
  intros Hstep. step_cases Hstep; cbn [is_line is_record].
  - lia.
  - lia.
  - rewrite insert_insert_eq.
    pose proof (over_minutes_update requests key
      {| requests := S (requests (default new_bucket (minuteData st !! key)));
         bytes := bytes (default new_bucket (minuteData st !! key)) + default 0 size;
         countries := Js.bump country
                        (countries (default new_bucket (minuteData st !! key)));
         status_codes := Js.bump status
                           (status_codes (default new_bucket (minuteData st !! key))) |}
      (minuteData st) eq_refl) as Hup.
    cbn [requests] in Hup |- *. lia.
  - pose proof (over_minutes_update requests key
      {| requests := S (requests (default new_bucket (minuteData st !! key)));
         bytes := bytes (default new_bucket (minuteData st !! key)) + default 0 size;
         countries := countries (default new_bucket (minuteData st !! key));
         status_codes := Js.bump status
                           (status_codes (default new_bucket (minuteData st !! key))) |}
      (minuteData st) eq_refl) as Hup.
    cbn [requests] in Hup |- *. lia.
  - pose proof (over_minutes_insert requests (s_minuteKey h) b
      {| requests := requests b; bytes := bytes b;
         countries := Js.bump country (countries b);
         status_codes := status_codes b |} (minuteData st) Hb) as Hup.
    cbn [requests] in Hup. lia.
  - lia.
  - lia.
Qed.

Lemma run_tally (evs : list event) (st st' : state) :
  run evs st = Ok st' →
  totalLines st' + lineCount st' = totalLines st + lineCount st + lines_read evs
  ∧ totalParsed st' + parsedCount st'
    = totalParsed st + parsedCount st + records_read evs
  ∧ over_minutes requests (minuteData st')
    = over_minutes requests (minuteData st) + records_read evs.
Proof.
  unfold lines_read, records_read.
  revert st. induction evs as [|ev evs IH]; intros st Hrun; cbn [run] in Hrun.
  - injection Hrun as <-. cbn [List.filter length]. lia.
  - destruct (step st ev) as [st1|] eqn:H1; [|done]. cbn [bind] in Hrun.
    destruct (step_tally _ _ _ H1) as (Hl1 & Hp1 & Hr1).
    destruct (IH _ Hrun) as (Hl & Hp & Hr).
    rewrite !count_if_cons. lia.
Qed.

End TallyFacts.

(** X1. After any run the total of requests over all minute buckets is the
    number of parsed records among the lines read, which is also what the
    counters of parsed lines add up to; the counters of lines add up to the
    number of lines read, so never less than the parsed ones. *)
Theorem total_requests_match_parsed_lines (evs : list Traffic.event)
    (st : Traffic.state) :
  Traffic.run evs Traffic.init = Ok st →
  Traffic.totalRequests (Traffic.minuteData st) = Tally.records_read evs
  ∧ Traffic.totalParsed st + Traffic.parsedCount st = Tally.records_read evs
  ∧ Traffic.totalLines st + Traffic.lineCount st = Tally.lines_read evs
  ∧ Tally.records_read evs ≤ Tally.lines_read evs.
Proof.
  intros Hrun. destruct (run_tally _ _ _ Hrun) as (Hl & Hp & Hr).
  cbn [Traffic.init Traffic.totalLines Traffic.lineCount Traffic.totalParsed
       Traffic.parsedCount Traffic.minuteData] in Hl, Hp, Hr.
  rewrite over_minutes_empty in Hr.
  rewrite totalRequests_over_minutes.
  repeat split; try lia.
  unfold Tally.records_read, Tally.lines_read.
  clear. induction evs as [|ev evs IH]; [done|].
  rewrite !count_if_cons.
  destruct ev as [[| |ip key status size]|k o|]; cbn [Tally.is_line Tally.is_record]; lia.
Qed.

Lemma total_requests_match_parsed_lines_witness :
  Traffic.run [Traffic.Line Sample.first_hit; Traffic.Line Sample.other_hit]
    Traffic.init = Ok Sample.two_in_flight
  ∧ Traffic.totalRequests (Traffic.minuteData Sample.two_in_flight) = 2
  ∧ Traffic.totalParsed Sample.two_in_flight
    + Traffic.parsedCount Sample.two_in_flight = 2.
Proof.
  assert (Hrun : Traffic.run
            [Traffic.Line Sample.first_hit; Traffic.Line Sample.other_hit]
            Traffic.init = Ok Sample.two_in_flight) by (vm_compute; reflexivity).
  split; [exact Hrun|].
  destruct (total_requests_match_parsed_lines _ _ Hrun) as (Ht & Hp & _).
  split; [exact Ht | exact Hp].
Defined.

Section TotalsFacts.
Import Traffic Tally.

Lemma count_at_empty (c : string) : count_at c ∅ = 0.
Proof. unfold count_at. by rewrite lookup_empty. Qed.

Lemma count_at_bump (c k : string) (obj : gmap string nat) :
  count_at c (Js.bump k obj)
  = count_at c obj + (if decide (k = c) then 1 else 0).
Proof.
  unfold count_at. case_decide as Hkc.
  - subst. by rewrite bump_lookup.
  - rewrite bump_lookup_ne by done. lia.
Qed.

Lemma step_status_balanced (st : state) (ev : event) (st' : state) :
  status_balanced st → step st ev = Ok st' → status_balanced st'.
Proof.
  intros [Htot Hall] Hstep. unfold status_balanced.
  step_cases Hstep; try (by split).
  - rewrite insert_insert_eq.
    set (b0 := default new_bucket (minuteData st !! key)).
    assert (Hb0 : Js.sum_values (status_codes b0) = requests b0).
    { unfold b0. destruct (minuteData st !! key) as [b|] eqn:Hk; cbn [default].
      - by apply (Hall key).
      - apply sum_values_empty. }
    split.
    + rewrite sum_values_bump, Htot.
      match goal with |- context [<[key := ?b']> _] =>
        pose proof (over_minutes_update requests key b' (minuteData st) eq_refl) as Hup
      end.
      fold b0 in Hup. cbn [requests] in Hup. lia.
    + intros key' b'. destruct (decide (key = key')) as [<-|Hne].
      * rewrite lookup_insert_eq. intros [= <-]. cbn [status_codes requests].
        rewrite sum_values_bump. lia.
      * rewrite lookup_insert_ne by done. apply Hall.
  - set (b0 := default new_bucket (minuteData st !! key)).
    assert (Hb0 : Js.sum_values (status_codes b0) = requests b0).
    { unfold b0. destruct (minuteData st !! key) as [b|] eqn:Hk; cbn [default].
      - by apply (Hall key).
      - apply sum_values_empty. }
    split.
    + rewrite sum_values_bump, Htot.
      match goal with |- context [<[key := ?b']> _] =>
        pose proof (over_minutes_update requests key b' (minuteData st) eq_refl) as Hup
      end.
      fold b0 in Hup. cbn [requests] in Hup. lia.
    + intros key' b'. destruct (decide (key = key')) as [<-|Hne].
      * rewrite lookup_insert_eq. intros [= <-]. cbn [status_codes requests].
        rewrite sum_values_bump. lia.
      * rewrite lookup_insert_ne by done. apply Hall.
  - split.
    + rewrite Htot.
      match goal with |- context [<[s_minuteKey h := ?b']> _] =>
        pose proof (over_minutes_insert requests (s_minuteKey h) b b'
                      (minuteData st) Hb) as Hup
      end.
      cbn [requests] in Hup. lia.
    + intros key' b'. destruct (decide (s_minuteKey h = key')) as [<-|Hne].
      * rewrite lookup_insert_eq. intros [= <-]. cbn [status_codes requests].
        by apply (Hall (s_minuteKey h)).
      * rewrite lookup_insert_ne by done. apply Hall.
Qed.

Lemma step_countries_balanced (st : state) (ev : event) (st' : state) :
  countries_balanced st → step st ev = Ok st' → countries_balanced st'.
Proof.
  unfold countries_balanced. intros Hbal Hstep.
  step_cases Hstep; try done.
  - rewrite insert_insert_eq, sum_values_bump.
    match goal with |- context [<[key := ?b']> _] =>
      pose proof (over_minutes_update requests key b' (minuteData st) eq_refl) as Hup
    end.
    cbn [requests] in Hup. lia.
  - rewrite length_app. cbn [length].
    match goal with |- context [<[key := ?b']> _] =>
      pose proof (over_minutes_update requests key b' (minuteData st) eq_refl) as Hup
    end.
    cbn [requests] in Hup. lia.
  - rewrite sum_values_bump.
    match goal with |- context [<[s_minuteKey h := ?b']> _] =>
      pose proof (over_minutes_insert requests (s_minuteKey h) b b'
                    (minuteData st) Hb) as Hup
    end.
    cbn [requests] in Hup.
    pose proof (length_delete _ _ (mk_is_Some _ _ Hk)) as Hlen.
    pose proof (lookup_lt_Some _ _ _ Hk). lia.
Qed.

Lemma step_totals_consistent (st : state) (ev : event) (st' : state) :
  totals_consistent st → step st ev = Ok st' → totals_consistent st'.
Proof.
  unfold totals_consistent. intros Hcons Hstep c.
  destruct (Hcons c) as [Hc Hs].
  step_cases Hstep; try done.
  - rewrite insert_insert_eq, !count_at_bump.
    split.
    + match goal with |- context [<[key := ?b']> _] =>
        pose proof (over_minutes_update (λ b, count_at c (countries b)) key b'
                      (minuteData st) (count_at_empty c)) as Hup
      end.
      cbn [countries] in Hup. rewrite count_at_bump in Hup. lia.
    + match goal with |- context [<[key := ?b']> _] =>
        pose proof (over_minutes_update (λ b, count_at c (status_codes b)) key b'
                      (minuteData st) (count_at_empty c)) as Hup
      end.
      cbn [status_codes] in Hup. rewrite count_at_bump in Hup. lia.
  - rewrite !count_at_bump.
    split.
    + match goal with |- context [<[key := ?b']> _] =>
        pose proof (over_minutes_update (λ b, count_at c (countries b)) key b'
                      (minuteData st) (count_at_empty c)) as Hup
      end.
      cbn [countries] in Hup. lia.
    + match goal with |- context [<[key := ?b']> _] =>
        pose proof (over_minutes_update (λ b, count_at c (status_codes b)) key b'
                      (minuteData st) (count_at_empty c)) as Hup
      end.
      cbn [status_codes] in Hup. rewrite count_at_bump in Hup. lia.
  - rewrite !count_at_bump.
    split.
    + match goal with |- context [<[s_minuteKey h := ?b']> _] =>
        pose proof (over_minutes_insert (λ b, count_at c (countries b))
                      (s_minuteKey h) b b' (minuteData st) Hb) as Hup
      end.
      cbn [countries] in Hup. rewrite count_at_bump in Hup. lia.
    + match goal with |- context [<[s_minuteKey h := ?b']> _] =>
        pose proof (over_minutes_insert (λ b, count_at c (status_codes b))
                      (s_minuteKey h) b b' (minuteData st) Hb) as Hup
      end.
      cbn [status_codes] in Hup. lia.
Qed.

End TotalsFacts.

(** X2. After any run, handlers in flight or not, the status counters of
    every bucket sum to its requests and the run-wide status counters sum
    to the total of requests. *)
Theorem status_counts_sum_to_requests (evs : list Traffic.event)
    (st : Traffic.state) :
  Traffic.run evs Traffic.init = Ok st →
  Js.sum_values (Traffic.statusTotals st)
  = Traffic.totalRequests (Traffic.minuteData st)
  ∧ ∀ key b, Traffic.minuteData st !! key = Some b →
      Js.sum_values (Traffic.status_codes b) = Traffic.requests b.
Proof.
  intros Hrun. rewrite totalRequests_over_minutes.
  refine (run_invariant Tally.status_balanced step_status_balanced
            evs Traffic.init st _ Hrun).
  split.
  - cbn. by rewrite sum_values_empty, over_minutes_empty.
  - intros key b Hb. cbn in Hb. by rewrite lookup_empty in Hb.
Qed.

Lemma status_counts_sum_to_requests_witness :
  Traffic.run [Traffic.Line Sample.first_hit; Traffic.Line Sample.other_hit]
    Traffic.init = Ok Sample.two_in_flight
  ∧ Js.sum_values (Traffic.statusTotals Sample.two_in_flight)
    = Traffic.totalRequests (Traffic.minuteData Sample.two_in_flight).
Proof.
  assert (Hrun : Traffic.run
            [Traffic.Line Sample.first_hit; Traffic.Line Sample.other_hit]
            Traffic.init = Ok Sample.two_in_flight) by (vm_compute; reflexivity).
  split; [exact Hrun|].
  exact (proj1 (status_counts_sum_to_requests _ _ Hrun)).
Defined.

(** X3. After any run the run-wide country counters sum to the total of
    requests less the handlers still in flight; once none is in flight the
    counts the percentages are computed from sum to their denominator. *)
Theorem country_totals_sum_to_requests (evs : list Traffic.event)
    (st : Traffic.state) :
  Traffic.run evs Traffic.init = Ok st →
  Js.sum_values (Traffic.countryTotals st) + length (Traffic.awaiting st)
  = Traffic.totalRequests (Traffic.minuteData st)
  ∧ (Traffic.awaiting st = [] →
     Countries.total_count (Traffic.sortedCountryTotals st)
     = Traffic.totalRequests (Traffic.minuteData st)).
Proof.
  intros Hrun.
  assert (Hbal : Tally.countries_balanced st).
  { refine (run_invariant Tally.countries_balanced step_countries_balanced
              evs Traffic.init st _ Hrun).
    unfold Tally.countries_balanced. cbn.
    by rewrite sum_values_empty, over_minutes_empty. }
  unfold Tally.countries_balanced in Hbal.
  rewrite totalRequests_over_minutes. split; [done|].
  intros Hdone. rewrite Hdone in Hbal. cbn [length] in Hbal.
  unfold Traffic.sortedCountryTotals, Traffic.countryTotalsWithNames.
  rewrite sorted_with_names_total. lia.
Qed.

Lemma country_totals_sum_to_requests_witness :
  Traffic.run
    (Traffic.serial [(Sample.first_hit, Geo.Rejected "ENOENT");
                     (Sample.second_hit, Geo.Resolved None)])
    Traffic.init = Ok Sample.after_failures
  ∧ Traffic.awaiting Sample.after_failures = []
  ∧ Countries.total_count (Traffic.sortedCountryTotals Sample.after_failures)
    = Traffic.totalRequests (Traffic.minuteData Sample.after_failures).
Proof.
  assert (Hrun : Traffic.run
            (Traffic.serial [(Sample.first_hit, Geo.Rejected "ENOENT");
                             (Sample.second_hit, Geo.Resolved None)])
            Traffic.init = Ok Sample.after_failures) by (vm_compute; reflexivity).
  split; [exact Hrun|]. split; [reflexivity|].
  exact (proj2 (country_totals_sum_to_requests _ _ Hrun) eq_refl).
Defined.

(** X4. After any run the run-wide counter of each country is the sum of
    the counters of that country over the minute buckets, and likewise for
    each status code. *)
Theorem totals_match_minutes (evs : list Traffic.event) (st : Traffic.state)
    (c : string) :
  Traffic.run evs Traffic.init = Ok st →
  Tally.count_at c (Traffic.countryTotals st)
  = Tally.over_minutes (λ b, Tally.count_at c (Traffic.countries b))
      (Traffic.minuteData st)
  ∧ Tally.count_at c (Traffic.statusTotals st)
    = Tally.over_minutes (λ b, Tally.count_at c (Traffic.status_codes b))
        (Traffic.minuteData st).
Proof.
  intros Hrun.
  refine (run_invariant Tally.totals_consistent step_totals_consistent
            evs Traffic.init st _ Hrun c).
  intros c'. cbn. by rewrite !count_at_empty, !over_minutes_empty.
Qed.

Lemma totals_match_minutes_witness :
  Traffic.run
    (Traffic.serial [(Sample.first_hit, Geo.Rejected "ENOENT");
                     (Sample.second_hit, Geo.Resolved None)])
    Traffic.init = Ok Sample.after_failures
  ∧ Tally.count_at "Unknown" (Traffic.countryTotals Sample.after_failures)
    = Tally.over_minutes (λ b, Tally.count_at "Unknown" (Traffic.countries b))
        (Traffic.minuteData Sample.after_failures).
Proof.
  assert (Hrun : Traffic.run
            (Traffic.serial [(Sample.first_hit, Geo.Rejected "ENOENT");
                             (Sample.second_hit, Geo.Resolved None)])
            Traffic.init = Ok Sample.after_failures) by (vm_compute; reflexivity).
  split; [exact Hrun|].
  exact (proj1 (totals_match_minutes _ _ "Unknown" Hrun)).
Defined.

(** ** The cache, the lookups and the buckets along a run *)

Section CacheRunFacts.
Import Traffic Tally.

Lemma step_cache_accounted (st : state) (ev : event) (st' : state) :
  cache_accounted st → step st ev = Ok st' → cache_accounted st'.
Proof.
  unfold cache_accounted. intros (Haw & Hcached & Hcalled) Hstep.
  step_cases Hstep; try done.
  - (* miss: the lookup is called and the handler joins those in flight *)
    split; [|split].
    + intros h' [Hin| ->%list_elem_of_singleton]%elem_of_app.
      * apply elem_of_app. left. by apply Haw.
      * apply elem_of_app. right. cbn. by left.
    + intros ip' Hsome. apply elem_of_app. left. by apply Hcached.
    + intros ip' [Hin| ->%list_elem_of_singleton]%elem_of_app.
      * destruct (Hcalled _ Hin) as [Hsome|(h' & Hh' & Hip)]; [by left|].
        right. exists h'. split; [|done]. apply elem_of_app. by left.
      * right. exists (mk_suspended ip key). split; [|done].
        apply elem_of_app. right. by left.
  - (* the lookup of [h] settles: its IP is cached *)
    assert (Hh : h ∈ awaiting st) by (by eapply list_elem_of_lookup_2).
    assert (Hsub : ∀ x, x ∈ delete k (awaiting st) → x ∈ awaiting st).
    { intros x Hx. rewrite delete_take_drop in Hx.
      rewrite <- (take_drop_middle _ _ _ Hk).
      apply elem_of_app in Hx as [Hx|Hx]; apply elem_of_app; [by left|].
      right. by right. }
    split; [|split].
    + intros h' Hin. apply Haw, Hsub, Hin.
    + intros ip' Hsome. destruct (decide (s_ip h = ip')) as [<-|Hne].
      * by apply Haw.
      * rewrite lookup_insert_ne in Hsome by done. by apply Hcached.
    + intros ip' Hin. destruct (decide (s_ip h = ip')) as [<-|Hne].
      * left. rewrite lookup_insert_eq. eauto.
      * rewrite lookup_insert_ne by done.
        destruct (Hcalled _ Hin) as [Hsome|(h' & Hh' & Hip)]; [by left|].
        right. exists h'. split; [|done].
        rewrite delete_take_drop.
        rewrite <- (take_drop_middle _ _ _ Hk) in Hh'.
        apply elem_of_app in Hh' as [Hh'|Hh']; apply elem_of_app; [by left|].
        apply elem_of_cons in Hh' as [->|Hh']; [done | by right].
Qed.

Lemma step_buckets_used (st : state) (ev : event) (st' : state) :
  buckets_used st → step st ev = Ok st' → buckets_used st'.
Proof.
  unfold buckets_used. intros Hused Hstep.
  step_cases Hstep; try done.
  - rewrite insert_insert_eq. intros key' b'.
    destruct (decide (key = key')) as [<-|Hne].
    + rewrite lookup_insert_eq. intros [= <-]. cbn [requests]. lia.
    + rewrite lookup_insert_ne by done. apply Hused.
  - intros key' b'. destruct (decide (key = key')) as [<-|Hne].
    + rewrite lookup_insert_eq. intros [= <-]. cbn [requests]. lia.
    + rewrite lookup_insert_ne by done. apply Hused.
  - intros key' b'. destruct (decide (s_minuteKey h = key')) as [<-|Hne].
    + rewrite lookup_insert_eq. intros [= <-]. cbn [requests].
      by apply (Hused (s_minuteKey h)).
    + rewrite lookup_insert_ne by done. apply Hused.
Qed.

Lemma union_keys_nil (X : gset string) : X = X ∪ list_to_set [].
Proof. rewrite list_to_set_nil. by rewrite (right_id_L ∅ (∪)). Qed.

Lemma union_keys_one (X : gset string) (k : string) :
  {[k]} ∪ X = X ∪ list_to_set [k].
Proof.
  rewrite list_to_set_cons, list_to_set_nil, (right_id_L ∅ (∪)).
  apply (comm_L (∪)).
Qed.

Lemma union_keys_old (X : gset string) (k : string) :
  k ∈ X → {[k]} ∪ X = X ∪ list_to_set [].
Proof.
  intros Hk. rewrite <- union_keys_nil. apply subseteq_union_1_L.
  by apply singleton_subseteq_l.
Qed.

(** One step: the calls of the lookup grow by the IP of the record of the
    event, or not at all; the buckets grow by the minute of that record. *)
Lemma step_calls_and_minutes (st st' : state) (ev : event) :
  step st ev = Ok st' →
  (∃ l, lookups st' = lookups st ++ l ∧ sublist l (record_ips [ev]))
  ∧ dom (minuteData st')
    = dom (minuteData st) ∪ list_to_set (record_minutes [ev]).
Proof.
  intros Hstep.
  step_cases Hstep; cbn [record_ips record_minutes omap list_omap].
  1,2,6,7: split; [exists []; by rewrite app_nil_r | apply union_keys_nil].
  - split; [exists []; split; [by rewrite app_nil_r | apply sublist_nil_l]|].
    rewrite insert_insert_eq, dom_insert_L. apply union_keys_one.
  - split; [by exists [ip]|].
    rewrite dom_insert_L. apply union_keys_one.
  - split; [exists []; by rewrite app_nil_r|].
    rewrite dom_insert_L. apply union_keys_old.
    apply elem_of_dom. eauto.
Qed.

Lemma record_ips_cons (ev : event) (evs : list event) :
  record_ips (ev :: evs) = record_ips [ev] ++ record_ips evs.
Proof. unfold record_ips. cbn [omap list_omap]. by destruct ev as [[]| |]. Qed.

Lemma record_minutes_cons (ev : event) (evs : list event) :
  record_minutes (ev :: evs) = record_minutes [ev] ++ record_minutes evs.
Proof. unfold record_minutes. cbn [omap list_omap]. by destruct ev as [[]| |]. Qed.

Lemma run_calls_and_minutes (evs : list event) (st st' : state) :
  run evs st = Ok st' →
  (∃ l, lookups st' = lookups st ++ l ∧ sublist l (record_ips evs))
  ∧ dom (minuteData st')
    = dom (minuteData st) ∪ list_to_set (record_minutes evs).
Proof.
  revert st. induction evs as [|ev evs IH]; intros st Hrun; cbn [run] in Hrun.
  - injection Hrun as <-. split; [exists []; by rewrite app_nil_r|].
    apply union_keys_nil.
  - destruct (step st ev) as [st1|] eqn:H1; [|done]. cbn [bind] in Hrun.
    destruct (step_calls_and_minutes _ _ _ H1) as [(l1 & Hl1 & Hs1) Hd1].
    destruct (IH _ Hrun) as [(l & Hl & Hs) Hd].
    rewrite record_ips_cons, record_minutes_cons. split.
    + exists (l1 ++ l). split.
      * by rewrite Hl, Hl1, app_assoc.
      * by apply sublist_app.
    + rewrite Hd, Hd1, list_to_set_app_L. by rewrite (assoc_L (∪)).
Qed.

Lemma run_buckets_used (evs : list event) (st : state) :
  run evs init = Ok st → buckets_used st.
Proof.
  intros Hrun.
  refine (run_invariant buckets_used step_buckets_used evs init st _ Hrun).
  intros key b Hb. cbn in Hb. by rewrite lookup_empty in Hb.
Qed.

End CacheRunFacts.

(** X5. After any run the calls of the lookup, in order, are IPs of parsed
    records in the order they were read, at most one call per record; every
    cached IP was looked up, and once no handler is in flight the cached
    IPs, which the output reports as unique IPs, are exactly the IPs the
    lookup was called for. *)
Theorem lookups_follow_records (evs : list Traffic.event) (st : Traffic.state) :
  Traffic.run evs Traffic.init = Ok st →
  sublist (Traffic.lookups st) (Tally.record_ips evs)
  ∧ length (Traffic.lookups st) ≤ Tally.records_read evs
  ∧ (∀ ip, is_Some (Traffic.ipCache st !! ip) → ip ∈ Traffic.lookups st)
  ∧ (Traffic.awaiting st = [] →
     dom (Traffic.ipCache st) = list_to_set (Traffic.lookups st)).
Proof.
  intros Hrun.
  destruct (run_calls_and_minutes _ _ _ Hrun) as [(l & Hl & Hsub) _].
  cbn [Traffic.init Traffic.lookups app] in Hl. subst l.
  assert (Hacc : Tally.cache_accounted st).
  { refine (run_invariant Tally.cache_accounted step_cache_accounted
              evs Traffic.init st _ Hrun).
    unfold Tally.cache_accounted. cbn.
    split; [|split]; intros x Hx.
    - by apply elem_of_nil in Hx.
    - rewrite lookup_empty in Hx. by destruct Hx.
    - by apply elem_of_nil in Hx. }
  destruct Hacc as (_ & Hcached & Hcalled).
  split; [done|]. split.
  - apply sublist_length in Hsub.
    etrans; [exact Hsub|].
    unfold Tally.record_ips, Tally.records_read. clear.
    induction evs as [|ev evs IH]; [done|].
    rewrite count_if_cons. cbn [omap list_omap].
    destruct ev as [[| |ip key status size]|k o|];
      cbn [Tally.is_record length]; lia.
  - split; [exact Hcached|].
    intros Hdone. apply set_eq. intros ip.
    rewrite elem_of_dom, elem_of_list_to_set. split; [apply Hcached|].
    intros Hin. destruct (Hcalled _ Hin) as [Hsome|(h & Hh & _)]; [done|].
    rewrite Hdone in Hh. by apply elem_of_nil in Hh.
Qed.

Lemma lookups_follow_records_witness :
  Traffic.run
    (Traffic.serial [(Sample.first_hit, Geo.Rejected "ENOENT");
                     (Sample.second_hit, Geo.Resolved None)])
    Traffic.init = Ok Sample.after_failures
  ∧ Traffic.awaiting Sample.after_failures = []
  ∧ dom (Traffic.ipCache Sample.after_failures)
    = list_to_set (Traffic.lookups Sample.after_failures).
Proof.
  assert (Hrun : Traffic.run
            (Traffic.serial [(Sample.first_hit, Geo.Rejected "ENOENT");
                             (Sample.second_hit, Geo.Resolved None)])
            Traffic.init = Ok Sample.after_failures) by (vm_compute; reflexivity).
  split; [exact Hrun|]. split; [reflexivity|].
  exact (proj2 (proj2 (proj2 (lookups_follow_records _ _ Hrun))) eq_refl).
Defined.

(** X6. After any run there is a bucket for exactly the minutes of the
    parsed records read, created on the first record of its minute, and
    every bucket holds at least one request. *)
Theorem buckets_are_record_minutes (evs : list Traffic.event)
    (st : Traffic.state) :
  Traffic.run evs Traffic.init = Ok st →
  dom (Traffic.minuteData st) = list_to_set (Tally.record_minutes evs)
  ∧ ∀ key b, Traffic.minuteData st !! key = Some b → 1 ≤ Traffic.requests b.
Proof.
  intros Hrun.
  destruct (run_calls_and_minutes _ _ _ Hrun) as [_ Hdom].
  cbn [Traffic.init Traffic.minuteData] in Hdom.
  rewrite dom_empty_L, (left_id_L ∅ (∪)) in Hdom. split; [done|].
  exact (run_buckets_used evs st Hrun).
Qed.

Lemma buckets_are_record_minutes_witness :
  Traffic.run [Traffic.Line Sample.first_hit; Traffic.Line Sample.other_hit]
    Traffic.init = Ok Sample.two_in_flight
  ∧ dom (Traffic.minuteData Sample.two_in_flight)
    = list_to_set [Sample.minute0; Sample.minute1].
Proof.
  assert (Hrun : Traffic.run
            [Traffic.Line Sample.first_hit; Traffic.Line Sample.other_hit]
            Traffic.init = Ok Sample.two_in_flight) by (vm_compute; reflexivity).
  split; [exact Hrun|].
  exact (proj1 (buckets_are_record_minutes _ _ Hrun)).
Defined.

(** ** The summary *)

Section SummaryFacts.
Import Summary Traffic.

Lemma fold_max_spec (xs : list nat) (a : nat) :
  (fold_left Nat.max xs a = a ∨ fold_left Nat.max xs a ∈ xs)
  ∧ a ≤ fold_left Nat.max xs a
  ∧ ∀ x, x ∈ xs → x ≤ fold_left Nat.max xs a.
Proof.
  revert a. induction xs as [|y xs IH]; intros a; cbn [fold_left].
  - split; [by left|]. split; [done|]. intros x Hx. by apply elem_of_nil in Hx.
  - destruct (IH (a `max` y)) as (Hin & Hge & Hall).
    split; [|split].
    + destruct Hin as [Heq|Hin]; [|right; by right].
      rewrite Heq. destruct (Nat.max_spec a y) as [[_ ->]|[_ ->]];
        [right; by left | by left].
    + lia.
    + intros x [->|Hx]%elem_of_cons; [lia | by apply Hall].
Qed.

Lemma fold_min_spec (xs : list nat) (a : nat) :
  (fold_left Nat.min xs a = a ∨ fold_left Nat.min xs a ∈ xs)
  ∧ fold_left Nat.min xs a ≤ a
  ∧ ∀ x, x ∈ xs → fold_left Nat.min xs a ≤ x.
Proof.
  revert a. induction xs as [|y xs IH]; intros a; cbn [fold_left].
  - split; [by left|]. split; [done|]. intros x Hx. by apply elem_of_nil in Hx.
  - destruct (IH (a `min` y)) as (Hin & Hge & Hall).
    split; [|split].
    + destruct Hin as [Heq|Hin]; [|right; by right].
      rewrite Heq. destruct (Nat.min_spec a y) as [[_ ->]|[_ ->]];
        [by left | right; by left].
    + lia.
    + intros x [->|Hx]%elem_of_cons; [lia | by apply Hall].
Qed.

(** [Math.max] of a non-empty list is its greatest element. *)
Lemma Math_max_spec (xs : list nat) (m : nat) :
  Math_max xs = Some m → m ∈ xs ∧ ∀ x, x ∈ xs → x ≤ m.
Proof.
  destruct xs as [|y xs]; [done|]. intros [= <-].
  destruct (fold_max_spec xs y) as ([->|Hin] & Hge & Hall).
  - split; [by left|]. intros x [->|Hx]%elem_of_cons; [done|].
    specialize (Hall x Hx). destruct (fold_max_spec xs y) as (_ & _ & H'). lia.
  - split; [by right|]. intros x [->|Hx]%elem_of_cons; [done | by apply Hall].
Qed.

(** [Math.min] of a non-empty list is its least element. *)
Lemma Math_min_spec (xs : list nat) (m : nat) :
  Math_min xs = Some m → m ∈ xs ∧ ∀ x, x ∈ xs → m ≤ x.
Proof.
  destruct xs as [|y xs]; [done|]. intros [= <-].
  destruct (fold_min_spec xs y) as ([->|Hin] & Hge & Hall).
  - split; [by left|]. intros x [->|Hx]%elem_of_cons; [done|].
    specialize (Hall x Hx). destruct (fold_min_spec xs y) as (_ & _ & H'). lia.
  - split; [by right|]. intros x [->|Hx]%elem_of_cons; [done | by apply Hall].
Qed.

Lemma sortedMinutes_nil (md : gmap string MinuteBucket) :
  sortedMinutes md = [] ↔ md = ∅.
Proof.
  split.
  - intros Hnil. apply map_to_list_empty_iff.
    pose proof (sortedMinutes_Permutation md) as Hperm.
    rewrite Hnil in Hperm. apply Permutation_nil in Hperm.
    by apply fmap_nil_inv in Hperm.
  - intros ->. apply Permutation_nil_r.
    rewrite sortedMinutes_Permutation. by rewrite map_to_list_empty.
Qed.

Lemma sortedMinutes_length (md : gmap string MinuteBucket) :
  length (sortedMinutes md) = size md.
Proof.
  rewrite (Permutation_length (sortedMinutes_Permutation md)).
  by rewrite length_fmap, length_map_to_list.
Qed.

Lemma sortedMinutes_NoDup (md : gmap string MinuteBucket) :
  NoDup (sortedMinutes md).
Proof.
  rewrite sortedMinutes_Permutation. apply NoDup_fst_map_to_list.
Qed.

Lemma requestCounts_elem (md : gmap string MinuteBucket) (n : nat) :
  n ∈ requestCounts md ↔ ∃ key b, md !! key = Some b ∧ requests b = n.
Proof.
  unfold requestCounts. rewrite list_elem_of_fmap. split.
  - intros (key & -> & [b Hb]%elem_of_sortedMinutes).
    exists key, b. split; [done|]. unfold requests_at. by rewrite Hb.
  - intros (key & b & Hb & <-). exists key. split.
    + unfold requests_at. by rewrite Hb.
    + apply elem_of_sortedMinutes. eauto.
Qed.

(** The scan for the peak ends on the greatest request count. *)
Lemma peakRequests_max (md : gmap string MinuteBucket) :
  md ≠ ∅ → Math_max (requestCounts md) = Some (peakRequests md).
Proof.
  intros Hne.
  assert (Hmin : sortedMinutes md ≠ []) by (by rewrite sortedMinutes_nil).
  destruct (peak_scan_first_max md _ Hmin)
    as (l1 & p & l2 & Heq & Hscan & Hl1 & Hl2).
  unfold peakRequests. rewrite Hscan. cbn [snd].
  destruct (Math_max (requestCounts md)) as [m|] eqn:Hmax.
  - apply Math_max_spec in Hmax as [Hin Hall]. f_equal.
    apply Nat.le_antisymm.
    + unfold requestCounts in Hin. rewrite Heq in Hin.
      apply list_elem_of_fmap in Hin as (key & -> & Hkey).
      rewrite Forall_forall in Hl1, Hl2.
      apply elem_of_app in Hkey as [Hkey|[->|Hkey]%elem_of_cons].
      * specialize (Hl1 _ Hkey). lia.
      * done.
      * by apply Hl2.
    + apply Hall. unfold requestCounts. rewrite Heq.
      apply list_elem_of_fmap. exists p. split; [done|].
      apply elem_of_app. right. by left.
  - unfold Math_max, requestCounts in Hmax. rewrite Heq in Hmax.
    by destruct l1.
Qed.

End SummaryFacts.

(** X7. In the summary of any run, the peak found by the scan is the
    maximum of the request counts, the minimum is at least one request and
    at most the peak, the number of minutes is that of the buckets and of
    the points of the time series, and the total of requests is the number
    of parsed records read. *)
Theorem summary_statistics_agree (evs : list Traffic.event)
    (st : Traffic.state) (e : Summary.exportData) :
  Traffic.run evs Traffic.init = Ok st →
  Summary.summarize st = Some e →
  Summary.max_requests_per_minute (Summary.export_statistics e)
  = Some (Summary.peak_requests (Summary.export_statistics e))
  ∧ (∃ m, Summary.min_requests_per_minute (Summary.export_statistics e) = Some m
          ∧ 1 ≤ m
          ∧ m ≤ Summary.peak_requests (Summary.export_statistics e))
  ∧ Summary.total_minutes (Summary.export_metadata e)
    = size (Traffic.minuteData st)
  ∧ length (Summary.time_series e)
    = Summary.total_minutes (Summary.export_metadata e)
  ∧ Summary.total_requests (Summary.export_statistics e)
    = Tally.records_read evs.
Proof.
  intros Hrun Hsum. unfold Summary.summarize in Hsum.
  case_decide as Hlen; [done|]. injection Hsum as <-.
  cbn [Summary.export_statistics Summary.export_metadata Summary.time_series
       Summary.max_requests_per_minute Summary.min_requests_per_minute
       Summary.peak_requests Summary.total_minutes Summary.total_requests].
  assert (Hne : Traffic.minuteData st ≠ ∅).
  { intros Hempty. apply Hlen. rewrite sortedMinutes_length, Hempty.
    apply map_size_empty. }
  pose proof (peakRequests_max _ Hne) as Hmax.
  split; [done|]. split; [|split; [|split]].
  - destruct (Summary.Math_min (Traffic.requestCounts (Traffic.minuteData st)))
      as [m|] eqn:Hmin.
    + exists m. split; [done|].
      apply Math_min_spec in Hmin as [Hin _].
      apply Math_max_spec in Hmax as [_ Hall].
      split; [|by apply Hall].
      apply requestCounts_elem in Hin as (key & b & Hb & <-).
      by apply (run_buckets_used evs st Hrun key b).
    + apply Math_max_spec in Hmax as [Hin _].
      unfold Summary.Math_min in Hmin.
      destruct (Traffic.requestCounts (Traffic.minuteData st)); [|done].
      by apply elem_of_nil in Hin.
  - apply sortedMinutes_length.
  - unfold Summary.timeSeries. by rewrite length_fmap.
  - destruct (run_tally _ _ _ Hrun) as (_ & _ & Hr).
    cbn [Traffic.init Traffic.minuteData] in Hr.
    rewrite over_minutes_empty in Hr. by rewrite totalRequests_over_minutes.
Qed.

Lemma summary_statistics_agree_witness :
  ∃ e,
    Traffic.run
      (Traffic.serial [(Sample.first_hit, Geo.Rejected "ENOENT");
                       (Sample.second_hit, Geo.Resolved None)])
      Traffic.init = Ok Sample.after_failures
    ∧ Summary.summarize Sample.after_failures = Some e
    ∧ Summary.max_requests_per_minute (Summary.export_statistics e)
      = Some (Summary.peak_requests (Summary.export_statistics e))
    ∧ Summary.total_requests (Summary.export_statistics e) = 2.
Proof.
  assert (Hrun : Traffic.run
            (Traffic.serial [(Sample.first_hit, Geo.Rejected "ENOENT");
                             (Sample.second_hit, Geo.Resolved None)])
            Traffic.init = Ok Sample.after_failures) by (vm_compute; reflexivity).
  destruct (Summary.summarize Sample.after_failures) as [e|] eqn:Hsum;
    [|vm_compute in Hsum; discriminate].
  exists e. split; [exact Hrun|]. split; [reflexivity|].
  destruct (summary_statistics_agree _ _ _ Hrun Hsum) as (Hmax & _ & _ & _ & Htot).
  split; [exact Hmax | exact Htot].
Defined.

(** X8. The script gives up with "No data found!" exactly when no bucket
    exists, which after a run means that no line read was a parsed record.
    With buckets it ends in a RangeError exactly when there are more of
    them than the engine accepts as arguments of one call, and otherwise
    hands the summary to the write. *)
Theorem no_data_iff_no_record (max_arguments : nat)
    (evs : list Traffic.event) (st : Traffic.state) :
  Traffic.run evs Traffic.init = Ok st →
  (Summary.finish max_arguments st = Summary.NoData
   ↔ Traffic.minuteData st = ∅)
  ∧ (Summary.finish max_arguments st = Summary.NoData
     ↔ Tally.records_read evs = 0)
  ∧ (Summary.finish max_arguments st = Summary.RangeError
     ↔ max_arguments < size (Traffic.minuteData st))
  ∧ (0 < Tally.records_read evs →
     size (Traffic.minuteData st) ≤ max_arguments →
     ∃ e, Summary.finish max_arguments st = Summary.Written e
          ∧ Summary.summarize st = Some e).
Proof.
  intros Hrun.
  assert (Hsome : Traffic.minuteData st ≠ ∅ →
            ∃ e, Summary.summarize st = Some e).
  { intros Hne. unfold Summary.summarize.
    rewrite decide_False; [eauto|].
    intros Hlen. apply Hne, sortedMinutes_nil. by apply length_zero_iff_nil. }
  assert (Hcounts : length (Traffic.requestCounts (Traffic.minuteData st))
                    = size (Traffic.minuteData st)).
  { unfold Traffic.requestCounts. by rewrite length_fmap, sortedMinutes_length. }
  assert (Hnone : Summary.finish max_arguments st = Summary.NoData
                  ↔ Traffic.minuteData st = ∅).
  { unfold Summary.finish. rewrite <- sortedMinutes_nil.
    case_decide as Hlen.
    - split; [|done]. intros _. by apply length_zero_iff_nil.
    - assert (Hne : Traffic.minuteData st ≠ ∅).
      { intros Hmd. apply Hlen. by rewrite Hmd. }
      destruct (Hsome Hne) as [e ->].
      case_decide; split; try done; intros Hnil; by rewrite Hnil in Hlen. }
  assert (Hrecords : Traffic.minuteData st = ∅ ↔ Tally.records_read evs = 0).
  { destruct (run_tally _ _ _ Hrun) as (_ & _ & Hr).
    cbn [Traffic.init Traffic.minuteData] in Hr.
    rewrite over_minutes_empty in Hr. cbn [Nat.add] in Hr. rewrite <- Hr.
    split.
    - intros ->. apply over_minutes_empty.
    - intros Hzero. apply map_empty. intros key.
      destruct (Traffic.minuteData st !! key) as [b|] eqn:Hb; [|done].
      pose proof (run_buckets_used evs st Hrun key b Hb) as Hused.
      pose proof (over_minutes_insert Traffic.requests key b b _ Hb) as Hins.
      rewrite insert_id in Hins by done.
      rewrite <- (insert_id _ _ _ Hb), <- insert_delete_eq in Hzero.
      rewrite over_minutes_insert_fresh in Hzero by apply lookup_delete_eq.
      lia. }
  split; [exact Hnone|]. split; [by rewrite Hnone|]. split.
  - unfold Summary.finish. rewrite Hcounts, sortedMinutes_length.
    case_decide as Hlen; [split; [done | lia]|].
    case_decide as Hmax; [done|].
    destruct (Summary.summarize st); split; try done; lia.
  - intros Hpos Hfit.
    assert (Hne : Traffic.minuteData st ≠ ∅).
    { intros Hmd. apply Hrecords in Hmd. lia. }
    destruct (Hsome Hne) as [e He]. exists e. split; [|exact He].
    unfold Summary.finish. rewrite Hcounts, sortedMinutes_length, He.
    rewrite decide_False.
    + rewrite decide_False; [done | lia].
    + intros Hzero. apply Hne. by apply map_size_empty_iff.
Qed.

Lemma no_data_iff_no_record_witness :
  Traffic.run [Traffic.Line Traffic.NoMatch; Traffic.Line Traffic.NoDate;
               Traffic.Close] Traffic.init
  = Ok {| Traffic.minuteData := ∅; Traffic.countryTotals := ∅;
          Traffic.statusTotals := ∅; Traffic.ipCache := ∅;
          Traffic.lineCount := 0; Traffic.parsedCount := 0;
          Traffic.totalLines := 2; Traffic.totalParsed := 0;
          Traffic.awaiting := []; Traffic.lookups := [] |}
  ∧ Summary.finish 1000
      {| Traffic.minuteData := ∅; Traffic.countryTotals := ∅;
         Traffic.statusTotals := ∅; Traffic.ipCache := ∅;
         Traffic.lineCount := 0; Traffic.parsedCount := 0;
         Traffic.totalLines := 2; Traffic.totalParsed := 0;
         Traffic.awaiting := []; Traffic.lookups := [] |} = Summary.NoData.
Proof.
  assert (Hrun : Traffic.run [Traffic.Line Traffic.NoMatch;
                              Traffic.Line Traffic.NoDate; Traffic.Close]
                   Traffic.init
                 = Ok {| Traffic.minuteData := ∅; Traffic.countryTotals := ∅;
                         Traffic.statusTotals := ∅; Traffic.ipCache := ∅;
                         Traffic.lineCount := 0; Traffic.parsedCount := 0;
                         Traffic.totalLines := 2; Traffic.totalParsed := 0;
                         Traffic.awaiting := []; Traffic.lookups := [] |})
    by reflexivity.
  split; [exact Hrun|].
  apply (proj1 (proj2 (no_data_iff_no_record 1000 _ _ Hrun))). reflexivity.
Defined.

(** X9. The time series lists the buckets once each in ascending order of
    their minute keys, from the start time to the end time of the metadata,
    and every point carries the requests and bytes of its bucket and, under
    each country code, the name of that code and the count of the bucket. *)
Theorem time_series_mirrors_buckets (st : Traffic.state) (e : Summary.exportData) :
  Summary.summarize st = Some e →
  StronglySorted Traffic.string_le (Summary.timestamp <$> Summary.time_series e)
  ∧ NoDup (Summary.timestamp <$> Summary.time_series e)
  ∧ (∀ key, key ∈ Summary.timestamp <$> Summary.time_series e
            ↔ is_Some (Traffic.minuteData st !! key))
  ∧ (∃ first last,
        Summary.start_time (Summary.export_metadata e) = Some first
        ∧ Summary.end_time (Summary.export_metadata e) = Some last
        ∧ ∀ pt, pt ∈ Summary.time_series e →
            Traffic.string_le first (Summary.timestamp pt)
            ∧ Traffic.string_le (Summary.timestamp pt) last)
  ∧ ∀ pt, pt ∈ Summary.time_series e →
      ∃ b, Traffic.minuteData st !! Summary.timestamp pt = Some b
        ∧ Summary.requests pt = Traffic.requests b
        ∧ Summary.bytes pt = Traffic.bytes b
        ∧ Summary.status_codes pt = Traffic.status_codes b
        ∧ ∀ c, Summary.countries pt !! c
               = (λ n, Summary.mk_named c (Countries.getCountryName c) n)
                 <$> Traffic.countries b !! c.
Proof.
  intros Hsum. unfold Summary.summarize in Hsum.
  case_decide as Hlen; [done|]. injection Hsum as <-.
  cbn [Summary.export_metadata Summary.time_series Summary.start_time
       Summary.end_time].
  set (md := Traffic.minuteData st) in *.
  assert (Hts : Summary.timestamp <$> Summary.timeSeries md
                = Traffic.sortedMinutes md).
  { unfold Summary.timeSeries. rewrite <- list_fmap_compose.
    transitivity (id <$> Traffic.sortedMinutes md); [|apply list_fmap_id].
    by apply list_fmap_ext. }
  rewrite Hts.
  pose proof (sortedMinutes_sorted md) as Hsorted.
  split; [done|]. split; [apply sortedMinutes_NoDup|].
  split; [apply elem_of_sortedMinutes|]. split.
  - destruct (Traffic.sortedMinutes md) as [|first rest] eqn:Hl; [done|].
    destruct (last (first :: rest)) as [lst|] eqn:Hlast;
      [|by apply last_None in Hlast].
    exists first, lst. split; [done|]. split.
    { rewrite <- Hlast, last_lookup. f_equal. cbn [length]. lia. }
    intros pt Hpt.
    assert (Hin : Summary.timestamp pt ∈ first :: rest).
    { rewrite <- Hts. apply list_elem_of_fmap. eauto. }
    split.
    + apply elem_of_cons in Hin as [->|Hin]; [apply string_le_refl|].
      apply StronglySorted_inv in Hsorted as [_ Hall].
      rewrite Forall_forall in Hall. by apply Hall.
    + apply list_elem_of_split in Hin as (l1 & l2 & Heq).
      rewrite Heq in Hsorted, Hlast. rewrite last_app_cons in Hlast.
      apply StronglySorted_app_1_r, StronglySorted_inv in Hsorted as [_ Hall].
      apply last_Some_elem_of, elem_of_cons in Hlast as [->|Hlast];
        [apply string_le_refl|].
      rewrite Forall_forall in Hall. by apply Hall.
  - intros pt (minute & -> & Hmin)%list_elem_of_fmap.
    apply elem_of_sortedMinutes in Hmin as [b Hb].
    exists b. cbn [Summary.timestamp Summary.requests Summary.bytes
                   Summary.status_codes Summary.countries].
    fold md. rewrite Hb. cbn [default]. repeat split; try done.
    intros c. rewrite map_lookup_imap. unfold id.
    by destruct (Traffic.countries b !! c).
Qed.

Lemma time_series_mirrors_buckets_witness :
  ∃ e,
    Summary.summarize Sample.after_failures = Some e
    ∧ Summary.timestamp <$> Summary.time_series e = [Sample.minute0]
    ∧ NoDup (Summary.timestamp <$> Summary.time_series e).
Proof.
  destruct (Summary.summarize Sample.after_failures) as [e|] eqn:Hsum;
    [|vm_compute in Hsum; discriminate].
  exists e. split; [reflexivity|].
  pose proof (time_series_mirrors_buckets _ _ Hsum) as (_ & Hnd & _).
  split; [|exact Hnd].
  vm_compute in Hsum. injection Hsum as <-. reflexivity.
Defined.

(** ** Sorted entries and top cities *)

Section SortedFacts.
Import Countries.

Global Instance by_count_desc_trans : Transitive by_count_desc.
Proof. intros a b c. unfold by_count_desc. lia. Qed.

Global Instance by_count_desc_total : Total by_count_desc.
Proof. intros a b. unfold by_count_desc. lia. Qed.

Global Instance by_hits_desc_trans : Transitive BotGeo.by_hits_desc.
Proof. intros a b c. unfold BotGeo.by_hits_desc. lia. Qed.

Global Instance by_hits_desc_total : Total BotGeo.by_hits_desc.
Proof. intros a b. unfold BotGeo.by_hits_desc. lia. Qed.

(** The sorted entries: descending counts, every code once. *)
Lemma sorted_by_count_sorted (counts : gmap string nat) (total : nat) :
  StronglySorted by_count_desc (sorted_by_count (with_names counts total))
  ∧ NoDup (sorted_by_count (with_names counts total)).*1.
Proof.
  split.
  - apply StronglySorted_merge_sort; apply _.
  - rewrite sorted_by_count_Permutation. apply NoDup_fst_map_to_list.
Qed.

(** The first [k] of a list sorted by [R]: no element left out comes
    before one that is kept. *)
Lemma take_sorted_top {A} (R : relation A) (k : nat) (l : list A) (x y : A) :
  StronglySorted R l → x ∈ take k l → y ∈ l → y ∉ take k l →
  length (take k l) = k ∧ R x y.
Proof.
  intros Hsorted Hx Hy Hny.
  rewrite <- (take_drop k l) in Hy, Hsorted.
  apply elem_of_app in Hy as [Hy|Hy]; [done|].
  split.
  - rewrite length_take. apply Nat.min_l.
    destruct (decide (k ≤ length l)) as [|Hlt]; [done|].
    rewrite drop_ge in Hy by lia. by apply elem_of_nil in Hy.
  - by eapply StronglySorted_app_1_elem_of.
Qed.

End SortedFacts.

(** X10. The country totals of the traffic summary and the countries of an
    enriched bot are listed by descending count, and no country code is
    listed twice. *)
Theorem countries_listed_by_descending_count :
  (∀ st : Traffic.state,
      StronglySorted Countries.by_count_desc (Traffic.sortedCountryTotals st)
      ∧ NoDup (Traffic.sortedCountryTotals st).*1)
  ∧ (∀ (geoip : BotGeo.capability) (p : BotGeo.progress) (b : BotGeo.bot),
      ∃ b' p' g,
        BotGeo.enrich_bot geoip p b = Ok (b', p')
        ∧ BotGeo.bot_geo b' = Some g
        ∧ StronglySorted Countries.by_count_desc (BotGeo.countries g)
        ∧ NoDup (BotGeo.countries g).*1).
Proof.
  split.
  - intros st. apply sorted_by_count_sorted.
  - intros geoip p b. unfold BotGeo.enrich_bot.
    destruct (lookup_ips_ok geoip (BotGeo.ips b) (BotGeo.no_counts, p))
      as (acc & -> & _).
    cbn [bind]. eexists _, _, _. split; [done|]. split; [done|].
    cbn [BotGeo.countries]. apply sorted_by_count_sorted.
Qed.

(** X11. The top cities of an enriched bot are at most ten entries of its
    city counters, each city once with its own count, in descending order
    of count; a city that is left out means that ten are listed, none of
    them with a smaller count. *)
Theorem top_cities_are_the_ten_largest (geoip : BotGeo.capability)
    (p : BotGeo.progress) (b : BotGeo.bot) :
  ∃ acc b' p' g,
    BotGeo.lookup_ips geoip (BotGeo.no_counts, p) (BotGeo.ips b) = Ok acc
    ∧ BotGeo.enrich_bot geoip p b = Ok (b', p')
    ∧ BotGeo.bot_geo b' = Some g
    ∧ length (BotGeo.top_cities g) ≤ 10
    ∧ StronglySorted BotGeo.by_hits_desc (BotGeo.top_cities g)
    ∧ NoDup (BotGeo.top_cities g).*1
    ∧ (∀ city n, (city, n) ∈ BotGeo.top_cities g →
         BotGeo.cityCounts acc.1 !! city = Some n)
    ∧ (∀ city n, BotGeo.cityCounts acc.1 !! city = Some n →
         (city, n) ∉ BotGeo.top_cities g →
         length (BotGeo.top_cities g) = 10
         ∧ ∀ e, e ∈ BotGeo.top_cities g → n ≤ e.2).
Proof.
  unfold BotGeo.enrich_bot.
  destruct (lookup_ips_ok geoip (BotGeo.ips b) (BotGeo.no_counts, p))
    as (acc & Hacc & _).
  rewrite Hacc. cbn [bind]. eexists acc, _, _, _.
  split; [done|]. split; [done|]. split; [done|].
  cbn [BotGeo.top_cities].
  set (l := merge_sort BotGeo.by_hits_desc
              (map_to_list (BotGeo.cityCounts acc.1))).
  assert (Hsorted : StronglySorted BotGeo.by_hits_desc l)
    by (apply StronglySorted_merge_sort; apply _).
  assert (Hperm : l ≡ₚ map_to_list (BotGeo.cityCounts acc.1))
    by apply merge_sort_Permutation.
  assert (Hnd : NoDup l.*1).
  { rewrite Hperm. apply NoDup_fst_map_to_list. }
  split; [rewrite length_take; lia|]. split.
  { rewrite <- (take_drop 10 l) in Hsorted.
    by apply StronglySorted_app_1_l in Hsorted. }
  split.
  { rewrite <- (take_drop 10 l), fmap_app in Hnd.
    by apply NoDup_app in Hnd as [Hnd _]. }
  split.
  - intros city n Hin. apply elem_of_map_to_list. rewrite <- Hperm.
    eapply elem_of_sublist; [exact Hin | apply sublist_take].
  - intros city n Hn Hout.
    assert (Hin : (city, n) ∈ l).
    { rewrite Hperm. by apply elem_of_map_to_list. }
    split.
    + rewrite length_take. apply Nat.min_l.
      destruct (decide (10 ≤ length l)) as [|Hlt]; [done|].
      rewrite take_ge in Hout by lia. done.
    + intros e He.
      by destruct (take_sorted_top _ 10 l e (city, n) Hsorted He Hin Hout).
Qed.

(** ** The counters of the bot enrichment *)

Section BotCounterFacts.
Import BotGeo BotTotals.

Lemma totalIPs_fold (botSummary : list (string * bot)) (a : nat) :
  fold_left (λ total x, total + length (ips x.2)) botSummary a
  = a + length (all_ips botSummary).
Proof.
  unfold all_ips. revert a.
  induction botSummary as [|x rest IH]; intros a; cbn [fold_left fmap list_fmap concat].
  - cbn. lia.
  - rewrite IH, length_app. lia.
Qed.

Lemma failed_calls_cons (geoip : capability) (first : nat) (ip : string)
    (rest : list string) :
  failed_calls geoip first (ip :: rest)
  = (if decide (Geo.failed (geoip first ip)) then 1 else 0)
    + failed_calls geoip (S first) rest.
Proof.
  unfold failed_calls. cbn [length seq zip zip_with].
  rewrite filter_cons. cbn [fst snd]. by case_decide.
Qed.

Lemma failed_calls_app (geoip : capability) (first : nat) (l1 l2 : list string) :
  failed_calls geoip first (l1 ++ l2)
  = failed_calls geoip first l1 + failed_calls geoip (first + length l1) l2.
Proof.
  revert first. induction l1 as [|ip l1 IH]; intros first.
  - cbn [app length]. rewrite Nat.add_0_r. done.
  - cbn [app]. rewrite !failed_calls_cons, IH. cbn [length].
    replace (S first + length l1) with (first + S (length l1)) by lia. lia.
Qed.

Lemma lookup_ip_failed (geoip : capability) (acc acc' : counts * progress)
    (ip : string) :
  lookup_ip geoip acc ip = Ok acc' →
  failedLookups acc'.2
  = failedLookups acc.2
    + (if decide (Geo.failed (geoip (S (processedIPs acc.2)) ip)) then 1 else 0).
Proof.
  unfold lookup_ip. cbn [processedIPs].
  destruct (geoip (S (processedIPs acc.2)) ip) as [[g|]|reason];
    cbn [await bind try_catch]; intros [= <-];
    cbn [snd count_unknown failedLookups Geo.failed]; case_decide; try done; lia.
Qed.

Lemma lookup_ips_failed (geoip : capability) (ips : list string)
    (acc acc' : counts * progress) :
  lookup_ips geoip acc ips = Ok acc' →
  failedLookups acc'.2
  = failedLookups acc.2 + failed_calls geoip (S (processedIPs acc.2)) ips
  ∧ processedIPs acc'.2 = processedIPs acc.2 + length ips.
Proof.
  revert acc. induction ips as [|ip ips IH]; intros acc; cbn [lookup_ips].
  - intros [= <-]. unfold failed_calls. cbn. lia.
  - destruct (lookup_ip_ok geoip acc ip) as (acc1 & Hacc1 & _ & Hp1).
    rewrite Hacc1. cbn [bind]. intros Hrest.
    destruct (IH _ Hrest) as [Hf Hp].
    rewrite failed_calls_cons, Hf, Hp, Hp1.
    rewrite (lookup_ip_failed _ _ _ _ Hacc1). cbn [length]. lia.
Qed.

Lemma enrich_bots_counters (geoip : capability)
    (botSummary out : list (string * bot)) (p p' : progress) :
  enrich_bots geoip p botSummary = Ok (out, p') →
  processedIPs p' = processedIPs p + length (all_ips botSummary)
  ∧ failedLookups p'
    = failedLookups p
      + failed_calls geoip (S (processedIPs p)) (all_ips botSummary).
Proof.
  revert out p. induction botSummary as [|[botName b] rest IH]; intros out p;
    cbn [enrich_bots].
  - intros [= <- <-]. unfold all_ips, failed_calls. cbn. lia.
  - unfold enrich_bot at 1.
    destruct (lookup_ips geoip (no_counts, p) (ips b)) as [acc|] eqn:Hacc;
      cbn [bind fst snd]; [|done].
    destruct (enrich_bots geoip acc.2 rest) as [[out' p1]|] eqn:Hrest;
      cbn [bind fst snd]; [|done].
    intros [= <- <-].
    destruct (lookup_ips_failed _ _ _ _ Hacc) as [Hf Hp].
    destruct (IH _ _ Hrest) as [Hp1 Hf1]. cbn [fst snd] in Hf, Hp.
    unfold all_ips in *. cbn [fmap list_fmap concat snd].
    rewrite length_app, failed_calls_app. rewrite Hp1, Hf1, Hf, Hp.
    split; [lia|].
    replace (S (processedIPs p + length (ips b)))
      with (S (processedIPs p) + length (ips b)) by lia.
    lia.
Qed.

Lemma failed_calls_le (geoip : capability) (first : nat) (l : list string) :
  failed_calls geoip first l ≤ length l.
Proof.
  unfold failed_calls. etrans; [apply length_filter|].
  rewrite length_zip_with, length_seq. lia.
Qed.

End BotCounterFacts.

(** X12. When the enrichment is done, the counter of processed IPs is the
    total announced at the start (the sum of the lengths of the IP lists),
    and the counter of failed lookups is the number of calls, numbered in
    the order of the lists, that threw or returned no result; so it never
    exceeds the processed IPs. *)
Theorem enrichment_counters (geoip : BotGeo.capability)
    (botSummary : list (string * BotGeo.bot)) :
  ∃ out p,
    BotGeo.main geoip botSummary = Ok (out, p)
    ∧ BotGeo.processedIPs p = BotTotals.totalIPs botSummary
    ∧ BotGeo.failedLookups p
      = BotTotals.failed_calls geoip 1 (BotTotals.all_ips botSummary)
    ∧ BotGeo.failedLookups p ≤ BotGeo.processedIPs p.
Proof.
  destruct (main_returns geoip botSummary) as [[out p] Hmain].
  exists out, p. split; [done|].
  unfold BotGeo.main in Hmain.
  destruct (enrich_bots_counters _ _ _ _ _ Hmain) as [Hp Hf].
  cbn [BotGeo.processedIPs BotGeo.failedLookups Nat.add] in Hp, Hf.
  unfold BotTotals.totalIPs. rewrite totalIPs_fold. cbn [Nat.add].
  split; [done|]. split; [done|].
  rewrite Hf, Hp. apply failed_calls_le.
Qed.

(** ** Minute keys *)

Section MinuteKeyFacts.
Import MinuteKey.

Lemma toString_four (n : nat) : 1000 ≤ n < 10 * 1000 → toString n = four n.
Proof.
  intros Hn.
  assert (Hall : forallb (λ n, String.eqb (toString n) (four n)) (seq 1000 (9 * 1000)) = true)
    by (vm_compute; reflexivity).
  rewrite forallb_forall in Hall. apply String.eqb_eq, Hall, in_seq. lia.
Qed.
Lemma pad_two (n : nat) : n < 100 → pad n = two n.
Proof.
  intros Hn.
  assert (Hall : forallb (λ n, String.eqb (pad n) (two n)) (seq 0 100) = true)
    by (vm_compute; reflexivity).
  rewrite forallb_forall in Hall. apply String.eqb_eq, Hall, in_seq. lia.
Qed.
Lemma digit_compare (a b : nat) : a < 10 → b < 10 →
  Ascii.compare (digit a) (digit b) = Nat.compare a b.
Proof.
  intros Ha Hb.
  assert (Hall : forallb (λ a, forallb (λ b,
            match Ascii.compare (digit a) (digit b), Nat.compare a b with
            | Eq, Eq | Lt, Lt | Gt, Gt => true | _, _ => false end) (seq 0 10)) (seq 0 10) = true)
    by (vm_compute; reflexivity).
  rewrite forallb_forall in Hall.
  specialize (Hall a ltac:(apply in_seq; lia)).
  rewrite forallb_forall in Hall.
  specialize (Hall b ltac:(apply in_seq; lia)).
  by destruct (Ascii.compare (digit a) (digit b)), (Nat.compare a b).
Qed.
Lemma lex_base (a1 a2 b1 b2 : nat) (r : comparison) :
  b1 < 10 → b2 < 10 →
  lex (Nat.compare a1 a2) (lex (Nat.compare b1 b2) r)
  = lex (Nat.compare (a1 * 10 + b1) (a2 * 10 + b2)) r.
Proof.
  intros H1 H2.
  destruct (Nat.compare_spec a1 a2) as [->|Hlt|Hgt]; cbn [lex].
  - destruct (Nat.compare_spec b1 b2) as [->|Hlt|Hgt]; cbn [lex].
    + by rewrite Nat.compare_refl.
    + by rewrite (proj2 (Nat.compare_lt_iff _ _)) by lia.
    + by rewrite (proj2 (Nat.compare_gt_iff _ _)) by lia.
  - by rewrite (proj2 (Nat.compare_lt_iff _ _)) by lia.
  - by rewrite (proj2 (Nat.compare_gt_iff _ _)) by lia.
Qed.
Lemma compare_cons (a b : ascii) (s t : string) :
  String.compare (String a s) (String b t) = lex (Ascii.compare a b) (String.compare s t).
Proof. reflexivity. Qed.

Lemma lex_Eq_r (c : comparison) : lex c Eq = c.
Proof. by destruct c. Qed.

Lemma two_compare (n1 n2 : nat) (r : comparison) :
  n1 < 100 → n2 < 100 →
  lex (Ascii.compare (digit (n1 / 10)) (digit (n2 / 10)))
    (lex (Ascii.compare (digit (n1 mod 10)) (digit (n2 mod 10))) r)
  = lex (Nat.compare n1 n2) r.
Proof.
  intros H1 H2.
  pose proof (Nat.mod_upper_bound n1 10 ltac:(lia)).
  pose proof (Nat.mod_upper_bound n2 10 ltac:(lia)).
  rewrite !digit_compare by (try done; apply Nat.Div0.div_lt_upper_bound; lia).
  rewrite lex_base by done.
  rewrite (Nat.mul_comm (n1 / 10)), (Nat.mul_comm (n2 / 10)).
  by rewrite <- !Nat.div_mod_eq.
Qed.

Lemma four_compare (n1 n2 : nat) (r : comparison) :
  n1 < 10 * 1000 → n2 < 10 * 1000 →
  lex (Ascii.compare (digit (n1 / 1000)) (digit (n2 / 1000)))
    (lex (Ascii.compare (digit (n1 / 100 mod 10)) (digit (n2 / 100 mod 10)))
      (lex (Ascii.compare (digit (n1 / 10 mod 10)) (digit (n2 / 10 mod 10)))
        (lex (Ascii.compare (digit (n1 mod 10)) (digit (n2 mod 10))) r)))
  = lex (Nat.compare n1 n2) r.
Proof.
  intros H1 H2.
  assert (Hm : ∀ n, n mod 10 < 10) by (intros n; apply Nat.mod_upper_bound; lia).
  rewrite !digit_compare
    by (try apply Hm; apply Nat.Div0.div_lt_upper_bound; lia).
  assert (Hd : ∀ n k, n / (k * 10) * 10 + n / k mod 10 = n / k).
  { intros n k. rewrite <- Nat.Div0.div_div.
    rewrite (Nat.mul_comm (n / k / 10)). by rewrite <- Nat.div_mod_eq. }
  assert (Ha : ∀ n, n / 1000 * 10 + n / 100 mod 10 = n / 100)
    by (intros n; exact (Hd n 100)).
  assert (Hb : ∀ n, n / 100 * 10 + n / 10 mod 10 = n / 10)
    by (intros n; exact (Hd n 10)).
  assert (Hc : ∀ n, n / 10 * 10 + n mod 10 = n).
  { intros n. rewrite (Nat.mul_comm (n / 10)). by rewrite <- Nat.div_mod_eq. }
  rewrite lex_base, !Ha by apply Hm.
  rewrite lex_base, !Hb by apply Hm.
  rewrite lex_base, !Hc by apply Hm.
  done.
Qed.

Lemma append_cons (c : ascii) (s t : string) :
  String c s +:+ t = String c (s +:+ t).
Proof. reflexivity. Qed.

Lemma append_nil (t : string) : "" +:+ t = t.
Proof. reflexivity. Qed.

End MinuteKeyFacts.

(** X14. For dates with a year of four digits, minute keys compare as
    strings the way their minutes compare in time: the key order is the
    chronological order, two dates have the same key exactly when they
    agree on year, month, day, hour and minute, and every key has 19
    characters. *)
Theorem minute_keys_order_as_time (d1 d2 : MinuteKey.Date) :
  MinuteKey.valid d1 → MinuteKey.valid d2 →
  String.compare (MinuteKey.formatMinuteKey d1) (MinuteKey.formatMinuteKey d2)
  = MinuteKey.chronological d1 d2
  ∧ (Traffic.string_le (MinuteKey.formatMinuteKey d1) (MinuteKey.formatMinuteKey d2)
     ↔ MinuteKey.chronological d1 d2 ≠ Gt)
  ∧ (MinuteKey.formatMinuteKey d1 = MinuteKey.formatMinuteKey d2 ↔ d1 = d2)
  ∧ String.length (MinuteKey.formatMinuteKey d1) = 19.
Proof.
  intros (Hy1 & Hm1 & Hd1 & Hh1 & Hi1) (Hy2 & Hm2 & Hd2 & Hh2 & Hi2).
  assert (Hcmp : String.compare (MinuteKey.formatMinuteKey d1)
                   (MinuteKey.formatMinuteKey d2)
                 = MinuteKey.chronological d1 d2).
  { unfold MinuteKey.formatMinuteKey, MinuteKey.chronological.
    rewrite !toString_four by lia.
    rewrite !pad_two by lia.
    unfold MinuteKey.four, MinuteKey.two. rewrite !append_cons, !append_nil.
    rewrite !compare_cons.
    rewrite !ascii_compare_refl.
    cbn [MinuteKey.lex String.compare].
    rewrite four_compare by lia.
    rewrite !two_compare by lia.
    rewrite lex_Eq_r.
    by rewrite !Nat.add_1_r, Nat.compare_succ. }
  split; [exact Hcmp|]. split; [by rewrite string_le_alt, Hcmp|]. split.
  - split.
    + intros Hkey.
      assert (Heq : MinuteKey.chronological d1 d2 = Eq).
      { rewrite <- Hcmp, Hkey. clear.
        induction (MinuteKey.formatMinuteKey d2) as [|c s IH]; [done|].
        cbn [String.compare]. by rewrite ascii_compare_refl. }
      unfold MinuteKey.chronological in Heq.
      destruct d1 as [y1 m1 a1 h1 i1], d2 as [y2 m2 a2 h2 i2].
      cbn [MinuteKey.getFullYear MinuteKey.getMonth MinuteKey.getDate
           MinuteKey.getHours MinuteKey.getMinutes] in Heq.
      destruct (Nat.compare_spec y1 y2) as [->| |]; [|done|done].
      destruct (Nat.compare_spec m1 m2) as [->| |]; [|done|done].
      destruct (Nat.compare_spec a1 a2) as [->| |]; [|done|done].
      destruct (Nat.compare_spec h1 h2) as [->| |]; [|done|done].
      cbn [MinuteKey.lex] in Heq. by apply Nat.compare_eq_iff in Heq as ->.
    + by intros ->.
  - unfold MinuteKey.formatMinuteKey.
    rewrite !toString_four by lia.
    rewrite !pad_two by lia.
    reflexivity.
Qed.

Lemma minute_keys_order_as_time_witness :
  MinuteKey.valid (MinuteKey.mk_date 2025 9 10 0 0)
  ∧ MinuteKey.valid (MinuteKey.mk_date 2025 10 2 23 59)
  ∧ MinuteKey.formatMinuteKey (MinuteKey.mk_date 2025 9 10 0 0)
    = "2025-10-10T00:00:00"
  ∧ String.compare (MinuteKey.formatMinuteKey (MinuteKey.mk_date 2025 9 10 0 0))
      (MinuteKey.formatMinuteKey (MinuteKey.mk_date 2025 10 2 23 59))
    = Lt.
Proof.
  assert (H1 : MinuteKey.valid (MinuteKey.mk_date 2025 9 10 0 0))
    by (unfold MinuteKey.valid; cbn; lia).
  assert (H2 : MinuteKey.valid (MinuteKey.mk_date 2025 10 2 23 59))
    by (unfold MinuteKey.valid; cbn; lia).
  split; [exact H1|]. split; [exact H2|]. split; [vm_compute; reflexivity|].
  rewrite (proj1 (minute_keys_order_as_time _ _ H1 H2)). reflexivity.
Defined.

(** ** Country names *)

Section NameFacts.
Import Countries.

Lemma lookup_name_None (table : list (string * string)) (c : string) :
  c ∉ table.*1 → lookup_name table c = None.
Proof.
  induction table as [|[c' n] table IH]; intros Hc; [done|].
  cbn [lookup_name]. cbn [fmap list_fmap fst] in Hc.
  apply not_elem_of_cons in Hc as [Hne Hc].
  destruct (String.eqb_spec c' c) as [->|_]; [done|]. by apply IH.
Qed.

End NameFacts.

(** X13. No country code is listed twice in the table of names, and every
    listed code is given its listed name, which is never empty. A code
    that is not listed is returned as it is, "Unknown" for one, unless it
    names a member of [Object.prototype], such as "constructor" or
    "toString": none of these is listed, and for them the inherited member
    is returned, not a string. *)
Theorem country_names_lookup :
  NoDup Countries.COUNTRY_NAMES.*1
  ∧ (∀ c n, (c, n) ∈ Countries.COUNTRY_NAMES →
       Countries.getCountryName_value c = Countries.Text n
       ∧ Countries.getCountryName c = n
       ∧ n ≠ "")
  ∧ (∀ c, c ∉ Countries.COUNTRY_NAMES.*1 → c ∉ Js.Object_prototype →
       Countries.getCountryName_value c = Countries.Text c
       ∧ Countries.getCountryName c = c)
  ∧ (∀ c, c ∈ Js.Object_prototype →
       (c ∉ Countries.COUNTRY_NAMES.*1)
       ∧ Countries.getCountryName_value c = Countries.Inherited c)
  ∧ (∀ c, c ∉ Js.Object_prototype →
       Countries.getCountryName_value c
       = Countries.Text (Countries.getCountryName c))
  ∧ Countries.getCountryName_value "Unknown" = Countries.Text "Unknown".
Proof.
  assert (Hplain : ∀ c, c ∉ Js.Object_prototype →
            Countries.getCountryName_value c
            = Countries.Text (Countries.getCountryName c)).
  { intros c Hc. unfold Countries.getCountryName_value, Countries.getCountryName.
    destruct (Countries.lookup_name Countries.COUNTRY_NAMES c) as [n|].
    - by destruct (String.eqb n "").
    - by rewrite bool_decide_eq_false_2. }
  split; [|split; [|split; [|split; [|split]]]].
  - assert (Hnd : bool_decide (NoDup Countries.COUNTRY_NAMES.*1) = true)
      by (vm_compute; reflexivity).
    by apply bool_decide_eq_true in Hnd.
  - intros c n Hin.
    assert (Hall : forallb
              (λ x, String.eqb (Countries.getCountryName x.1) x.2
                    && negb (String.eqb x.2 "")
                    && negb (bool_decide (x.1 ∈ Js.Object_prototype)))
              Countries.COUNTRY_NAMES = true) by (vm_compute; reflexivity).
    rewrite forallb_forall in Hall.
    specialize (Hall (c, n) (proj1 (list_elem_of_In _ _) Hin)).
    cbn [fst snd] in Hall.
    apply andb_true_iff in Hall as [[Hname Hne]%andb_true_iff Hproto].
    apply String.eqb_eq in Hname.
    apply negb_true_iff, bool_decide_eq_false in Hproto.
    split; [by rewrite Hplain, Hname|]. split; [done|].
    intros ->. by rewrite String.eqb_refl in Hne.
  - intros c Hc Hproto.
    assert (Hname : Countries.getCountryName c = c).
    { unfold Countries.getCountryName. by rewrite lookup_name_None. }
    split; [by rewrite Hplain, Hname | done].
  - intros c Hc.
    assert (Hall : forallb
              (λ c, bool_decide (c ∉ Countries.COUNTRY_NAMES.*1))
              Js.Object_prototype = true) by (vm_compute; reflexivity).
    rewrite forallb_forall in Hall.
    specialize (Hall c (proj1 (list_elem_of_In _ _) Hc)).
    apply bool_decide_eq_true in Hall. split; [done|].
    unfold Countries.getCountryName_value.
    by rewrite lookup_name_None, bool_decide_eq_true_2.
  - exact Hplain.
  - vm_compute. reflexivity.
Qed.

Lemma country_names_lookup_witness :
  ("BR", "Brazil") ∈ Countries.COUNTRY_NAMES
  ∧ Countries.getCountryName "BR" = "Brazil"
  ∧ ("ZZ" ∉ Countries.COUNTRY_NAMES.*1)
  ∧ ("ZZ" ∉ Js.Object_prototype)
  ∧ Countries.getCountryName_value "ZZ" = Countries.Text "ZZ"
  ∧ ("toString" ∈ Js.Object_prototype)
  ∧ Countries.getCountryName_value "toString" = Countries.Inherited "toString".
Proof.
  assert (Hin : ("BR", "Brazil") ∈ Countries.COUNTRY_NAMES).
  { assert (Hb : bool_decide (("BR", "Brazil") ∈ Countries.COUNTRY_NAMES) = true)
      by (vm_compute; reflexivity).
    by apply bool_decide_eq_true in Hb. }
  assert (Hout : "ZZ" ∉ Countries.COUNTRY_NAMES.*1).
  { assert (Hb : bool_decide ("ZZ" ∉ Countries.COUNTRY_NAMES.*1) = true)
      by (vm_compute; reflexivity).
    by apply bool_decide_eq_true in Hb. }
  assert (Hplain : "ZZ" ∉ Js.Object_prototype).
  { assert (Hb : bool_decide ("ZZ" ∉ Js.Object_prototype) = true)
      by (vm_compute; reflexivity).
    by apply bool_decide_eq_true in Hb. }
  assert (Hproto : "toString" ∈ Js.Object_prototype).
  { assert (Hb : bool_decide ("toString" ∈ Js.Object_prototype) = true)
      by (vm_compute; reflexivity).
    by apply bool_decide_eq_true in Hb. }
  destruct country_names_lookup as (_ & Hlisted & Hother & Hmember & _).
  split; [exact Hin|]. split; [exact (proj1 (proj2 (Hlisted _ _ Hin)))|].
  split; [exact Hout|]. split; [exact Hplain|].
  split; [exact (proj1 (Hother _ Hout Hplain))|].
  split; [exact Hproto | exact (proj2 (Hmember _ Hproto))].
Defined.

(** ** More on downsampling *)

Section DownsampleMore.
Context {Row : Type} (average : list Row → Row).
Import DownsampleSpec.

(** For a positive target the output never has more rows than the
    target. *)
Lemma downsample_with_length_le (data : list Row) (targetPoints : nat) :
  0 < targetPoints →
  length (downsample_with average data targetPoints) ≤ targetPoints.
Proof.
  intros Hpos.
  destruct (decide (length data ≤ targetPoints)) as [Hle|Hgt].
  - unfold downsample_with. by rewrite decide_True.
  - rewrite downsample_with_windows by lia. rewrite length_fmap.
    unfold windowSize, Js.Math_ceil_div.
    destruct targetPoints as [|t]; [lia|]. cbn [windows].
    fold (ceil_div (length data) (S t)).
    rewrite windows_upto_length.
    + by apply ceil_div_ceil_div_le.
    + unfold ceil_div. apply Nat.div_str_pos. lia.
    + done.
Qed.

(** With target 0 the ratio is [Infinity]: all rows fall into one chunk. *)
Lemma downsample_with_zero (data : list Row) :
  data ≠ [] → downsample_with average data 0 = [average data].
Proof.
  intros Hne.
  assert (Hlen : 0 < length data) by (destruct data; [done | cbn; lia]).
  rewrite downsample_with_windows by done.
  unfold windowSize, Js.Math_ceil_div. cbn [windows].
  by destruct data.
Qed.

End DownsampleMore.

(** X15. Downsampling to a positive target is idempotent: its output has
    at most the target number of rows, so downsampling it again to the same
    target returns it as it is. *)
Theorem downsample_idempotent :
  (∀ (Row : Type) (average : list Row → Row) (data : list Row) (targetCount : nat),
      0 < targetCount →
      downsample_with average (downsample_with average data targetCount) targetCount
      = downsample_with average data targetCount)
  ∧ (∀ (data : list (list Js.number)) (targetCount : nat),
      0 < targetCount →
      IpLocation.downsample (IpLocation.downsample data targetCount) targetCount
      = IpLocation.downsample data targetCount)
  ∧ (∀ (data : list BotVsBrowser.row) (targetCount : nat),
      0 < targetCount →
      BotVsBrowser.downsample (BotVsBrowser.downsample data targetCount) targetCount
      = BotVsBrowser.downsample data targetCount).
Proof.
  assert (Hgen : ∀ (Row : Type) (average : list Row → Row) (data : list Row)
            (targetCount : nat),
            0 < targetCount →
            downsample_with average (downsample_with average data targetCount)
              targetCount
            = downsample_with average data targetCount).
  { intros Row average data targetCount Hpos.
    pose proof (downsample_with_length_le average data targetCount Hpos) as Hle.
    unfold downsample_with at 1. by rewrite decide_True. }
  split; [exact Hgen|]. split; intros data targetCount; apply Hgen.
Qed.

Lemma downsample_idempotent_witness :
  0 < 2
  ∧ IpLocation.downsample (IpLocation.downsample series_2col 2) 2
    = IpLocation.downsample series_2col 2.
Proof.
  assert (Hpos : 0 < 2) by lia.
  split; [exact Hpos|].
  exact (proj1 (proj2 downsample_idempotent) series_2col 2 Hpos).
Defined.

(** X16. On rows that all have the same width, the generic [downsample]
    returns rows of that width, whatever the target, and returns no row
    only for an input without rows. *)
Theorem downsample_keeps_width (data : list (list Js.number))
    (targetCount width : nat) :
  Forall (λ row, length row = width) data →
  Forall (λ row, length row = width) (IpLocation.downsample data targetCount)
  ∧ (IpLocation.downsample data targetCount = [] ↔ data = []).
Proof.
  intros Hwidth. unfold IpLocation.downsample.
  destruct (decide (length data ≤ targetCount)) as [Hle|Hgt].
  - unfold downsample_with. by rewrite decide_True.
  - assert (Hlt : targetCount < length data) by lia.
    rewrite downsample_with_windows by done.
    pose proof (windowSize_pos _ _ Hlt) as Hpos.
    set (w := DownsampleSpec.windowSize (length data) targetCount) in *.
    split.
    + apply Forall_fmap, Forall_forall. intros win Hwin. cbn.
      rewrite (avgEntry_window_row width).
      * unfold DownsampleSpec.window_row. by rewrite length_fmap, length_seq.
      * by eapply windows_nonempty.
      * apply Forall_forall. intros row Hrow.
        rewrite Forall_forall in Hwidth. apply Hwidth.
        by eapply windows_subset.
    + split.
      * intros Hnil. apply fmap_nil_inv in Hnil.
        rewrite <- (windows_concat w data Hpos). by rewrite Hnil.
      * intros ->. cbn in Hlt. lia.
Qed.

Lemma downsample_keeps_width_witness :
  Forall (λ row, length row = 2) series_2col
  ∧ Forall (λ row, length row = 2) (IpLocation.downsample series_2col 2).
Proof.
  assert (Hw : Forall (λ row, length row = 2) series_2col)
    by (repeat constructor).
  split; [exact Hw|].
  exact (proj1 (downsample_keeps_width series_2col 2 2 Hw)).
Defined.

(** X17. With target 0 the division by zero makes the window infinite:
    any series with at least one row comes back as one single row, the
    average of all its rows, so one row more than the target; an empty
    series comes back empty for every target. *)
Theorem downsample_target_zero :
  (∀ (Row : Type) (average : list Row → Row) (data : list Row),
      data ≠ [] → downsample_with average data 0 = [average data])
  ∧ (∀ data : list (list Js.number),
      data ≠ [] → IpLocation.downsample data 0 = [IpLocation.avgEntry data])
  ∧ (∀ data : list BotVsBrowser.row,
      data ≠ [] → BotVsBrowser.downsample data 0 = [BotVsBrowser.avgRow data])
  ∧ (∀ (Row : Type) (average : list Row → Row) (targetCount : nat),
      downsample_with average [] targetCount = []).
Proof.
  split; [|split; [|split]].
  - intros Row average data. apply downsample_with_zero.
  - intros data. apply downsample_with_zero.
  - intros data. apply downsample_with_zero.
  - intros Row average targetCount. unfold downsample_with.
    rewrite decide_True; [done | cbn; lia].
Qed.

Lemma downsample_target_zero_witness :
  series_2col ≠ []
  ∧ IpLocation.downsample series_2col 0 = [[2; 25]]%float.
Proof.
  assert (Hne : series_2col ≠ []) by done.
  split; [exact Hne|].
  rewrite (proj1 (proj2 downsample_target_zero) series_2col Hne).
  vm_compute. reflexivity.
Defined.

(** ** The schedule in which every lookup settles before the next line *)

Section SerialFacts.
Import Traffic Tally.

Lemma first_seen_from_elem (seen ips : list string) (x : string) :
  x ∈ first_seen_from seen ips ↔ x ∈ seen ∨ x ∈ ips.
Proof.
  unfold first_seen_from. revert seen.
  induction ips as [|ip ips IH]; intros seen; cbn [fold_left].
  - split; [by left|]. intros [H|H]; [done|]. by apply elem_of_nil in H.
  - rewrite IH. destruct (decide (ip ∈ seen)) as [Hin|Hout].
    + rewrite elem_of_cons. split; [tauto|].
      intros [H|[->|H]]; tauto.
    + rewrite elem_of_app, list_elem_of_singleton, elem_of_cons. tauto.
Qed.

Lemma settle_keeps_lookups (st st' : state) (k : nat) (o : Geo.outcome) :
  step st (Settle k o) = Ok st' → lookups st' = lookups st.
Proof.
  intros Hstep.
  destruct (step_calls_and_minutes _ _ _ Hstep) as [(l & -> & Hsub) _].
  cbn in Hsub. apply sublist_nil_r in Hsub as ->. by rewrite app_nil_r.
Qed.

(** One line of the serial schedule: the lookup is called for the IP of
    the record if and only if it was not called before. *)
Lemma serial_pair_lookups (st st' : state) (l : line) (res : Geo.outcome) :
  settled st → cache_accounted st →
  run [Line l; Settle 0 res] st = Ok st' →
  lookups st' = first_seen_from (lookups st) (record_ips [Line l; Settle 0 res]).
Proof.
  intros (Haw & Hnd & Hcached) (_ & Hcalled & _) Hrun.
  cbn [run] in Hrun.
  destruct (step st (Line l)) as [st1|] eqn:H1; [|done]. cbn [bind] in Hrun.
  destruct (step st1 (Settle 0 res)) as [st2|] eqn:H2; [|done]. cbn [bind] in Hrun.
  injection Hrun as <-.
  rewrite (settle_keeps_lookups _ _ _ _ H2). clear H2.
  unfold first_seen_from.
  step_cases H1; cbn [record_ips omap list_omap fold_left]; try done.
  - rewrite decide_True; [done|]. apply Hcalled. eauto.
  - rewrite decide_False; [done|]. intros Hin.
    destruct (Hcached _ Hin) as [c Hc]. congruence.
Qed.

Lemma serial_run (input : list (line * Geo.outcome)) (st : state) :
  settled st → cache_accounted st →
  ∃ st', run (serial input) st = Ok st'
    ∧ settled st'
    ∧ lookups st' = first_seen_from (lookups st) (record_ips (serial input)).
Proof.
  revert st. induction input as [|[l o] input IH]; intros st Hst Hacc.
  - by exists st.
  - unfold serial. cbn [fmap list_fmap concat fst snd]. fold (serial input).
    rewrite run_app.
    destruct (serial_step_settled st l o Hst) as (st1 & H1 & Hst1).
    pose proof (serial_pair_lookups _ _ _ _ Hst Hacc H1) as Hl1.
    assert (Hacc1 : cache_accounted st1).
    { by eapply (run_invariant cache_accounted step_cache_accounted). }
    rewrite H1. cbn [bind].
    destruct (IH st1 Hst1 Hacc1) as (st' & Hrun & Hst' & Hl).
    exists st'. split; [done|]. split; [done|].
    rewrite Hl, Hl1. unfold first_seen_from, record_ips.
    change (?a :: ?b :: serial input) with ([a; b] ++ serial input).
    by rewrite omap_app, fold_left_app.
Qed.

End SerialFacts.

(** X18. When every lookup settles before the next line is handled, the
    run ends with no handler in flight; the lookup was called exactly once
    for every distinct IP of the records, in the order of their first
    occurrence; the cache holds exactly those IPs; and in every bucket the
    country counters sum to the requests. *)
Theorem serial_schedule_one_lookup_per_ip
    (input : list (Traffic.line * Geo.outcome)) :
  ∃ st,
    Traffic.run (Traffic.serial input) Traffic.init = Ok st
    ∧ Traffic.awaiting st = []
    ∧ Traffic.lookups st
      = Tally.first_seen (Tally.record_ips (Traffic.serial input))
    ∧ NoDup (Traffic.lookups st)
    ∧ (∀ ip, ip ∈ Traffic.lookups st
             ↔ ip ∈ Tally.record_ips (Traffic.serial input))
    ∧ dom (Traffic.ipCache st)
      = list_to_set (Tally.record_ips (Traffic.serial input))
    ∧ ∀ key b, Traffic.minuteData st !! key = Some b →
        Traffic.requests b = Js.sum_values (Traffic.countries b).
Proof.
  assert (Hst0 : Traffic.settled Traffic.init).
  { unfold Traffic.settled. cbn. split; [done|]. split; [constructor|].
    intros ip Hin. by apply elem_of_nil in Hin. }
  assert (Hacc0 : Tally.cache_accounted Traffic.init).
  { unfold Tally.cache_accounted. cbn. split; [|split]; intros x Hx.
    - by apply elem_of_nil in Hx.
    - rewrite lookup_empty in Hx. by destruct Hx.
    - by apply elem_of_nil in Hx. }
  destruct (serial_run input Traffic.init Hst0 Hacc0)
    as (st & Hrun & (Haw & Hnd & Hcached) & Hl).
  cbn [Traffic.init Traffic.lookups] in Hl.
  assert (Hacc : Tally.cache_accounted st).
  { by eapply (run_invariant Tally.cache_accounted step_cache_accounted). }
  destruct Hacc as (_ & Hcalled & _).
  assert (Helem : ∀ ip, ip ∈ Traffic.lookups st
                        ↔ ip ∈ Tally.record_ips (Traffic.serial input)).
  { intros ip. rewrite Hl, first_seen_from_elem. split; [|by right].
    intros [H|H]; [by apply elem_of_nil in H | done]. }
  exists st. repeat split; try done.
  - by apply Helem.
  - by apply Helem.
  - apply set_eq. intros ip.
    rewrite elem_of_dom, elem_of_list_to_set, <- Helem.
    split; [apply Hcalled | apply Hcached].
  - intros key b Hb.
    destruct (run_balanced (Traffic.serial input) Traffic.init balanced_init)
      as (st2 & Hrun2 & Hbal).
    rewrite Hrun in Hrun2. injection Hrun2 as <-.
    specialize (Hbal key). rewrite Hb in Hbal.
    unfold Traffic.in_flight in Hbal. rewrite Haw in Hbal. cbn in Hbal. lia.
Qed.

(** ** The series of the charts *)

Section ChartFacts.
Import IpChart.

Lemma downsample_with_length_data {Row : Type} (average : list Row → Row)
    (data : list Row) (targetPoints : nat) :
  0 < targetPoints →
  length (downsample_with average data targetPoints) ≤ length data.
Proof.
  intros Hpos.
  destruct (decide (length data ≤ targetPoints)) as [Hle|Hgt].
  - unfold downsample_with. by rewrite decide_True.
  - pose proof (downsample_with_length_le average data targetPoints Hpos). lia.
Qed.

Lemma downsample_with_short {Row : Type} (average : list Row → Row)
    (data : list Row) (targetPoints : nat) :
  length data ≤ targetPoints → downsample_with average data targetPoints = data.
Proof. intros Hle. unfold downsample_with. by rewrite decide_True. Qed.

Lemma color_defined (i : nat) : i < 11 → is_Some (COUNTRY_COLORS !! i).
Proof. intros Hi. apply lookup_lt_is_Some. cbn. lia. Qed.

Lemma color_undefined (i : nat) : 11 ≤ i → COUNTRY_COLORS !! i = None.
Proof. intros Hi. apply lookup_ge_None. cbn. lia. Qed.

(** With colours for all of them, every code gets its dataset: one point
    per sampled row, read from the column of the code. *)
Lemma country_datasets_ok (countries : gmap string string)
    (sampledData : list (list Js.number)) (codes : list string) (i : nat) :
  i + length codes ≤ 11 →
  ∃ ds, country_datasets countries sampledData i codes = Ok ds
    ∧ length ds = length codes
    ∧ ∀ j code, codes !! j = Some code →
        ∃ x, ds !! j = Some x
          ∧ label x = country_label countries code
          ∧ data x = (λ d, d !! (2 + (i + j))) <$> sampledData
          ∧ COUNTRY_COLORS !! (i + j) = Some (borderColor x).
Proof.
  revert i. induction codes as [|code codes IH]; intros i Hle.
  - exists []. split; [done|]. split; [done|]. intros j c Hj. done.
  - cbn [length] in Hle. cbn [country_datasets]. unfold country_dataset.
    destruct (color_defined i) as [color Hcolor]; [lia|]. rewrite Hcolor.
    cbn [bind].
    destruct (IH (S i)) as (ds & -> & Hlen & Hds); [lia|]. cbn [bind].
    eexists. split; [done|]. split; [cbn; by rewrite Hlen|].
    intros [|j] c Hj.
    + injection Hj as <-. eexists. split; [done|].
      rewrite Nat.add_0_r. by repeat split.
    + destruct (Hds j c Hj) as (x & Hx & Hlabel & Hdata & Hcol).
      exists x. split; [done|].
      replace (i + S j) with (S i + j) by lia. by repeat split.
Qed.

(** A twelfth code has no colour, and its callback throws. *)
Lemma country_datasets_throws (countries : gmap string string)
    (sampledData : list (list Js.number)) (codes : list string) (i : nat) :
  i ≤ 11 → 11 < i + length codes →
  ∃ what, country_datasets countries sampledData i codes = Throw (TypeError what).
Proof.
  revert i. induction codes as [|code codes IH]; intros i Hi Hlt.
  - cbn in Hlt. lia.
  - cbn [length] in Hlt. cbn [country_datasets]. unfold country_dataset.
    destruct (decide (i = 11)) as [->|Hne].
    + rewrite color_undefined by lia. cbn [bind]. eauto.
    + destruct (color_defined i) as [color Hcolor]; [lia|]. rewrite Hcolor.
      cbn [bind].
      destruct (IH (S i)) as (what & ->); [lia | lia |]. cbn [bind]. eauto.
Qed.

End ChartFacts.

(** X19. The two charts plot at most 500 points, with one label per point
    of every series. The country chart has one dataset per code of [top],
    in that order, and the dataset of the other countries last, as long as
    [top] has at most eleven codes; with a twelfth code there is no colour
    left, building the datasets throws and no chart is made. A series of at
    most 500 rows is plotted as it is, every dataset reading its own
    column. *)
Theorem chart_series_aligned :
  (∀ data : IpChart.TrafficSlimData,
      length (IpChart.top data) ≤ 11 →
      ∃ c, IpChart.chart_data data = Ok c
        ∧ length (IpChart.labels c) ≤ 500
        ∧ length (IpChart.labels c) ≤ length (IpChart.d data)
        ∧ length (IpChart.datasets c) = S (length (IpChart.top data))
        ∧ Forall (λ x, length (IpChart.data x) = length (IpChart.labels c))
            (IpChart.datasets c)
        ∧ (∃ x, last (IpChart.datasets c) = Some x ∧ IpChart.label x = "Other")
        ∧ (∀ i code, IpChart.top data !! i = Some code →
             ∃ x, IpChart.datasets c !! i = Some x
               ∧ IpChart.label x
                 = IpChart.country_label (IpChart.countries data) code
               ∧ (length (IpChart.d data) ≤ 500 →
                  IpChart.data x = (λ row, row !! (2 + i)) <$> IpChart.d data)))
  ∧ (∀ data : IpChart.TrafficSlimData,
      11 < length (IpChart.top data) →
      ∃ what, IpChart.chart_data data = Throw (TypeError what))
  ∧ (∀ (start : Js.number) (d : list BotVsBrowser.row),
      let s := BotVsBrowserChart.chart_series start d in
      length (BotVsBrowserChart.labels s) ≤ 500
      ∧ length (BotVsBrowserChart.labels s) ≤ length d
      ∧ length (BotVsBrowserChart.botData s) = length (BotVsBrowserChart.labels s)
      ∧ length (BotVsBrowserChart.browserData s)
        = length (BotVsBrowserChart.labels s)
      ∧ (length d ≤ 500 →
         BotVsBrowserChart.botData s = (λ r, r.1.2) <$> d
         ∧ BotVsBrowserChart.browserData s = (λ r, r.2) <$> d)).
Proof.
  assert (H500 : 0 < 500) by lia.
  split; [|split].
  - intros data Htop. unfold IpChart.chart_data.
    set (sampledData := IpLocation.downsample (IpChart.d data) 500).
    destruct (country_datasets_ok (IpChart.countries data) sampledData
                (IpChart.top data) 0) as (ds & -> & Hlen & Hds); [cbn; lia|].
    cbn [bind]. unfold IpChart.other_dataset. cbn [lookup list_lookup
      IpChart.COUNTRY_COLORS bind].
    eexists. split; [done|]. cbn [IpChart.labels IpChart.datasets].
    rewrite length_fmap.
    split; [apply downsample_with_length_le; lia|].
    split; [apply downsample_with_length_data; lia|].
    split; [rewrite length_app; cbn; lia|].
    split.
    { apply Forall_app. split.
      - apply Forall_forall. intros x Hx.
        apply list_elem_of_lookup in Hx as [j Hj].
        assert (Hjlt : j < length (IpChart.top data)).
        { rewrite <- Hlen. by eapply lookup_lt_Some. }
        destruct (lookup_lt_is_Some_2 _ _ Hjlt) as [code Hcode].
        destruct (Hds j code Hcode) as (x' & Hx' & _ & Hdata & _).
        rewrite Hj in Hx'. injection Hx' as <-.
        by rewrite Hdata, length_fmap.
      - apply Forall_singleton. cbn. by rewrite length_fmap. }
    split.
    { eexists. rewrite last_snoc. done. }
    intros i code Hi.
    destruct (Hds i code Hi) as (x & Hx & Hlabel & Hdata & _).
    exists x. split; [by apply lookup_app_l_Some|]. split; [done|].
    intros Hshort. rewrite Hdata. cbn.
    unfold sampledData, IpLocation.downsample.
    by rewrite downsample_with_short.
  - intros data Htop. unfold IpChart.chart_data.
    destruct (country_datasets_throws (IpChart.countries data)
                (IpLocation.downsample (IpChart.d data) 500)
                (IpChart.top data) 0) as (what & ->); [lia | cbn; lia |].
    cbn [bind]. eauto.
  - intros start d s. unfold s, BotVsBrowserChart.chart_series.
    cbn [BotVsBrowserChart.labels BotVsBrowserChart.botData
         BotVsBrowserChart.browserData].
    rewrite !length_fmap.
    split; [apply downsample_with_length_le; lia|].
    split; [apply downsample_with_length_data; lia|].
    split; [done|]. split; [done|].
    intros Hshort. unfold BotVsBrowser.downsample.
    by rewrite downsample_with_short.
Qed.

Lemma chart_series_aligned_witness :
  length (IpChart.top Sample.slim_data) ≤ 11
  ∧ ∃ c,
      IpChart.chart_data Sample.slim_data = Ok c
      ∧ length (IpChart.datasets c) = 3.
Proof.
  assert (Htop : length (IpChart.top Sample.slim_data) ≤ 11) by (cbn; lia).
  split; [exact Htop|].
  destruct (proj1 chart_series_aligned Sample.slim_data Htop)
    as (c & Hc & _ & _ & Hlen & _).
  exists c. split; [exact Hc | exact Hlen].
Defined.

(** ** The table of bots *)

Section TableFacts.
Import BotTable.

Global Instance table_by_count_desc_trans : Transitive BotTable.by_count_desc.
Proof. intros a b c. unfold BotTable.by_count_desc. lia. Qed.

Global Instance table_by_count_desc_total : Total BotTable.by_count_desc.
Proof. intros a b. unfold BotTable.by_count_desc. lia. Qed.

Lemma filter_sublist {A} (f : A → bool) (l : list A) :
  sublist (List.filter f l) l.
Proof.
  induction l as [|x l IH]; cbn [List.filter]; [constructor|].
  destruct (f x); by constructor.
Qed.

Lemma StronglySorted_weaken {A} (R R' : relation A) (l : list A) :
  (∀ a b, R a b → R' a b) → StronglySorted R l → StronglySorted R' l.
Proof.
  intros Himpl Hsorted. induction Hsorted as [|x l Hl IH Hx]; constructor.
  - exact IH.
  - eapply Forall_impl; [exact Hx|]. intros y. apply Himpl.
Qed.

Lemma toggleSort_same (key : sort_key) (v : view) :
  sortKey v = key →
  toggleSort key v
  = {| searchQuery := searchQuery v; sortKey := key;
       sortAsc := negb (sortAsc v) |}.
Proof. intros <-. unfold toggleSort. by rewrite decide_True. Qed.

Lemma toggleSort_other (key : sort_key) (v : view) :
  sortKey v ≠ key →
  toggleSort key v
  = {| searchQuery := searchQuery v; sortKey := key;
       sortAsc := bool_decide (key = ByName) |}.
Proof. intros Hne. unfold toggleSort. by rewrite decide_False. Qed.

Section Shown.
Context (toLowerCase : string → string) (includes : string → string → bool)
  (localeCompare : string → string → Z).

(** The rows before the sort depend on the query only. *)
Lemma filteredRows_Permutation (v : view) (rows : list BotRow) :
  filteredRows toLowerCase includes localeCompare v rows
  ≡ₚ (if String.eqb (searchQuery v) "" then rows
      else List.filter
             (matches toLowerCase includes (toLowerCase (searchQuery v))) rows).
Proof. unfold filteredRows. apply merge_sort_Permutation. Qed.

Lemma row_le_count_trans (v : view) :
  sortKey v = ByCount → Transitive (row_le localeCompare v).
Proof.
  intros Hkey a b c. unfold row_le. rewrite Hkey. destruct (sortAsc v); lia.
Qed.

Lemma row_le_count_total (v : view) :
  sortKey v = ByCount → Total (row_le localeCompare v).
Proof.
  intros Hkey a b. unfold row_le. rewrite Hkey. destruct (sortAsc v); lia.
Qed.

End Shown.

(** The scan of [cleanUrl], case by case: nothing left; an escape
    sequence dropped; one character kept. *)
Lemma cleanUrl_cases (P : string → string → Prop) :
  P EmptyString EmptyString →
  (∀ h1 h2 rest out,
      is_hex h1 = true → is_hex h2 = true → P rest out →
      P (String "\" (String "x" (String h1 (String h2 rest)))) out) →
  (∀ c tl out, P tl out → P (String c tl) (String c out)) →
  ∀ url, P url (cleanUrl url).
Proof.
  intros Hnil Hdrop Hkeep url.
  assert (Hgen : ∀ n url, String.length url ≤ n → P url (cleanUrl url)).
  { clear url. induction n as [|n IH]; intros url Hlen.
    - destruct url; [exact Hnil | cbn in Hlen; lia].
    - destruct url as [|c tl]; [exact Hnil|]. cbn [String.length] in Hlen.
      assert (Htl : P tl (cleanUrl tl)) by (apply IH; lia).
      destruct tl as [|x [|h1 [|h2 rest]]]; try (by apply Hkeep).
      change (cleanUrl (String c (String x (String h1 (String h2 rest)))))
        with (if Ascii.eqb c "\" && Ascii.eqb x "x" && is_hex h1 && is_hex h2
              then cleanUrl rest
              else String c (cleanUrl (String x (String h1 (String h2 rest))))).
      destruct (Ascii.eqb c "\") eqn:Hc; [|by apply Hkeep].
      destruct (Ascii.eqb x "x") eqn:Hx; [|by apply Hkeep].
      destruct (is_hex h1) eqn:H1; [|by apply Hkeep].
      destruct (is_hex h2) eqn:H2; [|by apply Hkeep].
      cbn [andb]. apply Ascii.eqb_eq in Hc as ->. apply Ascii.eqb_eq in Hx as ->.
      apply Hdrop; [done | done |]. apply IH. cbn [String.length] in Hlen. lia. }
  by apply (Hgen (String.length url)).
Qed.

End TableFacts.

(** X20. The table has one row per bot, in the order of the summary. The
    top countries of a row are at most five of the bot's countries, none
    more often than the bot has it, by descending count; a country that is
    left out means that five are listed, none of them with a smaller
    count. *)
Theorem table_rows_top_countries (bot_summary : list (string * BotGeo.bot)) :
  BotTable.name <$> BotTable.rows (Some bot_summary) = bot_summary.*1
  ∧ ∀ entry, entry ∈ bot_summary →
      BotTable.row entry ∈ BotTable.rows (Some bot_summary)
      ∧ length (BotTable.topCountries (BotTable.row entry)) ≤ 5
      ∧ StronglySorted BotTable.by_count_desc
          (BotTable.topCountries (BotTable.row entry))
      ∧ BotTable.topCountries (BotTable.row entry)
        ⊆+ BotTable.countries_of entry.2
      ∧ ∀ x y,
          x ∈ BotTable.topCountries (BotTable.row entry) →
          y ∈ BotTable.countries_of entry.2 →
          y ∉ BotTable.topCountries (BotTable.row entry) →
          length (BotTable.topCountries (BotTable.row entry)) = 5
          ∧ Countries.count y ≤ Countries.count x.
Proof.
  split.
  - cbn [BotTable.rows]. rewrite <- list_fmap_compose. by apply list_fmap_ext.
  - intros entry Hentry. cbn [BotTable.rows BotTable.row BotTable.topCountries].
    set (sorted := merge_sort BotTable.by_count_desc
                     (BotTable.countries_of entry.2)).
    assert (Hsorted : StronglySorted BotTable.by_count_desc sorted)
      by (apply StronglySorted_merge_sort; apply _).
    assert (Hperm : sorted ≡ₚ BotTable.countries_of entry.2)
      by apply merge_sort_Permutation.
    split; [by apply (list_elem_of_fmap_2 BotTable.row)|].
    split; [rewrite length_take; lia|].
    split.
    { rewrite <- (take_drop 5 sorted) in Hsorted.
      by apply StronglySorted_app_1_l in Hsorted. }
    split.
    { rewrite <- Hperm. apply sublist_submseteq, sublist_take. }
    intros x y Hx Hy Hny. rewrite <- Hperm in Hy.
    by apply (take_sorted_top BotTable.by_count_desc 5 sorted x y).
Qed.

Lemma table_rows_top_countries_witness :
  ("GPTBot", Sample.a_bot) ∈ [("GPTBot", Sample.a_bot)]
  ∧ length (BotTable.topCountries (BotTable.row ("GPTBot", Sample.a_bot))) ≤ 5.
Proof.
  assert (Hin : ("GPTBot", Sample.a_bot) ∈ [("GPTBot", Sample.a_bot)])
    by (apply list_elem_of_singleton; reflexivity).
  split; [exact Hin|].
  exact (proj1 (proj2 (proj2 (table_rows_top_countries _) _ Hin))).
Defined.

(** X21. The table shows every row when the search box is empty and
    otherwise the rows whose lower-cased name includes the lower-cased
    query, each of them once, so never more rows than there are; sorted
    by count the rows come in ascending or descending order of count as
    the direction says, and at the start by descending count. *)
Theorem filtered_rows_shown (toLowerCase : string → string)
    (includes : string → string → bool) (localeCompare : string → string → Z)
    (v : BotTable.view) (rows : list BotTable.BotRow) :
  (BotTable.searchQuery v = "" →
   BotTable.filteredRows toLowerCase includes localeCompare v rows ≡ₚ rows)
  ∧ (BotTable.searchQuery v ≠ "" →
     BotTable.filteredRows toLowerCase includes localeCompare v rows
     ≡ₚ List.filter
          (λ r, includes (toLowerCase (BotTable.name r))
                  (toLowerCase (BotTable.searchQuery v)))
          rows)
  ∧ BotTable.filteredRows toLowerCase includes localeCompare v rows ⊆+ rows
  ∧ length (BotTable.filteredRows toLowerCase includes localeCompare v rows)
    ≤ length rows
  ∧ (BotTable.sortKey v = BotTable.ByCount →
     StronglySorted
       (λ a b, if BotTable.sortAsc v
               then BotTable.count a ≤ BotTable.count b
               else BotTable.count b ≤ BotTable.count a)
       (BotTable.filteredRows toLowerCase includes localeCompare v rows))
  ∧ StronglySorted (λ a b, BotTable.count b ≤ BotTable.count a)
      (BotTable.filteredRows toLowerCase includes localeCompare
         BotTable.initial rows)
  ∧ BotTable.filteredRows toLowerCase includes localeCompare
      BotTable.initial rows ≡ₚ rows.
Proof.
  pose proof (filteredRows_Permutation toLowerCase includes localeCompare v rows)
    as Hperm.
  assert (Hsub : BotTable.filteredRows toLowerCase includes localeCompare v rows
                 ⊆+ rows).
  { rewrite Hperm. destruct (String.eqb (BotTable.searchQuery v) "");
      [done | apply sublist_submseteq, filter_sublist]. }
  assert (Hcount : ∀ v', BotTable.sortKey v' = BotTable.ByCount →
            StronglySorted
              (λ a b, if BotTable.sortAsc v'
                      then BotTable.count a ≤ BotTable.count b
                      else BotTable.count b ≤ BotTable.count a)
              (BotTable.filteredRows toLowerCase includes localeCompare v' rows)).
  { intros v' Hkey.
    pose proof (row_le_count_trans localeCompare v' Hkey) as Htrans.
    pose proof (row_le_count_total localeCompare v' Hkey) as Htotal.
    pose proof (StronglySorted_merge_sort (BotTable.row_le localeCompare v')
                  (if String.eqb (BotTable.searchQuery v') "" then rows
                   else List.filter
                          (BotTable.matches toLowerCase includes
                             (toLowerCase (BotTable.searchQuery v'))) rows))
      as Hsorted.
    unfold BotTable.filteredRows.
    eapply StronglySorted_weaken; [|exact Hsorted].
    intros a b. unfold BotTable.row_le. rewrite Hkey.
    by destruct (BotTable.sortAsc v'). }
  split.
  { intros Hq. rewrite Hperm, Hq. done. }
  split.
  { intros Hq. rewrite Hperm.
    destruct (String.eqb (BotTable.searchQuery v) "") eqn:Heq; [|done].
    by apply String.eqb_eq in Heq. }
  split; [exact Hsub|].
  split; [by apply submseteq_length|].
  split; [apply Hcount|].
  split.
  - by apply (Hcount BotTable.initial).
  - apply (filteredRows_Permutation toLowerCase includes localeCompare
             BotTable.initial rows).
Qed.

Lemma filtered_rows_shown_witness :
  BotTable.sortKey BotTable.initial = BotTable.ByCount
  ∧ StronglySorted
      (λ a b, if BotTable.sortAsc BotTable.initial
              then BotTable.count a ≤ BotTable.count b
              else BotTable.count b ≤ BotTable.count a)
      (BotTable.filteredRows (λ s, s) String.prefix (λ _ _, 0%Z)
         BotTable.initial
         (BotTable.rows (Some [("GPTBot", Sample.a_bot)]))).
Proof.
  assert (Hkey : BotTable.sortKey BotTable.initial = BotTable.ByCount)
    by reflexivity.
  split; [exact Hkey|].
  exact (proj1 (proj2 (proj2 (proj2 (proj2
    (filtered_rows_shown (λ s, s) String.prefix (λ _ _, 0%Z) BotTable.initial
       (BotTable.rows (Some [("GPTBot", Sample.a_bot)]))))))) Hkey).
Defined.

(** X22. A click on a column header makes that column the sort key and
    leaves the query alone; on the current sort column it reverses the
    direction, so two clicks restore the view; on the other column it
    starts with names ascending and counts descending. No click changes
    which rows are shown, only their order. *)
Theorem header_click_sorts (toLowerCase : string → string)
    (includes : string → string → bool) (localeCompare : string → string → Z)
    (key : BotTable.sort_key) (v : BotTable.view)
    (rows : list BotTable.BotRow) :
  BotTable.sortKey (BotTable.toggleSort key v) = key
  ∧ BotTable.searchQuery (BotTable.toggleSort key v) = BotTable.searchQuery v
  ∧ (BotTable.sortKey v = key →
     BotTable.sortAsc (BotTable.toggleSort key v) = negb (BotTable.sortAsc v)
     ∧ BotTable.toggleSort key (BotTable.toggleSort key v) = v)
  ∧ (BotTable.sortKey v ≠ key →
     BotTable.sortAsc (BotTable.toggleSort key v)
     = bool_decide (key = BotTable.ByName))
  ∧ BotTable.filteredRows toLowerCase includes localeCompare
      (BotTable.toggleSort key v) rows
    ≡ₚ BotTable.filteredRows toLowerCase includes localeCompare v rows.
Proof.
  assert (Hkey : BotTable.sortKey (BotTable.toggleSort key v) = key).
  { unfold BotTable.toggleSort. by destruct (decide _). }
  assert (Hquery : BotTable.searchQuery (BotTable.toggleSort key v)
                   = BotTable.searchQuery v).
  { unfold BotTable.toggleSort. by destruct (decide _). }
  split; [exact Hkey|]. split; [exact Hquery|]. split; [|split].
  - intros Hsame. split.
    + by rewrite toggleSort_same.
    + rewrite (toggleSort_same key (BotTable.toggleSort key v)) by done.
      rewrite toggleSort_same by done. cbn. rewrite negb_involutive.
      rewrite <- Hsame. by destruct v.
  - intros Hother. by rewrite toggleSort_other.
  - rewrite !filteredRows_Permutation. by rewrite Hquery.
Qed.

Lemma header_click_sorts_witness :
  BotTable.sortKey BotTable.initial = BotTable.ByCount
  ∧ BotTable.toggleSort BotTable.ByCount
      (BotTable.toggleSort BotTable.ByCount BotTable.initial)
    = BotTable.initial.
Proof.
  assert (Hkey : BotTable.sortKey BotTable.initial = BotTable.ByCount)
    by reflexivity.
  split; [exact Hkey|].
  exact (proj2 (proj1 (proj2 (proj2
    (header_click_sorts (λ s, s) String.prefix (λ _ _, 0%Z)
       BotTable.ByCount BotTable.initial []))) Hkey)).
Defined.

(** X23. [cleanUrl] only deletes: what it returns is the url with some
    characters left out, four for every escape sequence dropped; every
    character that is not a backslash, an x or a hexadecimal digit is
    kept; a url without a backslash comes back as it is. The result may
    hold an escape sequence again: cleaning twice is not cleaning once. *)
Theorem clean_url_only_deletes (url : string) :
  sublist (list_ascii_of_string (BotTable.cleanUrl url))
    (list_ascii_of_string url)
  ∧ (∃ n, String.length url = String.length (BotTable.cleanUrl url) + 4 * n)
  ∧ List.filter (λ c, negb (BotTable.escape_char c))
      (list_ascii_of_string (BotTable.cleanUrl url))
    = List.filter (λ c, negb (BotTable.escape_char c))
        (list_ascii_of_string url)
  ∧ ("\"%char ∉ list_ascii_of_string url → BotTable.cleanUrl url = url)
  ∧ ∃ url', BotTable.cleanUrl (BotTable.cleanUrl url') ≠ BotTable.cleanUrl url'.
Proof.
  split; [|split; [|split; [|split]]].
  - apply (cleanUrl_cases
             (λ u out, sublist (list_ascii_of_string out) (list_ascii_of_string u))).
    + constructor.
    + intros h1 h2 rest out _ _ IH. cbn [list_ascii_of_string].
      by do 4 apply sublist_cons.
    + intros c tl out IH. cbn [list_ascii_of_string]. by apply sublist_skip.
  - apply (cleanUrl_cases
             (λ u out, ∃ n, String.length u = String.length out + 4 * n)).
    + by exists 0.
    + intros h1 h2 rest out _ _ [n IH]. exists (S n).
      cbn [String.length]. lia.
    + intros c tl out [n IH]. exists n. cbn [String.length]. lia.
  - apply (cleanUrl_cases
             (λ u out,
               List.filter (λ c, negb (BotTable.escape_char c))
                 (list_ascii_of_string out)
               = List.filter (λ c, negb (BotTable.escape_char c))
                   (list_ascii_of_string u))).
    + done.
    + intros h1 h2 rest out H1 H2 IH.
      assert (Hhex : ∀ h, BotTable.is_hex h = true →
                          BotTable.escape_char h = true).
      { intros h Hh. unfold BotTable.escape_char. rewrite Hh.
        apply orb_true_r. }
      assert (Hb : BotTable.escape_char "\" = true) by reflexivity.
      assert (Hx : BotTable.escape_char "x" = true) by reflexivity.
      cbn [list_ascii_of_string List.filter].
      rewrite Hb, Hx, (Hhex h1 H1), (Hhex h2 H2). cbn [negb]. exact IH.
    + intros c tl out IH. cbn [list_ascii_of_string List.filter].
      by rewrite IH.
  - apply (cleanUrl_cases
             (λ u out, "\"%char ∉ list_ascii_of_string u → out = u)).
    + done.
    + intros h1 h2 rest out _ _ _ Hno. exfalso. apply Hno.
      cbn [list_ascii_of_string]. by left.
    + intros c tl out IH Hno. cbn [list_ascii_of_string] in Hno.
      rewrite IH; [done|]. intros Hin. apply Hno. by right.
  - exists "\x\x4141"%string. vm_compute. discriminate.
Qed.

Lemma clean_url_only_deletes_witness :
  ("\"%char ∉ list_ascii_of_string "https://openai.com/gptbot")
  ∧ BotTable.cleanUrl "https://openai.com/gptbot" = "https://openai.com/gptbot"%string.
Proof.
  assert (Hno : "\"%char ∉ list_ascii_of_string "https://openai.com/gptbot").
  { intros Hin. apply list_elem_of_In in Hin. cbn in Hin.
    repeat (destruct Hin as [Hin|Hin]; [discriminate Hin|]). exact Hin. }
  split; [exact Hno|].
  exact (proj1 (proj2 (proj2 (proj2
    (clean_url_only_deletes "https://openai.com/gptbot")))) Hno).
Defined.

(** ** The counters of one bot *)

Section BotTallyFacts.
Import BotGeo BotTotals.

Lemma sum_list_take_le (k : nat) (l : list nat) :
  sum_list (take k l) ≤ sum_list l.
Proof.
  revert k. induction l as [|x l IH]; intros [|k]; cbn; try lia.
  specialize (IH k). lia.
Qed.

Lemma lookup_ip_tallied (geoip : capability) (acc acc' : counts * progress)
    (ip : string) (n f0 : nat) :
  tallied acc.1 n (failedLookups acc.2 - f0) →
  lookup_ip geoip acc ip = Ok acc' →
  tallied acc'.1 (S n) (failedLookups acc'.2 - f0).
Proof.
  intros (Hc & Hr & Hcity & Htz & Hf). unfold lookup_ip, tallied.
  destruct (geoip _ ip) as [[g|]|reason];
    cbn [await bind try_catch]; intros [= <-].
  - cbn [fst snd failedLookups]. unfold count_geo.
    cbn [countryCounts regionCounts cityCounts timezoneCounts].
    rewrite sum_values_bump, Hc. split; [done|].
    split; [destruct (String.eqb (Geo.region g) "");
            rewrite ?sum_values_bump; lia|].
    split; [destruct (String.eqb (Geo.city g) "");
            rewrite ?sum_values_bump; lia|].
    split; [destruct (String.eqb (Geo.timezone g) "");
            rewrite ?sum_values_bump; lia|].
    rewrite count_at_bump. lia.
  - unfold count_unknown.
    cbn [fst snd failedLookups countryCounts regionCounts cityCounts
         timezoneCounts].
    rewrite sum_values_bump, count_at_bump, decide_True by done.
    repeat split; lia.
  - unfold count_unknown.
    cbn [fst snd failedLookups countryCounts regionCounts cityCounts
         timezoneCounts].
    rewrite sum_values_bump, count_at_bump, decide_True by done.
    repeat split; lia.
Qed.

Lemma lookup_ips_tallied (geoip : capability) (ips : list string)
    (acc acc' : counts * progress) (n f0 : nat) :
  tallied acc.1 n (failedLookups acc.2 - f0) →
  lookup_ips geoip acc ips = Ok acc' →
  tallied acc'.1 (n + length ips) (failedLookups acc'.2 - f0).
Proof.
  revert acc n. induction ips as [|ip ips IH]; intros acc n Hacc;
    cbn [lookup_ips length].
  - intros [= <-]. by rewrite Nat.add_0_r.
  - destruct (lookup_ip geoip acc ip) as [acc1|] eqn:H1; cbn [bind]; [|done].
    intros Hrest. replace (n + S (length ips)) with (S n + length ips) by lia.
    eapply IH; [|exact Hrest]. by eapply lookup_ip_tallied.
Qed.

Lemma tallied_start (p : progress) :
  tallied no_counts 0 (failedLookups p - failedLookups p).
Proof.
  unfold tallied, no_counts. cbn [countryCounts regionCounts cityCounts
    timezoneCounts]. rewrite sum_values_empty. repeat split; lia.
Qed.

End BotTallyFacts.

(** X24. The enrichment of a bot keeps its request count, user agents and
    info URLs. Of its IPs, each is counted under at most one timezone and
    one city, so the timezone counters, and the counts of the top cities,
    sum to no more than the number of IPs; and the lookups that failed for
    this bot are all counted under the country "Unknown", whose entry
    therefore holds at least that many. *)
Theorem bot_counters_within_ips (geoip : BotGeo.capability)
    (p : BotGeo.progress) (b : BotGeo.bot) :
  ∃ b' p' g,
    BotGeo.enrich_bot geoip p b = Ok (b', p')
    ∧ BotGeo.bot_geo b' = Some g
    ∧ BotGeo.count b' = BotGeo.count b
    ∧ BotGeo.user_agents b' = BotGeo.user_agents b
    ∧ BotGeo.info_urls b' = BotGeo.info_urls b
    ∧ Js.sum_values (BotGeo.timezones g) ≤ length (BotGeo.ips b)
    ∧ sum_list (BotGeo.top_cities g).*2 ≤ length (BotGeo.ips b)
    ∧ BotGeo.failedLookups p ≤ BotGeo.failedLookups p'
    ∧ (BotGeo.failedLookups p < BotGeo.failedLookups p' →
       ∃ e, e ∈ BotGeo.countries g
         ∧ e.1 = "Unknown"
         ∧ Countries.name e.2 = "Unknown"
         ∧ BotGeo.failedLookups p' - BotGeo.failedLookups p
           ≤ Countries.count e.2).
Proof.
  unfold BotGeo.enrich_bot.
  destruct (BotGeo.lookup_ips geoip (BotGeo.no_counts, p) (BotGeo.ips b))
    as [acc|] eqn:Hacc.
  2: { destruct (lookup_ips_ok geoip (BotGeo.ips b) (BotGeo.no_counts, p))
         as (acc' & Hok & _). congruence. }
  cbn [bind].
  pose proof (lookup_ips_tallied geoip (BotGeo.ips b) (BotGeo.no_counts, p) acc
                0 (BotGeo.failedLookups p) (tallied_start p) Hacc)
    as (Hc & _ & Hcity & Htz & Hf).
  destruct (lookup_ips_failed _ _ _ _ Hacc) as [Hfail _].
  cbn [fst snd] in Hfail. cbn [Nat.add] in Hc, Hcity, Htz.
  eexists _, _, _. split; [done|]. split; [done|].
  cbn [BotGeo.count BotGeo.user_agents BotGeo.info_urls BotGeo.timezones
       BotGeo.top_cities BotGeo.countries].
  split; [done|]. split; [done|]. split; [done|]. split; [done|].
  split.
  { rewrite fmap_take. etrans; [apply sum_list_take_le|].
    rewrite (sum_list_Permutation _ (map_to_list (BotGeo.cityCounts acc.1)).*2).
    - exact Hcity.
    - apply fmap_Permutation, merge_sort_Permutation. }
  split; [lia|].
  intros Hlt.
  destruct (BotGeo.countryCounts acc.1 !! "Unknown") as [n|] eqn:Hunknown.
  - exists ("Unknown",
            {| Countries.code := "Unknown";
               Countries.name := Countries.getCountryName "Unknown";
               Countries.count := n;
               Countries.percentage :=
                 Countries.percentage_of n (length (BotGeo.ips b)) |}).
    split; [apply sorted_with_names_entry; by exists n|].
    split; [done|]. split; [by vm_compute|].
    cbn [snd Countries.count]. unfold Tally.count_at in Hf.
    rewrite Hunknown in Hf. exact Hf.
  - unfold Tally.count_at in Hf. rewrite Hunknown in Hf. cbn in Hf. lia.
Qed.

(** ** From the enrichment to the table *)

Section PipelineFacts.
Import BotGeo.

Lemma enrich_bot_keeps (geoip : capability) (p p' : progress) (b b' : bot) :
  enrich_bot geoip p b = Ok (b', p') →
  enriched b b'
  ∧ count b' = count b
  ∧ user_agents b' = user_agents b
  ∧ info_urls b' = info_urls b.
Proof.
  intros Hrun.
  destruct (enrich_bot_ok geoip p b) as (b1 & p1 & Hok & Henriched).
  rewrite Hrun in Hok. injection Hok as <- <-. split; [done|].
  unfold enrich_bot in Hrun.
  destruct (lookup_ips geoip (no_counts, p) (ips b)) as [acc|];
    cbn [bind] in Hrun; [|done].
  by injection Hrun as <- <-.
Qed.

Lemma enrich_bots_keeps (geoip : capability) (botSummary : list (string * bot))
    (p : progress) :
  ∃ out p', enrich_bots geoip p botSummary = Ok (out, p')
    ∧ Forall2 (λ x y, x.1 = y.1
                      ∧ enriched x.2 y.2
                      ∧ count y.2 = count x.2
                      ∧ user_agents y.2 = user_agents x.2
                      ∧ info_urls y.2 = info_urls x.2) botSummary out.
Proof.
  revert p. induction botSummary as [|[botName b] rest IH]; intros p;
    cbn [enrich_bots].
  - eexists _, _. split; [done|]. constructor.
  - destruct (enrich_bot_ok geoip p b) as (b' & p1 & Hb & _).
    rewrite Hb. cbn [bind snd fst].
    destruct (IH p1) as (out & p' & -> & Hout).
    cbn [bind snd fst]. eexists _, _. split; [done|].
    constructor; [|done]. cbn [fst snd]. split; [done|].
    by eapply enrich_bot_keeps.
Qed.

(** The counts of the first countries of a bot do not exceed the counts
    of all of them. *)
Lemma top_counts_le (k : nat) (cs : list Countries.CountryInfo) :
  sum_list (Countries.count <$> take k (merge_sort BotTable.by_count_desc cs))
  ≤ sum_list (Countries.count <$> cs).
Proof.
  rewrite fmap_take. etrans; [apply sum_list_take_le|].
  apply Nat.eq_le_incl, sum_list_Permutation, fmap_Permutation,
    merge_sort_Permutation.
Qed.

End PipelineFacts.

(** X25. The table fed with the output of the enrichment has one row per
    bot of the input summary, in its order and under its name, with the
    bot's request count, info URLs and numbers of IPs and user agents; and
    the counts of the top countries of a row sum to at most its number of
    IPs. *)
Theorem table_of_enriched_summary (geoip : BotGeo.capability)
    (botSummary : list (string * BotGeo.bot)) :
  ∃ out p,
    BotGeo.main geoip botSummary = Ok (out, p)
    ∧ Forall2
        (λ x r,
          BotTable.name r = x.1
          ∧ BotTable.count r = BotGeo.count x.2
          ∧ BotTable.ipCount r = length (BotGeo.ips x.2)
          ∧ BotTable.userAgentCount r = length (BotGeo.user_agents x.2)
          ∧ BotTable.infoUrls r = BotGeo.info_urls x.2
          ∧ sum_list (Countries.count <$> BotTable.topCountries r)
            ≤ BotTable.ipCount r)
        botSummary (BotTable.rows (Some out)).
Proof.
  unfold BotGeo.main.
  destruct (enrich_bots_keeps geoip botSummary
              {| BotGeo.processedIPs := 0; BotGeo.failedLookups := 0 |})
    as (out & p & -> & Hout).
  exists out, p. split; [done|]. cbn [BotTable.rows].
  apply Forall2_fmap_r.
  eapply Forall2_impl; [exact Hout|].
  intros x y (Hname & (Hips & g & Hg & Htotal & _) & Hcount & Hua & Hurls).
  unfold compose.
  cbn [BotTable.row BotTable.name BotTable.count BotTable.ipCount
       BotTable.userAgentCount BotTable.infoUrls BotTable.topCountries].
  rewrite Hua, Hurls. rewrite Hips in *.
  repeat (split; [done|]).
  etrans; [apply top_counts_le|].
  unfold BotTable.countries_of. rewrite Hg.
  unfold Countries.total_count in Htotal.
  rewrite <- list_fmap_compose. by rewrite <- Htotal.
Qed.

(** ** Requests and bytes of one minute *)

Section MinuteFacts.
Import Traffic Tally.

Lemma step_minute (st st' : state) (ev : event) (minute : string) :
  step st ev = Ok st' →
  requests_at (minuteData st') minute
  = requests_at (minuteData st) minute + records_at minute [ev]
  ∧ bytes_at (minuteData st') minute
    = bytes_at (minuteData st) minute + sum_list (sizes_at minute [ev]).
Proof.
  intros Hstep. unfold requests_at, bytes_at, records_at, sizes_at.
  step_cases Hstep; cbn [List.filter omap list_omap length sum_list
                         sum_list_with]; try (split; lia).
  - rewrite insert_insert_eq.
    destruct (decide (key = minute)) as [->|Hne].
    + rewrite lookup_insert_eq, bool_decide_eq_true_2 by done.
      simpl. split; lia.
    + rewrite lookup_insert_ne, bool_decide_eq_false_2 by done.
      simpl. split; lia.
  - destruct (decide (key = minute)) as [->|Hne].
    + rewrite lookup_insert_eq, bool_decide_eq_true_2 by done.
      simpl. split; lia.
    + rewrite lookup_insert_ne, bool_decide_eq_false_2 by done.
      simpl. split; lia.
  - destruct (decide (s_minuteKey h = minute)) as [<-|Hne].
    + rewrite lookup_insert_eq, Hb. simpl. split; lia.
    + rewrite lookup_insert_ne by done. split; lia.
Qed.

Lemma sum_list_append (l1 l2 : list nat) :
  sum_list (l1 ++ l2) = sum_list l1 + sum_list l2.
Proof. induction l1 as [|x l1 IH]; simpl; lia. Qed.

Lemma records_at_cons (minute : string) (ev : event) (evs : list event) :
  records_at minute (ev :: evs) = records_at minute [ev] + records_at minute evs.
Proof.
  unfold records_at. cbn [List.filter].
  destruct ev as [[| |ip key status size]|k o|]; try done.
  by destruct (bool_decide (key = minute)).
Qed.

Lemma sizes_at_cons (minute : string) (ev : event) (evs : list event) :
  sizes_at minute (ev :: evs) = sizes_at minute [ev] ++ sizes_at minute evs.
Proof.
  unfold sizes_at. cbn [omap list_omap].
  destruct ev as [[| |ip key status size]|k o|]; try done.
  by destruct (decide (key = minute)).
Qed.

Lemma run_minute (evs : list event) (st st' : state) (minute : string) :
  run evs st = Ok st' →
  requests_at (minuteData st') minute
  = requests_at (minuteData st) minute + records_at minute evs
  ∧ bytes_at (minuteData st') minute
    = bytes_at (minuteData st) minute + sum_list (sizes_at minute evs).
Proof.
  revert st. induction evs as [|ev evs IH]; intros st Hrun; cbn [run] in Hrun.
  - injection Hrun as <-. cbn. lia.
  - destruct (step st ev) as [st1|] eqn:H1; [|done]. cbn [bind] in Hrun.
    destruct (step_minute _ _ _ minute H1) as [Hr1 Hb1].
    destruct (IH _ Hrun) as [Hr Hb].
    rewrite records_at_cons, sizes_at_cons, sum_list_append. lia.
Qed.

End MinuteFacts.

(** X26. After any run, whatever the order in which the lookups settle,
    the bucket of every minute holds as requests the number of parsed
    records of that minute among the lines read, and as bytes the sum of
    their sizes, a record without size counting for nothing, as long as
    that sum is at most 2^53, up to where the numbers of the script add
    without rounding; a minute without record has no bucket. *)
Theorem minute_counts_its_records (evs : list Traffic.event)
    (st : Traffic.state) (minute : string) :
  Traffic.run evs Traffic.init = Ok st →
  Traffic.requests_at (Traffic.minuteData st) minute
  = Tally.records_at minute evs
  ∧ (Js.exact (sum_list (Tally.sizes_at minute evs)) →
     Tally.bytes_at (Traffic.minuteData st) minute
     = sum_list (Tally.sizes_at minute evs)
     ∧ Js.exact (Tally.bytes_at (Traffic.minuteData st) minute))
  ∧ (Tally.records_at minute evs = 0 → Traffic.minuteData st !! minute = None).
Proof.
  intros Hrun. destruct (run_minute _ _ _ minute Hrun) as [Hr Hb].
  unfold Traffic.requests_at in Hr.
  assert (Hbytes : Tally.bytes_at (Traffic.minuteData st) minute
                   = sum_list (Tally.sizes_at minute evs)).
  { rewrite Hb. unfold Tally.bytes_at. cbn [Traffic.init Traffic.minuteData].
    rewrite lookup_empty. cbn. lia. }
  cbn [Traffic.init Traffic.minuteData] in Hr.
  rewrite lookup_empty in Hr. cbn in Hr.
  split; [exact Hr|]. split.
  { intros Hexact. split; [exact Hbytes | by rewrite Hbytes]. }
  intros Hnone.
  destruct (Traffic.minuteData st !! minute) as [b|] eqn:Hbucket; [|done].
  pose proof (run_buckets_used _ _ Hrun minute b Hbucket) as Hused.
  cbn in Hr. lia.
Qed.

Lemma minute_counts_its_records_witness :
  Traffic.run [Traffic.Line Sample.first_hit; Traffic.Line Sample.other_hit]
    Traffic.init = Ok Sample.two_in_flight
  ∧ Js.exact
      (sum_list
         (Tally.sizes_at Sample.minute0
            [Traffic.Line Sample.first_hit; Traffic.Line Sample.other_hit]))
  ∧ Traffic.requests_at (Traffic.minuteData Sample.two_in_flight) Sample.minute0
    = Tally.records_at Sample.minute0
        [Traffic.Line Sample.first_hit; Traffic.Line Sample.other_hit]
  ∧ Tally.bytes_at (Traffic.minuteData Sample.two_in_flight) Sample.minute0
    = sum_list
        (Tally.sizes_at Sample.minute0
           [Traffic.Line Sample.first_hit; Traffic.Line Sample.other_hit]).
Proof.
  assert (Hrun : Traffic.run
            [Traffic.Line Sample.first_hit; Traffic.Line Sample.other_hit]
            Traffic.init = Ok Sample.two_in_flight) by (vm_compute; reflexivity).
  assert (Hexact : Js.exact
            (sum_list
               (Tally.sizes_at Sample.minute0
                  [Traffic.Line Sample.first_hit; Traffic.Line Sample.other_hit])))
    by (unfold Js.exact; vm_compute; discriminate).
  split; [exact Hrun|]. split; [exact Hexact|].
  split.
  - exact (proj1 (minute_counts_its_records _ _ Sample.minute0 Hrun)).
  - exact (proj1 (proj1 (proj2
             (minute_counts_its_records _ _ Sample.minute0 Hrun)) Hexact)).
Defined.
